(** * StarCharter: ephemeris tracks (src/astroGraphics/ephemeris.c)

    A shallow embedding of [ephemerides_fetch] and [plot_ephemeris].

    Conventions of the embedding.
    - A C [int] is a [Z]; none of the quantities below comes near the
      32-bit limits, so no wrap-around is written out.
    - A C [double] is a rational [Q] and the arithmetic on it is exact.
      The constants are the decimal literals of the source.  The bin/angle
      conversions of the coverage mapper only produce multiples of 1/8, on
      which binary64 arithmetic is exact as well; for the other formulas
      the module [Binary64] at the end re-evaluates the inputs that matter
      in IEEE binary64.
    - A C string is a [string]; the terminating NUL is the end of the
      string.
    - Functions of the repository that are declared in headers outside
      astroGraphics/ephemeris.c (tokenizer, calendar, projection, libm)
      are [Variable]s of the section that uses them. *)

From Stdlib Require Import ZArith QArith Qround Qabs.
From Stdlib Require Import List String Ascii Bool.
From Stdlib Require Import Lia Lqa.
From Stdlib Require DecimalString DecimalPos.
From Stdlib Require Floats.
Import ListNotations.

Local Open Scope Z_scope.

(** ** C arithmetic on [double] and [int] *)

Module CNum.

Definition double := Q.

(** [x < y] and [x <= y] as C conditions. *)
Definition dle (x y : double) : bool := Qle_bool x y.
Definition dlt (x y : double) : bool := negb (Qle_bool y x).

(** The macros MAX and MIN of gsl_math.h / the project:
    [((a) > (b) ? (a) : (b))] and [((a) < (b) ? (a) : (b))]. *)
Definition MAX (a b : double) : double := if dlt b a then a else b.
Definition MIN (a b : double) : double := if dlt a b then a else b.

Definition fabs (x : double) : double := Qabs x.
Definition ceil (x : double) : double := inject_Z (Qceiling x).
Definition floor (x : double) : double := inject_Z (Qfloor x).

(** The cast [(int) x]: truncation toward zero. *)
Definition int_of_double (x : double) : Z := Z.quot (Qnum x) (Zpos (Qden x)).

(** An [int] used in a [double] expression. *)
Definition double_of_int (n : Z) : double := inject_Z n.

(** A C condition used as a number: 1 when it holds, 0 otherwise. *)
Definition int_of_bool (b : bool) : Z := if b then 1 else 0.

Lemma dle_spec x y : dle x y = true <-> (x <= y)%Q.
Proof. unfold dle. apply Qle_bool_iff. Qed.

Lemma dlt_spec x y : dlt x y = true <-> (x < y)%Q.
Proof.
  unfold dlt. rewrite negb_true_iff. split; intro H.
  - apply Qnot_le_lt. intro L. apply Qle_bool_iff in L. congruence.
  - destruct (Qle_bool y x) eqn:E; [|reflexivity].
    apply Qle_bool_iff in E. exfalso. apply (Qlt_not_le _ _ H E).
Qed.

Lemma dlt_false x y : dlt x y = false <-> (y <= x)%Q.
Proof.
  unfold dlt. rewrite negb_false_iff. apply Qle_bool_iff.
Qed.

Lemma dle_false x y : dle x y = false <-> (y < x)%Q.
Proof.
  unfold dle. split; intro H.
  - apply Qnot_le_lt. intro L. apply Qle_bool_iff in L. congruence.
  - destruct (Qle_bool x y) eqn:E; [|reflexivity].
    apply Qle_bool_iff in E. exfalso. apply (Qlt_not_le _ _ H E).
Qed.

Lemma MAX_ge_l a b : (a <= MAX a b)%Q.
Proof.
  unfold MAX. destruct (dlt b a) eqn:E; [apply Qle_refl|].
  now apply dlt_false in E.
Qed.

Lemma MAX_ge_r a b : (b <= MAX a b)%Q.
Proof.
  unfold MAX. destruct (dlt b a) eqn:E; [|apply Qle_refl].
  apply dlt_spec in E. now apply Qlt_le_weak.
Qed.

Lemma MIN_le_l a b : (MIN a b <= a)%Q.
Proof.
  unfold MIN. destruct (dlt a b) eqn:E; [apply Qle_refl|].
  now apply dlt_false in E.
Qed.

Lemma MIN_le_r a b : (MIN a b <= b)%Q.
Proof.
  unfold MIN. destruct (dlt a b) eqn:E; [|apply Qle_refl].
  apply dlt_spec in E. now apply Qlt_le_weak.
Qed.

Lemma MIN_cases a b : (MIN a b = a /\ (a < b)%Q) \/ (MIN a b = b /\ (b <= a)%Q).
Proof.
  unfold MIN. destruct (dlt a b) eqn:E.
  - left. split; [reflexivity | now apply dlt_spec].
  - right. split; [reflexivity | now apply dlt_false].
Qed.

Lemma MAX_cases a b : (MAX a b = a /\ (b < a)%Q) \/ (MAX a b = b /\ (a <= b)%Q).
Proof.
  unfold MAX. destruct (dlt b a) eqn:E.
  - left. split; [reflexivity | now apply dlt_spec].
  - right. split; [reflexivity | now apply dlt_false].
Qed.

End CNum.
Import CNum.

(** ** The label priority of [plot_ephemeris] (lines 528-536) *)

Module Priority.

(** [priority] for the point at index [i] of the track, from the fields
    [sub_month_label], [day] and [month] stored with its label.  The
    literals of the source are 0.0123, 1e-12, 4e-6, 1e-7, 3e-7, 2e-7 and
    1e-7. *)
Definition priority (i : Z) (sub_month_label day month : Z) : double :=
  ((123 # 10000)
   + (1 # 1000000000000) * double_of_int i
   - (4 # 1000000) * double_of_int (int_of_bool (sub_month_label =? 0))
   - (1 # 10000000) * double_of_int (int_of_bool (day =? 14))
   - (3 # 10000000) * double_of_int (int_of_bool (month =? 1))
   - (2 # 10000000) * double_of_int (int_of_bool (month =? 7))
   - (1 # 10000000) * double_of_int (int_of_bool ((month =? 4) || (month =? 11))))%Q.

(** What the months contribute: the amount subtracted from the score. *)
Definition month_bonus (month : Z) : double :=
  ((3 # 10000000) * double_of_int (int_of_bool (month =? 1))
   + (2 # 10000000) * double_of_int (int_of_bool (month =? 7))
   + (1 # 10000000) * double_of_int (int_of_bool ((month =? 4) || (month =? 11))))%Q.

Lemma priority_split i sub day month :
  (priority i sub day month ==
     (123 # 10000) + (1 # 1000000000000) * inject_Z i
     - (4 # 1000000) * inject_Z (int_of_bool (sub =? 0))
     - (1 # 10000000) * inject_Z (int_of_bool (day =? 14))
     - month_bonus month)%Q.
Proof. unfold priority, month_bonus, double_of_int. ring. Qed.

Ltac flags_to_Q :=
  unfold double_of_int, int_of_bool;
  cbn [Z.eqb Pos.eqb orb];
  change (inject_Z 1) with 1%Q; change (inject_Z 0) with 0%Q.

(** A major label on April 1 scores strictly lower than any minor label at
    the same index. *)
Lemma priority_major_april_lt_minor (i day month : Z) :
  (priority i 0 1 4 < priority i 1 day month)%Q.
Proof.
  unfold priority.
  destruct (day =? 14), (month =? 1), (month =? 7), ((month =? 4) || (month =? 11))%bool;
    flags_to_Q; lra.
Qed.

(** With the fields of a major label and [day = 14], January scores lower
    than January 1 at the same index, and at any later index less than
    100000 points further on. *)
Lemma priority_jan14_lt_jan1 (i j : Z) :
  i <= j < i + 100000 -> (priority j 0 14 1 < priority i 0 1 1)%Q.
Proof.
  intros [Hij Hj]. unfold priority. flags_to_Q.
  assert (inject_Z j < inject_Z i + 100000)%Q as H.
  { change 100000%Q with (inject_Z 100000). rewrite <- inject_Z_plus.
    rewrite <- Zlt_Qlt. exact Hj. }
  lra.
Qed.

(** C1: the score is the base 0.0123, plus 1e-12 for each index, minus
    4e-6 for a major label, minus 1e-7 on a day 14, minus the month term.
    The month term is 3e-7 for January, 2e-7 for July and 1e-7 for April
    and for November.  October gets nothing: its score is that of
    February, and November scores strictly lower than October. *)
Theorem priority_october_no_bonus (i sub day : Z) :
  (month_bonus 1 == 3 # 10000000)%Q /\ (month_bonus 7 == 2 # 10000000)%Q
  /\ (month_bonus 4 == 1 # 10000000)%Q /\ (month_bonus 11 == 1 # 10000000)%Q
  /\ (month_bonus 10 == 0)%Q
  /\ (priority i sub day 10 == priority i sub day 2)%Q
  /\ (priority i sub day 11 < priority i sub day 10)%Q.
Proof.
  assert (forall m, priority i sub day m
                    == priority i sub day 2 - month_bonus m)%Q as Hsplit.
  { intro m. rewrite !priority_split.
    assert (month_bonus 2 == 0)%Q as H2 by reflexivity. lra. }
  assert (month_bonus 10 == 0)%Q as H10 by reflexivity.
  assert (month_bonus 11 == 1 # 10000000)%Q as H11 by reflexivity.
  do 4 (split; [reflexivity|]). split; [exact H10|]. split.
  - rewrite (Hsplit 10). lra.
  - rewrite (Hsplit 11), (Hsplit 10). lra.
Qed.

End Priority.

(** ** C strings and the conversions of [snprintf] *)

Module CString.

Local Open Scope string_scope.

Definition code (c : ascii) : Z := Z.of_N (N_of_ascii c).

(** [s[0] == '\0'] *)
Definition is_empty (s : string) : bool :=
  match s with EmptyString => true | String _ _ => false end.

(** [strncmp s1 s2 n], as the sign of its result: [Eq] is a result of 0.
    Characters compare as unsigned; a string that ends is smaller than
    one that goes on. *)
Fixpoint strncmp (s1 s2 : string) (n : nat) : comparison :=
  match n with
  | O => Eq
  | S n' =>
      match s1, s2 with
      | EmptyString, EmptyString => Eq
      | EmptyString, String _ _ => Lt
      | String _ _, EmptyString => Gt
      | String c1 t1, String c2 t2 =>
          match Z.compare (code c1) (code c2) with
          | Eq => strncmp t1 t2 n'
          | r => r
          end
      end
  end.

(** The conversion [%.Ns]: at most [n] characters of the argument. *)
Definition fmt_s (n : nat) (s : string) : string := substring 0 n s.

(** The conversion [%d]. *)
Definition fmt_d (z : Z) : string :=
  DecimalString.NilEmpty.string_of_int (Z.to_int z).

(** The integer nearest to [x], ties to even: the digits [%.0f] prints. *)
Definition round_half_even (x : double) : Z :=
  let f := Qfloor x in
  let r := (x - inject_Z f)%Q in
  if dlt r (1 # 2) then f
  else if dlt (1 # 2) r then f + 1
  else if Z.even f then f else f + 1.

(** The conversion [%.0f]. *)
Definition fmt_0f (x : double) : string := fmt_d (round_half_even x).

Lemma code_inj c1 c2 : code c1 = code c2 -> c1 = c2.
Proof.
  unfold code. intro H. apply N2Z.inj in H.
  rewrite <- (ascii_N_embedding c1), <- (ascii_N_embedding c2). now rewrite H.
Qed.

Lemma strncmp_Eq_iff (n : nat) : forall s1 s2,
  strncmp s1 s2 n = Eq <-> substring 0 n s1 = substring 0 n s2.
Proof.
  induction n as [|n IH]; intros s1 s2.
  - destruct s1, s2; simpl; split; reflexivity.
  - destruct s1 as [|c1 t1], s2 as [|c2 t2]; simpl.
    + split; reflexivity.
    + split; discriminate.
    + split; discriminate.
    + destruct (Z.compare (code c1) (code c2)) eqn:E.
      * apply Z.compare_eq in E. apply code_inj in E. subst c2.
        rewrite IH. split; intro H; [now rewrite H | now inversion H].
      * split; [discriminate|]. intro H. inversion H; subst.
        rewrite Z.compare_refl in E. discriminate.
      * split; [discriminate|]. intro H. inversion H; subst.
        rewrite Z.compare_refl in E. discriminate.
Qed.

Lemma fmt_s_length (n : nat) : forall s,
  (n <= String.length s)%nat -> String.length (fmt_s n s) = n.
Proof.
  unfold fmt_s. induction n as [|n IH]; intros s H.
  - destruct s; reflexivity.
  - destruct s as [|c t]; cbn in H; [lia|].
    cbn. f_equal. apply IH. lia.
Qed.

Lemma string_of_uint_nonempty (d : Decimal.uint) :
  d <> Decimal.Nil -> DecimalString.NilEmpty.string_of_uint d <> EmptyString.
Proof. destruct d; simpl; congruence. Qed.

Lemma fmt_d_nonempty (z : Z) : fmt_d z <> EmptyString.
Proof.
  unfold fmt_d. destruct z as [|p|p]; simpl; try discriminate.
  apply string_of_uint_nonempty, DecimalPos.Unsigned.to_uint_nonnil.
Qed.

Lemma fmt_0f_nonempty (x : double) : fmt_0f x <> EmptyString.
Proof. apply fmt_d_nonempty. Qed.

Lemma fmt_d_four_digits_table :
  forallb (fun n => Nat.eqb (String.length (fmt_d (Z.of_nat n))) 4) (seq (Z.to_nat 1000) (Z.to_nat 9000)) = true.
Proof. vm_compute. reflexivity. Qed.

Lemma fmt_d_four_digits (y : Z) :
  1000 <= y <= 9999 -> String.length (fmt_d y) = 4%nat.
Proof.
  intro H. pose proof fmt_d_four_digits_table as T.
  rewrite forallb_forall in T.
  specialize (T (Z.to_nat y)).
  rewrite Z2Nat.id in T by lia.
  apply Nat.eqb_eq, T, in_seq. lia.
Qed.

End CString.
Import CString.

(** ** How a run of the program ends *)

Module Run.

(** [Returns a]: the function returns with [a].  [Exits d]: [stch_fatal]
    reported [d] and [exit(1)] ended the process.  [OutOfFuel]: a loop of
    the model was cut off before the loop of the source ended. *)
Inductive outcome (A : Type) : Type :=
| Returns (a : A)
| Exits (diagnostic : string)
| OutOfFuel.

Arguments Returns {A} a.
Arguments Exits {A} diagnostic.
Arguments OutOfFuel {A}.

Definition bind {A B : Type} (m : outcome A) (k : A -> outcome B) : outcome B :=
  match m with
  | Returns a => k a
  | Exits d => Exits d
  | OutOfFuel => OutOfFuel
  end.

(** [while (cond) body;] on a state [S], cut off after [fuel] tests. *)
Fixpoint while_do {S : Type} (fuel : nat) (cond : S -> bool) (body : S -> S) (s : S)
  : outcome S :=
  match fuel with
  | O => OutOfFuel
  | Datatypes.S fuel' =>
      if cond s then while_do fuel' cond body (body s) else Returns s
  end.

Lemma while_do_exit {S : Type} (fuel : nat) (cond : S -> bool) (body : S -> S) (s : S) :
  cond s = false -> while_do (Datatypes.S fuel) cond body s = Returns s.
Proof. intro H. cbn [while_do]. now rewrite H. Qed.

Lemma while_do_turn {S : Type} (fuel : nat) (cond : S -> bool) (body : S -> S) (s : S) :
  cond s = true ->
  while_do (Datatypes.S fuel) cond body s = while_do fuel cond body (body s).
Proof. intro H. cbn [while_do]. now rewrite H. Qed.

End Run.
Import Run.

Notation "x <- m ;; k" := (bind m (fun x => k))
  (at level 61, m at next level, right associativity).
Notation "' pat <- m ;; k" := (bind m (fun x => match x with pat => k end))
  (at level 61, pat pattern, m at next level, right associativity).

(** ** EphemerisLoader: the first loop of [ephemerides_fetch] (lines 62-194) *)

Module Loader.

(** [ephemeris_point]; [text_label] is [None] for the NULL pointer. *)
Record ephemeris_point : Type := {
  ra : double;
  dec : double;
  text_label : option string;
  day : Z;
  month : Z;
  year : Z;
  sub_month_label : Z
}.

(** [ephemeris]: [data] holds the entries [data[0 .. point_count-1]]. *)
Record ephemeris : Type := {
  jd_start : double;
  jd_end : double;
  jd_step : double;
  point_count : Z;
  data : list ephemeris_point
}.

(** One entry of [s->ephemeris_definitions], already split at its commas by
    [str_comma_separated_list_scan] and read by [get_float], together with
    the lines [popen] delivers for it. *)
Record trace : Type := {
  object_id : string;
  jd_min : double;
  jd_max : double;
  output : list string
}.

(** The two variables the line loop carries from one line to the next. *)
Record reader : Type := {
  line_counter : Z;
  previous_label : string
}.

(** The scan over leading white space: characters with codes 1 to 32. *)
Fixpoint skip_blanks (s : string) : string :=
  match s with
  | EmptyString => s
  | String c t => if (0 <? code c) && (code c <=? 32) then skip_blanks t else s
  end.

(** Neither [continue] of the line loop is taken. *)
Definition is_data_line (line : string) : bool :=
  match skip_blanks line with
  | EmptyString => false
  | String c _ => negb (Ascii.eqb c "#"%char)
  end.

(** The estimate of line 82, [(int) (20 + (jd_end - jd_start) / jd_step)]. *)
Definition capacity_estimate (jd_start jd_end jd_step : double) : Z :=
  int_of_double (20 + (jd_end - jd_start) / jd_step)%Q.

Section Loader.

(** Declared in coreUtils/asciiDouble.h and mathsTools/julianDate.h.
    [inv_julian_day] gives the year, the month and the day; its other
    results are not used by the caller. *)
Variable get_float : string -> double.
Variable next_word : string -> string.
Variable inv_julian_day : double -> Z * Z * Z.
Variable get_month_name : Z -> string.

(** Lines 151-163: the text of the candidate label and [sub_month_label]. *)
Definition make_label (previous_label : string) (year month day : Z) : string * Z :=
  if 6 <? day then
    (fmt_0f (floor (double_of_int day / 7) * 7)%Q, 1)
  else if (month =? 1) || is_empty previous_label then
    ((fmt_s 3 (get_month_name month) ++ " " ++ fmt_d year)%string, 0)
  else
    (fmt_s 3 (get_month_name month), 0).

(** Line 167: the condition under which the label is attached. *)
Definition show_label (label previous_label : string) (day : Z) : bool :=
  negb (match strncmp label previous_label 3 with Eq => true | _ => false end)
  && (negb (is_empty previous_label) || (day =? 1)).

(** One turn of the line loop: [None] when the line is skipped, otherwise
    the entry stored at [data[line_counter]]; and the variables carried on. *)
Definition read_line (r : reader) (line : string) : option ephemeris_point * reader :=
  let scan := skip_blanks line in
  if negb (is_data_line line) then (None, r)
  else
    let jd := get_float scan in
    let scan := next_word scan in
    let ra := get_float scan in
    let scan := next_word scan in
    let dec := get_float scan in
    let '(year, month, day) := inv_julian_day jd in
    let '(label, sub_month_label) := make_label (previous_label r) year month day in
    if show_label label (previous_label r) day then
      (Some {| ra := ra; dec := dec; text_label := Some label;
               day := day; month := month; year := year;
               sub_month_label := sub_month_label |},
       {| line_counter := line_counter r + 1; previous_label := label |})
    else
      (Some {| ra := ra; dec := dec; text_label := None;
               day := 0; month := 0; year := 0; sub_month_label := 0 |},
       {| line_counter := line_counter r + 1; previous_label := previous_label r |}).

(** The line loop over the lines of the generator.  The result lists the
    stores [data[index] := entry] in program order, with the variables at
    the end of the loop. *)
Fixpoint read_output (r : reader) (lines : list string)
  : list (Z * ephemeris_point) * reader :=
  match lines with
  | [] => ([], r)
  | line :: rest =>
      let (stored, r') := read_line r line in
      let (stores, r'') := read_output r' rest in
      (match stored with
       | Some pt => (line_counter r, pt) :: stores
       | None => stores
       end, r'')
  end.

Definition reader_init : reader := {| line_counter := 0; previous_label := EmptyString |}.

(** The body of the loop over the objects, for one of them. *)
Definition fetch_track (t : trace) : outcome ephemeris :=
  let (stores, r) := read_output reader_init (output t) in
  if line_counter r =? 0 then
    Exits "ephemeris-compute-de430 returned no data"%string
  else
    Returns {| jd_start := jd_min t; jd_end := jd_max t; jd_step := 1 # 2;
               point_count := line_counter r; data := map snd stores |}.

(** The loop over the objects: [s->ephemeris_data] and
    [total_ephemeris_points]. *)
Fixpoint fetch_tracks (ts : list trace) : outcome (list ephemeris * Z) :=
  match ts with
  | [] => Returns ([], 0)
  | t :: rest =>
      e <- fetch_track t ;;
      '(es, total) <- fetch_tracks rest ;;
      Returns (e :: es, point_count e + total)
  end.

(** The text of the label attached last among the stores, the initial value when there
    is none. *)
Fixpoint last_attached (stores : list (Z * ephemeris_point)) (before : string) : string :=
  match stores with
  | [] => before
  | (_, pt) :: rest =>
      last_attached rest (match text_label pt with Some l => l | None => before end)
  end.

(** The number of lines of the generator that carry data. *)
Definition data_lines (lines : list string) : Z :=
  Z.of_nat (List.length (filter is_data_line lines)).

Lemma read_line_skipped (r : reader) (line : string) :
  is_data_line line = false -> read_line r line = (None, r).
Proof. intro H. unfold read_line. now rewrite H. Qed.

Lemma read_line_stored (r : reader) (line : string) :
  is_data_line line = true ->
  exists pt r', read_line r line = (Some pt, r')
                /\ line_counter r' = line_counter r + 1.
Proof.
  intro H. unfold read_line. rewrite H. cbn [negb].
  destruct (inv_julian_day _) as [[y m] d].
  destruct (make_label _ y m d) as [label sub].
  destruct (show_label label _ d); eexists; eexists; split; reflexivity.
Qed.

Lemma read_output_app (l1 l2 : list string) : forall r,
  read_output r (l1 ++ l2) =
    (fst (read_output r l1) ++ fst (read_output (snd (read_output r l1)) l2),
     snd (read_output (snd (read_output r l1)) l2)).
Proof.
  induction l1 as [|line l1 IH]; intro r; cbn [app read_output fst snd].
  - now destruct (read_output r l2).
  - destruct (read_line r line) as [stored r'].
    rewrite IH.
    destruct (read_output r' l1) as [s1 r1]. cbn [fst snd].
    destruct (read_output r1 l2) as [s2 r2]. cbn [fst snd].
    now destruct stored.
Qed.

(** The stores go to the indices [line_counter], [line_counter + 1], ... in
    this order, one for each data line, and the counter ends behind the
    last of them. *)
Lemma read_output_indices (lines : list string) : forall r,
  map fst (fst (read_output r lines))
    = map (fun k => line_counter r + Z.of_nat k) (seq 0 (List.length (filter is_data_line lines)))
  /\ line_counter (snd (read_output r lines)) = line_counter r + data_lines lines.
Proof.
  unfold data_lines.
  induction lines as [|line rest IH]; intro r; cbn [read_output filter].
  - cbn. split; [reflexivity | lia].
  - destruct (is_data_line line) eqn:E.
    + destruct (read_line_stored r line E) as (pt & r' & -> & Hc).
      specialize (IH r'). destruct (read_output r' rest) as [stores r''].
      cbn [fst snd] in *. destruct IH as [IH1 IH2]. split.
      * cbn [List.length seq map]. rewrite IH1, <- seq_shift, map_map.
        f_equal; [cbn; lia|]. apply map_ext. intro k. lia.
      * rewrite IH2, Hc. cbn [List.length]. lia.
    + rewrite (read_line_skipped r line E).
      specialize (IH r). destruct (read_output r rest) as [stores r''].
      exact IH.
Qed.

Lemma read_output_length (lines : list string) (r : reader) :
  Z.of_nat (List.length (fst (read_output r lines))) = data_lines lines.
Proof.
  destruct (read_output_indices lines r) as [H _].
  apply (f_equal (@List.length Z)) in H. rewrite !length_map, length_seq in H.
  unfold data_lines. now rewrite H.
Qed.

(** [previous_label] is the text of the label attached last. *)
Lemma read_output_previous_label (lines : list string) : forall r,
  previous_label (snd (read_output r lines))
    = last_attached (fst (read_output r lines)) (previous_label r).
Proof.
  induction lines as [|line rest IH]; intro r; cbn [read_output].
  - reflexivity.
  - destruct (is_data_line line) eqn:E.
    + unfold read_line. rewrite E. cbn [negb].
      destruct (inv_julian_day _) as [[y m] d].
      destruct (make_label _ y m d) as [label sub].
      destruct (show_label label _ d);
        match goal with
        | |- context [read_output ?r' rest] =>
            specialize (IH r'); destruct (read_output r' rest) as [stores r'']
        end; cbn [fst snd] in *; rewrite IH; reflexivity.
    + rewrite (read_line_skipped r line E).
      specialize (IH r). destruct (read_output r rest) as [stores r''].
      exact IH.
Qed.

Lemma fmt_s_nonempty (n : nat) (s : string) :
  s <> EmptyString -> fmt_s (S n) s <> EmptyString.
Proof. destruct s; [congruence | discriminate]. Qed.

Lemma make_label_nonempty (prev : string) (y m d : Z) :
  (forall k, get_month_name k <> EmptyString) ->
  fst (make_label prev y m d) <> EmptyString.
Proof.
  intro Hname. unfold make_label.
  destruct (6 <? d); [apply fmt_0f_nonempty|].
  destruct ((m =? 1) || is_empty prev)%bool; cbn [fst].
  - destruct (fmt_s 3 (get_month_name m)); discriminate.
  - apply fmt_s_nonempty, Hname.
Qed.

Lemma show_label_first (label : string) (d : Z) :
  show_label label EmptyString d = true -> d = 1.
Proof.
  unfold show_label. cbn [is_empty negb orb]. intro H.
  apply andb_true_iff in H. destruct H as [_ H]. now apply Z.eqb_eq.
Qed.

Lemma show_label_later (label prev : string) (d : Z) :
  prev <> EmptyString ->
  show_label label prev d = true <-> substring 0 3 label <> substring 0 3 prev.
Proof.
  intro Hprev. unfold show_label.
  assert (is_empty prev = false) as -> by (destruct prev; [congruence | reflexivity]).
  cbn [negb orb]. rewrite andb_true_r, negb_true_iff, <- strncmp_Eq_iff.
  destruct (strncmp label prev 3); split; congruence.
Qed.

(** Every label the loop attaches has a text. *)
Lemma read_output_labels_nonempty (lines : list string) :
  (forall k, get_month_name k <> EmptyString) ->
  forall r w l, In w (fst (read_output r lines)) ->
                text_label (snd w) = Some l -> l <> EmptyString.
Proof.
  intro Hname. induction lines as [|line rest IH]; intros r w l; cbn [read_output].
  - intros [].
  - destruct (is_data_line line) eqn:E.
    + unfold read_line. rewrite E. cbn [negb].
      destruct (inv_julian_day _) as [[y m] d].
      pose proof (make_label_nonempty (previous_label r) y m d Hname) as Hl.
      destruct (make_label _ y m d) as [label sub]. cbn [fst] in Hl.
      destruct (show_label label _ d);
        match goal with
        | |- context [read_output ?r' rest] =>
            specialize (IH r' w l); destruct (read_output r' rest) as [stores r'']
        end; cbn [fst snd] in *; (intros [<- | Hin]; [cbn; congruence | now apply IH]).
    + rewrite (read_line_skipped r line E).
      specialize (IH r w l). destruct (read_output r rest) as [stores r''].
      exact IH.
Qed.

Lemma last_attached_none (stores : list (Z * ephemeris_point)) : forall before,
  (forall w, In w stores -> text_label (snd w) = None) ->
  last_attached stores before = before.
Proof.
  induction stores as [|[k pt] rest IH]; intros before H; cbn [last_attached].
  - reflexivity.
  - assert (text_label pt = None) as -> by (apply (H (k, pt)); now left).
    apply IH.
    intros w Hw. apply H. now right.
Qed.

Lemma last_attached_some (stores : list (Z * ephemeris_point)) : forall before,
  (forall w l, In w stores -> text_label (snd w) = Some l -> l <> EmptyString) ->
  (exists w, In w stores /\ text_label (snd w) <> None) ->
  last_attached stores before <> EmptyString.
Proof.
  induction stores as [|[k pt] rest IH]; intros before Hne [w [Hin Hw]].
  - destruct Hin.
  - cbn [last_attached].
    assert (forall w l, In w rest -> text_label (snd w) = Some l -> l <> EmptyString)
      as Hne' by (intros; eapply Hne; [right|]; eassumption).
    destruct (text_label pt) as [l|] eqn:El.
    + destruct (List.existsb (fun w => match text_label (snd w) with Some _ => true | None => false end) rest) eqn:Ex.
      * apply IH; [exact Hne'|].
        apply existsb_exists in Ex. destruct Ex as [w' [Hin' Hw']].
        exists w'. split; [exact Hin'|]. destruct (text_label (snd w')); congruence.
      * rewrite last_attached_none.
        -- apply (Hne (k, pt) l); [now left | exact El].
        -- intros w' Hin'. destruct (text_label (snd w')) eqn:E'; [|reflexivity].
           exfalso. assert (List.existsb (fun w => match text_label (snd w) with Some _ => true | None => false end) rest = true) as C.
           { apply existsb_exists. exists w'. split; [exact Hin'|]. now rewrite E'. }
           congruence.
    + apply IH; [exact Hne'|]. destruct Hin as [<- | Hin].
      * cbn [snd] in Hw. congruence.
      * exists w. now split.
Qed.

(** C3: on every track the first label is attached on a day 1 and reads
    month abbreviation (the first three letters of the month name), blank,
    year (four digits for the years 1000 to 9999); once a label is attached, a candidate is attached if and only if
    its first three characters differ from those of the label attached
    last, and the entry stays without label otherwise. *)
Theorem first_label_day_one_later_on_month_change
  (lines1 lines2 : list string) (line : string)
  (pt : ephemeris_point) (r2 : reader) (y m d : Z) :
  (forall k, get_month_name k <> EmptyString) ->
  let stores1 := fst (read_output reader_init lines1) in
  let r1 := snd (read_output reader_init lines1) in
  let candidate := fst (make_label (previous_label r1) y m d) in
  read_line r1 line = (Some pt, r2) ->
  inv_julian_day (get_float (skip_blanks line)) = (y, m, d) ->
  fst (read_output reader_init (lines1 ++ line :: lines2))
    = (stores1 ++ (line_counter r1, pt) :: fst (read_output r2 lines2))%list
  /\ ((forall w, In w stores1 -> text_label (snd w) = None) ->
      forall l, text_label pt = Some l ->
        d = 1 /\ day pt = 1
        /\ l = (fmt_s 3 (get_month_name m) ++ " " ++ fmt_d y)%string
        /\ ((3 <= String.length (get_month_name m))%nat ->
            String.length (fmt_s 3 (get_month_name m)) = 3%nat)
        /\ (1000 <= y <= 9999 -> String.length (fmt_d y) = 4%nat))
  /\ ((exists w, In w stores1 /\ text_label (snd w) <> None) ->
      previous_label r1 = last_attached stores1 EmptyString
      /\ (text_label pt = Some candidate <->
          substring 0 3 candidate <> substring 0 3 (last_attached stores1 EmptyString))
      /\ (text_label pt = None <->
          substring 0 3 candidate = substring 0 3 (last_attached stores1 EmptyString))).
Proof.
  intros Hname stores1 r1 candidate Hline Hdate.
  pose proof (read_output_previous_label lines1 reader_init) as Hprev.
  fold stores1 r1 in Hprev. cbn [reader_init previous_label] in Hprev.
  fold (previous_label r1) in Hprev.
  split; [|split].
  - rewrite read_output_app. cbn [fst read_output]. fold r1 stores1.
    rewrite Hline. now destruct (read_output r2 lines2).
  - intros Hnone l Hl.
    rewrite (last_attached_none stores1 EmptyString Hnone) in Hprev.
    unfold read_line in Hline.
    destruct (is_data_line line); cbn [negb] in Hline; [|discriminate].
    rewrite Hdate, Hprev in Hline.
    destruct (make_label EmptyString y m d) as [label sub] eqn:Eml.
    destruct (show_label label EmptyString d) eqn:Eshow;
      inversion Hline; subst pt; [|discriminate].
    apply show_label_first in Eshow. subst d.
    unfold make_label in Eml. change (6 <? 1) with false in Eml.
    cbn [is_empty] in Eml. rewrite orb_true_r in Eml.
    inversion Eml; subst label sub. cbn [text_label day] in *.
    inversion Hl; subst l.
    repeat split; try reflexivity; [apply fmt_s_length | apply fmt_d_four_digits].
  - intros Hsome.
    assert (previous_label r1 <> EmptyString) as Hne.
    { rewrite Hprev. apply last_attached_some; [|exact Hsome].
      intros w l. apply read_output_labels_nonempty. exact Hname. }
    split; [exact Hprev|].
    unfold read_line in Hline.
    destruct (is_data_line line); cbn [negb] in Hline; [|discriminate].
    rewrite Hdate in Hline. subst candidate. rewrite <- Hprev.
    destruct (make_label (previous_label r1) y m d) as [label sub]. cbn [fst].
    pose proof (show_label_later label (previous_label r1) d Hne) as Hiff.
    destruct (show_label label (previous_label r1) d);
      inversion Hline; subst pt; cbn [text_label].
    + split; split; try congruence.
      * intros _. now apply Hiff.
      * intro C. exfalso. apply (proj1 Hiff eq_refl). exact C.
    + split; split; try congruence.
      * intro C. apply Hiff in C. discriminate.
      * intros _. destruct (string_dec (substring 0 3 label) (substring 0 3 (previous_label r1))) as [e|n];
          [exact e | apply Hiff in n; discriminate].
Qed.

(** C10, as the code has it: the stores of a track go to the indices 0, 1,
    2, ... one for each data line, whatever the estimate; they all stay
    below the estimate exactly when there are no more data lines than the
    estimate (or none at all). *)
Theorem stores_below_capacity_iff (t : trace) :
  let capacity := capacity_estimate (jd_min t) (jd_max t) (1 # 2) in
  let stores := fst (read_output reader_init (output t)) in
  map fst stores = map Z.of_nat (seq 0 (Z.to_nat (data_lines (output t))))
  /\ line_counter (snd (read_output reader_init (output t))) = data_lines (output t)
  /\ (Forall (fun w => 0 <= fst w < capacity) stores
      <-> data_lines (output t) = 0 \/ data_lines (output t) <= capacity).
Proof.
  intros capacity stores.
  destruct (read_output_indices (output t) reader_init) as [Hi Hc].
  cbn [reader_init line_counter] in Hi, Hc. fold stores in Hi.
  assert (map fst stores = map Z.of_nat (seq 0 (Z.to_nat (data_lines (output t))))) as Hidx.
  { rewrite Hi. unfold data_lines. rewrite Nat2Z.id. apply map_ext. intro k. lia. }
  split; [exact Hidx|]. split; [exact Hc|].
  assert (Forall (fun w => 0 <= fst w < capacity) stores
          <-> Forall (fun i => 0 <= i < capacity) (map fst stores)) as ->.
  { rewrite Forall_map. reflexivity. }
  rewrite Hidx, Forall_map, Forall_forall. split.
  - intro H. destruct (Z.to_nat (data_lines (output t))) as [|n] eqn:En.
    + left. unfold data_lines in *. lia.
    + right. specialize (H n). rewrite in_seq in H. lia.
  - intros H k Hk. rewrite in_seq in Hk. unfold data_lines in *. lia.
Qed.

End Loader.

End Loader.

(** ** CoverageMapper: the usage grids and the bounding scans (lines 46-56, 196-284) *)

Module Coverage.

Definition ra_bins : Z := 24 * 8.
Definition dec_bins : Z := 18 * 8.

(** [M_PI] of math.h, 3.14159265358979311599796346854...: the binary64
    number 0x1.921fb54442d18p+1, written as a fraction. *)
Definition M_PI : double := 884279719003555 # 281474976710656.

(** An [int *] into the heap: the value found at each index, also at those
    outside the block that [malloc] returned. *)
Definition int_array : Type := Z -> Z.

(** [a[i] = v;] *)
Definition array_set (a : int_array) (i v : Z) : int_array :=
  fun j => if j =? i then v else a j.

(** [for (i = 0; i < n; i++) a[i] = 0;] *)
Definition zero_fill (a : int_array) (n : Z) : int_array :=
  fun j => if (0 <=? j) && (j <? n) then 0 else a j.

(** Line 210: the cell of [ra_usage] for a right ascension in radians. *)
Definition ra_bin_of (ra : double) : Z :=
  int_of_double (ra / (2 * M_PI) * double_of_int ra_bins)%Q.

(** Line 211: the cell of [dec_usage] for a declination in radians. *)
Definition dec_bin_of (dec : double) : Z :=
  int_of_double ((dec + M_PI / 2) / M_PI * double_of_int dec_bins)%Q.

(** Lines 203-217 for the concatenated lists [ra_list] and [dec_list]. *)
Fixpoint mark_usage (ra_list dec_list : list double) (ra_usage dec_usage : int_array)
  : int_array * int_array :=
  match ra_list, dec_list with
  | ra :: ra_rest, dec :: dec_rest =>
      mark_usage ra_rest dec_rest
        (array_set ra_usage (ra_bin_of ra) 1)
        (array_set dec_usage (dec_bin_of dec) 1)
  | _, _ => (ra_usage, dec_usage)
  end.

(** Lines 237-238: [ra_anti_centre_bin] brought into the range of the
    array. *)
Definition wrap_ra_bin (fuel : nat) (bin : Z) : outcome Z :=
  bin <- while_do fuel (fun b => b <? 0) (fun b => b + ra_bins) bin ;;
  while_do fuel (fun b => ra_bins <=? b) (fun b => b - ra_bins) bin.

(** The shape the four scans share:
    [while (!usage[bin]) { if (bin == sentinel) { autoscale = 0; break; } bin = next(bin); }]
    The result is the final [bin] with [s->ephemeris_autoscale]. *)
Fixpoint scan (fuel : nat) (usage : int_array) (sentinel : Z) (next : Z -> Z)
  (bin autoscale : Z) : outcome (Z * Z) :=
  match fuel with
  | O => OutOfFuel
  | S fuel' =>
      if usage bin =? 0 then
        if bin =? sentinel then Returns (bin, 0)
        else scan fuel' usage sentinel next (next bin) autoscale
      else Returns (bin, autoscale)
  end.

(** Lines 243-251. *)
Definition scan_ra_min (fuel : nat) (ra_usage : int_array)
  (ra_centre_bin ra_anti_centre_bin autoscale : Z) : outcome (Z * Z) :=
  scan fuel ra_usage ra_centre_bin (fun b => Z.rem (b + 1) ra_bins)
       (ra_anti_centre_bin + 1) autoscale.

(** Lines 254-262. *)
Definition scan_ra_max (fuel : nat) (ra_usage : int_array)
  (ra_centre_bin ra_anti_centre_bin autoscale : Z) : outcome (Z * Z) :=
  scan fuel ra_usage ra_centre_bin (fun b => Z.rem (b + ra_bins - 1) ra_bins)
       ra_anti_centre_bin autoscale.

(** Lines 265-273. *)
Definition scan_dec_min (fuel : nat) (dec_usage : int_array) (autoscale : Z)
  : outcome (Z * Z) :=
  scan fuel dec_usage (dec_bins - 1) (fun b => b + 1) 0 autoscale.

(** Lines 276-284. *)
Definition scan_dec_max (fuel : nat) (dec_usage : int_array) (autoscale : Z)
  : outcome (Z * Z) :=
  scan fuel dec_usage 0 (fun b => b - 1) (dec_bins - 1) autoscale.

(** The [k]-th cell a scan looks at. *)
Definition probe (next : Z -> Z) (start : Z) (k : nat) : Z := Nat.iter k next start.

(** What a scan may end with: the first probed cell that is in use, with
    the flag as it was; or the sentinel, reached over unused cells only,
    with the flag cleared. *)
Definition scan_stops (usage : int_array) (sentinel : Z) (next : Z -> Z)
  (start autoscale : Z) (result : Z * Z) : Prop :=
  exists k : nat,
    fst result = probe next start k
    /\ (forall j, (j < k)%nat ->
          usage (probe next start j) = 0 /\ probe next start j <> sentinel)
    /\ ((usage (probe next start k) <> 0 /\ snd result = autoscale)
        \/ (usage (probe next start k) = 0 /\ probe next start k = sentinel
            /\ snd result = 0)).

Lemma int_of_double_range (x : double) (n : Z) :
  (0 <= x)%Q -> (x < inject_Z n)%Q -> 0 <= int_of_double x < n.
Proof.
  destruct x as [p q]. unfold int_of_double, Qle, Qlt. cbn [Qnum Qden inject_Z].
  intros H0 Hn. rewrite Z.mul_1_r in H0, Hn. cbn in H0.
  rewrite Z.quot_div_nonneg by lia. split.
  - apply Z.div_pos; lia.
  - apply Z.div_lt_upper_bound; lia.
Qed.

Lemma fraction_of_range (a c : double) :
  (0 < c)%Q -> (0 <= a)%Q -> (a < c)%Q -> (0 <= a / c)%Q /\ (a / c < 1)%Q.
Proof.
  intros Hc H0 H1. split.
  - apply Qle_shift_div_l; [exact Hc | lra].
  - apply Qlt_shift_div_r; [exact Hc | lra].
Qed.

(** In exact arithmetic a right ascension in [0, 2 pi) falls into a cell
    of [ra_usage]. *)
Lemma ra_bin_of_in_range (ra : double) :
  (0 <= ra)%Q -> (ra < 2 * M_PI)%Q -> 0 <= ra_bin_of ra < ra_bins.
Proof.
  intros H0 H1.
  destruct (fraction_of_range ra (2 * M_PI)%Q) as [F0 F1];
    [reflexivity | exact H0 | exact H1 |].
  apply int_of_double_range; change (double_of_int ra_bins) with 192%Q;
    change (inject_Z ra_bins) with 192%Q; lra.
Qed.

(** In exact arithmetic a declination in [-pi/2, pi/2) falls into a cell
    of [dec_usage]. *)
Lemma dec_bin_of_in_range (dec : double) :
  (- (M_PI / 2) <= dec)%Q -> (dec < M_PI / 2)%Q -> 0 <= dec_bin_of dec < dec_bins.
Proof.
  intros H0 H1.
  assert (0 < M_PI)%Q as Hpos by reflexivity.
  assert (M_PI / 2 == M_PI * (1 # 2))%Q as Hhalf by reflexivity.
  destruct (fraction_of_range (dec + M_PI / 2)%Q M_PI) as [F0 F1];
    [exact Hpos | lra | lra |].
  apply int_of_double_range; change (double_of_int dec_bins) with 144%Q;
    change (inject_Z dec_bins) with 144%Q; lra.
Qed.

Lemma probe_succ_r (next : Z -> Z) (start : Z) (k : nat) :
  probe next start (S k) = probe next (next start) k.
Proof. unfold probe. apply Nat.iter_succ_r. Qed.

Lemma scan_stops_shift (usage : int_array) (sentinel : Z) (next : Z -> Z)
  (start autoscale : Z) (result : Z * Z) :
  usage start = 0 -> start <> sentinel ->
  scan_stops usage sentinel next (next start) autoscale result ->
  scan_stops usage sentinel next start autoscale result.
Proof.
  intros Hu Hs (k & Hk & Hbefore & Hend).
  exists (S k). rewrite probe_succ_r. split; [exact Hk|]. split; [|exact Hend].
  intros [|j] Hj.
  - now split.
  - rewrite probe_succ_r. apply Hbefore. lia.
Qed.

(** A scan whose probes meet the sentinel or a cell in use after [n] steps
    ends within [n + 1] turns of the loop. *)
Lemma scan_ends (usage : int_array) (sentinel : Z) (next : Z -> Z) (autoscale : Z) :
  forall (n : nat) (start : Z) (fuel : nat),
    probe next start n = sentinel \/ usage (probe next start n) <> 0 ->
    (n < fuel)%nat ->
    exists result,
      scan fuel usage sentinel next start autoscale = Returns result
      /\ scan_stops usage sentinel next start autoscale result.
Proof.
  induction n as [|n IH]; intros start fuel Hn Hfuel;
    (destruct fuel as [|fuel]; [lia|]); cbn [scan].
  - cbn in Hn.
    destruct (usage start =? 0) eqn:Eu.
    + apply Z.eqb_eq in Eu. destruct Hn as [<- | Hn]; [|contradiction].
      rewrite Z.eqb_refl. eexists; split; [reflexivity|].
      exists 0%nat. cbn. repeat split; lia.
    + eexists; split; [reflexivity|].
      exists 0%nat. cbn. apply Z.eqb_neq in Eu. repeat split; lia.
  - destruct (usage start =? 0) eqn:Eu.
    + destruct (start =? sentinel) eqn:Es.
      * eexists; split; [reflexivity|].
        exists 0%nat. cbn. apply Z.eqb_eq in Eu, Es. repeat split; lia.
      * rewrite probe_succ_r in Hn.
        destruct (IH (next start) fuel Hn ltac:(lia)) as (result & Hr & Hs).
        exists result. split; [exact Hr|].
        apply Z.eqb_eq in Eu. apply Z.eqb_neq in Es.
        now apply scan_stops_shift.
    + eexists; split; [reflexivity|].
      exists 0%nat. cbn. apply Z.eqb_neq in Eu. repeat split; lia.
Qed.

Lemma scan_reaches (usage : int_array) (sentinel : Z) (next : Z -> Z) (autoscale : Z) :
  forall (n : nat) (start : Z) (fuel : nat),
    probe next start n = sentinel -> (n < fuel)%nat ->
    exists result,
      scan fuel usage sentinel next start autoscale = Returns result
      /\ scan_stops usage sentinel next start autoscale result.
Proof. intros n start fuel Hn. apply scan_ends. now left. Qed.

Lemma probe_ra_forward (start : Z) (n : nat) :
  0 <= start ->
  probe (fun b => Z.rem (b + 1) ra_bins) start (S n)
    = (start + Z.of_nat (S n)) mod ra_bins.
Proof.
  intro H0. unfold ra_bins. induction n as [|n IH].
  - unfold probe. cbn [Nat.iter nat_rect]. rewrite Z.rem_mod_nonneg by lia. f_equal.
  - change (probe (fun b => Z.rem (b + 1) (24 * 8)) start (S (S n)))
      with (Z.rem (probe (fun b => Z.rem (b + 1) (24 * 8)) start (S n) + 1) (24 * 8)).
    rewrite IH.
    pose proof (Z.mod_pos_bound (start + Z.of_nat (S n)) (24 * 8) ltac:(lia)).
    rewrite Z.rem_mod_nonneg by lia.
    rewrite Z.add_mod_idemp_l by lia. f_equal. lia.
Qed.

Lemma probe_ra_backward (start : Z) (n : nat) :
  0 <= start ->
  probe (fun b => Z.rem (b + ra_bins - 1) ra_bins) start (S n)
    = (start - Z.of_nat (S n)) mod ra_bins.
Proof.
  intro H0. unfold ra_bins. induction n as [|n IH].
  - unfold probe. cbn [Nat.iter nat_rect]. rewrite Z.rem_mod_nonneg by lia.
    replace (start + 24 * 8 - 1) with (start - Z.of_nat 1 + 1 * (24 * 8)) by lia.
    apply Z.mod_add. lia.
  - change (probe (fun b => Z.rem (b + 24 * 8 - 1) (24 * 8)) start (S (S n)))
      with (Z.rem (probe (fun b => Z.rem (b + 24 * 8 - 1) (24 * 8)) start (S n) + 24 * 8 - 1) (24 * 8)).
    rewrite IH.
    pose proof (Z.mod_pos_bound (start - Z.of_nat (S n)) (24 * 8) ltac:(lia)).
    rewrite Z.rem_mod_nonneg by lia.
    replace ((start - Z.of_nat (S n)) mod (24 * 8) + 24 * 8 - 1)
      with ((start - Z.of_nat (S n)) mod (24 * 8) + (24 * 8 - 1)) by lia.
    rewrite Z.add_mod_idemp_l by lia.
    replace (start - Z.of_nat (S n) + (24 * 8 - 1))
      with (start - Z.of_nat (S (S n)) + 1 * (24 * 8)) by lia.
    apply Z.mod_add. lia.
Qed.

Lemma probe_dec_up (n : nat) : probe (fun b => b + 1) 0 n = Z.of_nat n.
Proof.
  induction n as [|n IH]; [reflexivity|].
  change (probe (fun b => b + 1) 0 (S n)) with (probe (fun b => b + 1) 0 n + 1).
  rewrite IH. lia.
Qed.

Lemma probe_dec_down (n : nat) :
  probe (fun b => b - 1) (dec_bins - 1) n = dec_bins - 1 - Z.of_nat n.
Proof.
  induction n as [|n IH]; [cbn; lia|].
  change (probe (fun b => b - 1) (dec_bins - 1) (S n))
    with (probe (fun b => b - 1) (dec_bins - 1) n - 1).
  rewrite IH. lia.
Qed.

(** From a start in [0, ra_bins] the forward probes meet every cell within
    [ra_bins] steps. *)
Lemma ra_forward_meets (start centre : Z) :
  0 <= start <= ra_bins -> 0 <= centre < ra_bins ->
  exists n, (n <= Z.to_nat ra_bins)%nat
            /\ probe (fun b => Z.rem (b + 1) ra_bins) start n = centre.
Proof.
  intros Hs Hc. destruct (Z.eq_dec start centre) as [->|Hne].
  - exists 0%nat. split; [lia | reflexivity].
  - pose proof (Z.mod_pos_bound (centre - start) ra_bins ltac:(unfold ra_bins; lia)) as Hm.
    assert ((start + (centre - start) mod ra_bins) mod ra_bins = centre) as Hreach.
    { rewrite Z.add_mod_idemp_r by (unfold ra_bins; lia).
      replace (start + (centre - start)) with centre by lia.
      apply Z.mod_small. exact Hc. }
    destruct (Z.eq_dec ((centre - start) mod ra_bins) 0) as [Hz|Hnz].
    + exists (S (Z.to_nat (ra_bins - 1))). split; [unfold ra_bins; lia|].
      rewrite probe_ra_forward by lia. rewrite <- Hreach, Hz.
      replace (start + Z.of_nat (S (Z.to_nat (ra_bins - 1)))) with (start + 0 + 1 * ra_bins)
        by (unfold ra_bins; lia).
      apply Z.mod_add. unfold ra_bins; lia.
    + exists (S (Z.to_nat ((centre - start) mod ra_bins - 1))). split; [lia|].
      rewrite probe_ra_forward by lia. rewrite <- Hreach at 2. f_equal. lia.
Qed.

Lemma ra_backward_meets (start centre : Z) :
  0 <= start < ra_bins -> 0 <= centre < ra_bins ->
  exists n, (n <= Z.to_nat ra_bins)%nat
            /\ probe (fun b => Z.rem (b + ra_bins - 1) ra_bins) start n = centre.
Proof.
  intros Hs Hc. destruct (Z.eq_dec start centre) as [->|Hne].
  - exists 0%nat. split; [lia | reflexivity].
  - pose proof (Z.mod_pos_bound (start - centre) ra_bins ltac:(unfold ra_bins; lia)) as Hm.
    assert ((start - centre) mod ra_bins <> 0) as Hnz.
    { intro Hz. apply Z.mod_divide in Hz; [|unfold ra_bins; lia].
      destruct Hz as [q Hq]. unfold ra_bins in *. lia. }
    exists (S (Z.to_nat ((start - centre) mod ra_bins - 1))). split; [lia|].
    rewrite probe_ra_backward by lia.
    replace (Z.of_nat (S (Z.to_nat ((start - centre) mod ra_bins - 1))))
      with ((start - centre) mod ra_bins) by lia.
    clear Hnz Hm. unfold ra_bins in *. change (24 * 8) with 192 in *.
    Z.div_mod_to_equations. lia.
Qed.

(** Where the scans over [ra_usage] can end. *)
Lemma probe_ra_forward_range (start : Z) (k : nat) :
  0 <= start <= ra_bins ->
  0 <= probe (fun b => Z.rem (b + 1) ra_bins) start k <= ra_bins.
Proof.
  intro H. destruct k as [|k]; [exact H|].
  rewrite probe_ra_forward by lia.
  pose proof (Z.mod_pos_bound (start + Z.of_nat (S k)) ra_bins ltac:(unfold ra_bins; lia)).
  lia.
Qed.

Lemma probe_ra_backward_range (start : Z) (k : nat) :
  0 <= start < ra_bins ->
  0 <= probe (fun b => Z.rem (b + ra_bins - 1) ra_bins) start k < ra_bins.
Proof.
  intro H. destruct k as [|k]; [exact H|].
  rewrite probe_ra_backward by lia.
  apply Z.mod_pos_bound. unfold ra_bins; lia.
Qed.

Lemma wrap_ra_bin_returns (bin : Z) (fuel : nat) :
  0 <= bin < 2 * ra_bins -> (2 <= fuel)%nat ->
  exists b, wrap_ra_bin fuel bin = Returns b /\ 0 <= b < ra_bins.
Proof.
  intros H Hfuel. unfold wrap_ra_bin. destruct fuel as [|[|fuel]]; try lia.
  rewrite while_do_exit by (apply Z.ltb_ge; lia). cbn [bind].
  destruct (ra_bins <=? bin) eqn:E.
  - exists (bin - ra_bins). rewrite while_do_turn by exact E.
    apply Z.leb_le in E.
    rewrite while_do_exit by (apply Z.leb_gt; lia). split; [reflexivity | lia].
  - exists bin. rewrite while_do_exit by exact E.
    apply Z.leb_gt in E. split; [reflexivity | lia].
Qed.

(** The bin opposite to a centroid in [0, 2 pi), before it is wrapped. *)
Lemma ra_anti_centre_bin_range (ra_centroid : double) :
  (0 <= ra_centroid)%Q -> (ra_centroid < 2 * M_PI)%Q ->
  0 <= ra_bin_of (ra_centroid + M_PI)%Q < 2 * ra_bins.
Proof.
  intros H0 H1. assert (0 < M_PI)%Q as Hpos by reflexivity.
  assert (0 <= (ra_centroid + M_PI) / (2 * M_PI))%Q as F0
    by (apply Qle_shift_div_l; lra).
  assert ((ra_centroid + M_PI) / (2 * M_PI) < 2)%Q as F1
    by (apply Qlt_shift_div_r; lra).
  apply int_of_double_range; change (double_of_int ra_bins) with 192%Q;
    change (inject_Z (2 * ra_bins)) with 384%Q; lra.
Qed.

Lemma ra_scans_return (ra_usage : int_array) (ra_centre_bin ra_anti_centre_bin : Z)
  (autoscale autoscale' : Z) (fuel : nat) :
  0 <= ra_centre_bin < ra_bins ->
  0 <= ra_anti_centre_bin < ra_bins ->
  (Z.to_nat ra_bins < fuel)%nat ->
  (exists b a, scan_ra_min fuel ra_usage ra_centre_bin ra_anti_centre_bin autoscale
               = Returns (b, a) /\ 0 <= b <= ra_bins)
  /\ (exists b a, scan_ra_max fuel ra_usage ra_centre_bin ra_anti_centre_bin autoscale'
                  = Returns (b, a) /\ 0 <= b < ra_bins).
Proof.
  intros Hc Ha Hfuel. split.
  - destruct (ra_forward_meets (ra_anti_centre_bin + 1) ra_centre_bin ltac:(lia) Hc)
      as (n & Hn & Hp).
    destruct (scan_reaches ra_usage _ _ autoscale n _ fuel Hp ltac:(lia))
      as ([b a] & Hr & k & Hk & _).
    exists b, a. split; [exact Hr|]. cbn [fst] in Hk. rewrite Hk.
    apply probe_ra_forward_range. lia.
  - destruct (ra_backward_meets ra_anti_centre_bin ra_centre_bin Ha Hc) as (n & Hn & Hp).
    destruct (scan_reaches ra_usage _ _ autoscale' n _ fuel Hp ltac:(lia))
      as ([b a] & Hr & k & Hk & _).
    exists b, a. split; [exact Hr|]. cbn [fst] in Hk. rewrite Hk.
    now apply probe_ra_backward_range.
Qed.

Lemma dec_scans_return (dec_usage : int_array) (autoscale autoscale' : Z) (fuel : nat) :
  (Z.to_nat dec_bins <= fuel)%nat ->
  (exists r, scan_dec_min fuel dec_usage autoscale = Returns r)
  /\ (exists r, scan_dec_max fuel dec_usage autoscale' = Returns r).
Proof.
  intro Hfuel. split.
  - destruct (scan_reaches dec_usage (dec_bins - 1) (fun b => b + 1) autoscale
                (Z.to_nat (dec_bins - 1)) 0 fuel) as (r & Hr & _).
    + rewrite probe_dec_up. unfold dec_bins. lia.
    + unfold dec_bins in *. lia.
    + now exists r.
  - destruct (scan_reaches dec_usage 0 (fun b => b - 1) autoscale'
                (Z.to_nat (dec_bins - 1)) (dec_bins - 1) fuel) as (r & Hr & _).
    + rewrite probe_dec_down. unfold dec_bins. lia.
    + unfold dec_bins in *. lia.
    + now exists r.
Qed.

(** Where the four bounding scans end: at the first probed cell in use,
    or at their sentinel, after unused cells only, with autoscale cleared.
    The two scans over [dec_usage] do so for every content of the array.
    The two scans over [ra_usage] need the bin of the centroid to be a
    cell of the array, or some cell to be in use; the bin opposite to it
    is a cell after lines 237-238. *)
Theorem bounding_scans_terminate (ra_usage dec_usage : int_array)
  (ra_centre_bin ra_anti_centre_bin autoscale : Z) (fuel : nat) :
  (0 <= ra_centre_bin < ra_bins
   \/ exists b, 0 <= b < ra_bins /\ ra_usage b <> 0) ->
  0 <= ra_anti_centre_bin < ra_bins ->
  (Z.to_nat ra_bins < fuel)%nat ->
  (exists r,
      scan_ra_min fuel ra_usage ra_centre_bin ra_anti_centre_bin autoscale = Returns r
      /\ scan_stops ra_usage ra_centre_bin (fun b => Z.rem (b + 1) ra_bins)
                    (ra_anti_centre_bin + 1) autoscale r)
  /\ (exists r,
      scan_ra_max fuel ra_usage ra_centre_bin ra_anti_centre_bin autoscale = Returns r
      /\ scan_stops ra_usage ra_centre_bin (fun b => Z.rem (b + ra_bins - 1) ra_bins)
                    ra_anti_centre_bin autoscale r)
  /\ (exists r,
      scan_dec_min fuel dec_usage autoscale = Returns r
      /\ scan_stops dec_usage (dec_bins - 1) (fun b => b + 1) 0 autoscale r)
  /\ (exists r,
      scan_dec_max fuel dec_usage autoscale = Returns r
      /\ scan_stops dec_usage 0 (fun b => b - 1) (dec_bins - 1) autoscale r).
Proof.
  intros Hc Ha Hfuel.
  assert (exists target, 0 <= target < ra_bins
                         /\ (target = ra_centre_bin \/ ra_usage target <> 0))
    as (target & Ht & Hstop).
  { destruct Hc as [Hc | (b & Hb & Hu)].
    - exists ra_centre_bin. split; [exact Hc | now left].
    - exists b. split; [exact Hb | now right]. }
  repeat split.
  - destruct (ra_forward_meets (ra_anti_centre_bin + 1) target ltac:(lia) Ht)
      as (n & Hn & Hp).
    apply (scan_ends _ _ _ _ n); [rewrite Hp; exact Hstop | lia].
  - destruct (ra_backward_meets ra_anti_centre_bin target Ha Ht) as (n & Hn & Hp).
    apply (scan_ends _ _ _ _ n); [rewrite Hp; exact Hstop | lia].
  - apply (scan_reaches _ _ _ _ (Z.to_nat (dec_bins - 1))).
    + rewrite probe_dec_up. unfold dec_bins. lia.
    + unfold dec_bins, ra_bins in *. lia.
  - apply (scan_reaches _ _ _ _ (Z.to_nat (dec_bins - 1))).
    + rewrite probe_dec_down. unfold dec_bins. lia.
    + unfold dec_bins, ra_bins in *. lia.
Qed.

(** A scan whose probes meet neither a cell in use nor the sentinel goes
    through any number of turns. *)
Lemma scan_never_ends (usage : int_array) (sentinel : Z) (next : Z -> Z) (autoscale : Z) :
  forall (fuel : nat) (start : Z),
    (forall k, usage (probe next start k) = 0 /\ probe next start k <> sentinel) ->
    scan fuel usage sentinel next start autoscale = OutOfFuel.
Proof.
  induction fuel as [|fuel IH]; intros start H; cbn [scan]; [reflexivity|].
  destruct (H 0%nat) as [Hu Hs]. unfold probe in Hu, Hs. cbn [Nat.iter nat_rect] in Hu, Hs.
  rewrite Hu. cbn [Z.eqb]. apply Z.eqb_neq in Hs. rewrite Hs.
  apply IH. intro k. rewrite <- probe_succ_r. apply H.
Qed.

Lemma probe_ra_forward_inside (start : Z) (k : nat) :
  0 <= start < ra_bins ->
  0 <= probe (fun b => Z.rem (b + 1) ra_bins) start k < ra_bins.
Proof.
  intro H. destruct k as [|k]; [exact H|].
  rewrite probe_ra_forward by lia.
  apply Z.mod_pos_bound. unfold ra_bins; lia.
Qed.

(** C5 on the code: the two scans over [ra_usage] do not end for every
    grid.  Line 225 does not bring [ra_centre_bin] into the array as lines
    237-238 do for the opposite bin, and the probes of both scans stay on
    the cells 0 to 191.  When no cell of the array is in use and the bin
    of the centroid is not one of them, neither scan meets a cell in use
    or its sentinel: each goes through any number of turns. *)
Theorem ra_scans_never_end_off_grid (ra_usage : int_array)
  (ra_centre_bin ra_anti_centre_bin autoscale : Z) (fuel : nat) :
  (forall b, 0 <= b < ra_bins -> ra_usage b = 0) ->
  ~ 0 <= ra_centre_bin < ra_bins ->
  0 <= ra_anti_centre_bin < ra_bins - 1 ->
  scan_ra_min fuel ra_usage ra_centre_bin ra_anti_centre_bin autoscale = OutOfFuel
  /\ scan_ra_max fuel ra_usage ra_centre_bin ra_anti_centre_bin autoscale = OutOfFuel.
Proof.
  intros Hempty Hcentre Hanti. split; apply scan_never_ends; intro k.
  - pose proof (probe_ra_forward_inside (ra_anti_centre_bin + 1) k ltac:(lia)) as Hin.
    split; [now apply Hempty | intro Heq; rewrite Heq in Hin; contradiction].
  - pose proof (probe_ra_backward_range ra_anti_centre_bin k ltac:(lia)) as Hin.
    split; [now apply Hempty | intro Heq; rewrite Heq in Hin; contradiction].
Qed.

End Coverage.

(** ** ViewportPlanner: bins to angles and the autoscale block (lines 286-370) *)

Module Planner.

Import Loader Coverage.

(** Modelled from the spec: the constants [SW_PROJECTION_FLAT] and
    [SW_PROJECTION_GNOM] are defined in settings/chart_config.h, which is
    not among the sources.  Section 3 of the specification names the two
    kinds, rectangular and gnomonic; [SW_PROJECTION_OTHER] stands for any
    further kind a caller may have configured. *)
Inductive projection_kind : Type :=
| SW_PROJECTION_FLAT
| SW_PROJECTION_GNOM
| SW_PROJECTION_OTHER (code : Z).

(** The fields of [chart_config] that ephemeris.c reads or writes. *)
Record chart_config : Type := {
  ephemeris_data : list ephemeris;
  ephemeris_autoscale : Z;
  ra0 : double;
  dec0 : double;
  star_flamsteed_labels : Z;
  projection : projection_kind;
  angular_width : double;
  width : double;
  font_size : double;
  mag_min : double;
  maximum_star_label_count : Z;
  dso_names : Z;
  aspect : double;
  x_min : double;
  x_max : double;
  y_min : double;
  y_max : double;
  wlin : double;
  line_width_base : double
}.

(** [s] with [s->ephemeris_data] and [s->ephemeris_autoscale] assigned. *)
Definition with_ephemeris (s : chart_config) (data : list ephemeris) (autoscale : Z)
  : chart_config :=
  {| ephemeris_data := data; ephemeris_autoscale := autoscale;
     ra0 := ra0 s; dec0 := dec0 s;
     star_flamsteed_labels := star_flamsteed_labels s;
     projection := projection s; angular_width := angular_width s;
     width := width s; font_size := font_size s; mag_min := mag_min s;
     maximum_star_label_count := maximum_star_label_count s;
     dso_names := dso_names s; aspect := aspect s;
     x_min := x_min s; x_max := x_max s; y_min := y_min s; y_max := y_max s;
     wlin := wlin s; line_width_base := line_width_base s |}.

(** [s] with the fields the autoscale block assigns. *)
Definition with_viewport (s : chart_config) (ra0 dec0 : double)
  (star_flamsteed_labels : Z) (projection : projection_kind)
  (angular_width width font_size mag_min : double)
  (maximum_star_label_count dso_names : Z) (aspect : double) : chart_config :=
  {| ephemeris_data := ephemeris_data s;
     ephemeris_autoscale := ephemeris_autoscale s;
     ra0 := ra0; dec0 := dec0;
     star_flamsteed_labels := star_flamsteed_labels;
     projection := projection; angular_width := angular_width;
     width := width; font_size := font_size; mag_min := mag_min;
     maximum_star_label_count := maximum_star_label_count;
     dso_names := dso_names; aspect := aspect;
     x_min := x_min s; x_max := x_max s; y_min := y_min s; y_max := y_max s;
     wlin := wlin s; line_width_base := line_width_base s |}.

(** Lines 289-290 and 295-296: the bounds in right ascension, in hours. *)
Definition ra_hours (fuel : nat) (ra_bin_min ra_bin_max : Z) : outcome (double * double) :=
  let ra_min := (double_of_int ra_bin_min * 24 / double_of_int ra_bins)%Q in
  let ra_max := (double_of_int (ra_bin_max + 1) * 24 / double_of_int ra_bins)%Q in
  ra_max <- while_do fuel (fun ra_max => dle ra_max ra_min)
                     (fun ra_max => (ra_max + 24)%Q) ra_max ;;
  ra_max <- while_do fuel (fun ra_max => dlt (ra_min + 24)%Q ra_max)
                     (fun ra_max => (ra_max - 24)%Q) ra_max ;;
  Returns (ra_min, ra_max).

(** Lines 291-292: the bounds in declination, in degrees. *)
Definition dec_min_of (dec_bin_min : Z) : double :=
  (double_of_int dec_bin_min * 180 / double_of_int dec_bins - 90)%Q.
Definition dec_max_of (dec_bin_max : Z) : double :=
  (double_of_int (dec_bin_max + 1) * 180 / double_of_int dec_bins - 90)%Q.

(** Lines 300-303. *)
Definition angular_width_base (ra_min ra_max dec_min dec_max : double) : double :=
  let w := (MAX ((ra_max - ra_min) * 180 / 12) (dec_max - dec_min) * 1.1)%Q in
  if dlt 350%Q w then 360%Q else w.

(** The quotient of the spans that lines 343, 346 and 361 compute. *)
Definition span_ratio (ra_min ra_max dec_min dec_max : double) : double :=
  (fabs (dec_max - dec_min) / (fabs (ra_max - ra_min) * 180 / 12))%Q.

(** Lines 319 and 323-324: the right ascension of the centre, in hours. *)
Definition centre_ra (fuel : nat) (ra_min ra_max : double) : outcome double :=
  let ra0 := ((ra_min + ra_max) / 2)%Q in
  ra0 <- while_do fuel (fun ra0 => dlt ra0 0%Q) (fun ra0 => (ra0 + 24)%Q) ra0 ;;
  while_do fuel (fun ra0 => dle 24%Q ra0) (fun ra0 => (ra0 - 24)%Q) ra0.

(** Lines 318-369: the body of [if (s->ephemeris_autoscale)]. *)
Definition autoscale_block (fuel : nat) (s : chart_config)
  (ra_min ra_max dec_min dec_max : double) : outcome chart_config :=
  let awb := angular_width_base ra_min ra_max dec_min dec_max in
  let ratio := span_ratio ra_min ra_max dec_min dec_max in
  let dec0 := ((dec_min + dec_max) / 2)%Q in
  ra0 <- centre_ra fuel ra_min ra_max ;;
  let flamsteed := if dlt 22%Q awb then 0 else star_flamsteed_labels s in
  if dlt 110%Q awb then
    let width := (width s * 1.6)%Q in
    let font_size := (font_size s * 0.95)%Q in
    let mag_min := MIN (mag_min s) 5%Q in
    let aspect := MIN 0.5%Q (ratio * 1.8)%Q in
    let '(aspect, width) :=
      if dlt 0.5%Q ratio then (1%Q, (width * 0.7)%Q) else (aspect, width) in
    let ang_height := (awb * aspect)%Q in
    let dec0 := MAX dec0 (-89 + ang_height / 2)%Q in
    let dec0 := MIN dec0 (89 - ang_height / 2)%Q in
    Returns (with_viewport s ra0 dec0 flamsteed SW_PROJECTION_FLAT awb
                           width font_size mag_min 25 0 aspect)
  else
    let aspect := (ceil (ratio * 10) / 10)%Q in
    let aspect := if dlt aspect 0.5%Q then 0.5%Q else aspect in
    let aspect := if dlt 1.5%Q aspect then 1.5%Q else aspect in
    let angular_width :=
      (MAX ((ra_max - ra_min) * 180 / 12) ((dec_max - dec_min) / aspect) * 1.1)%Q in
    let angular_width := if dlt 350%Q angular_width then 360%Q else angular_width in
    Returns (with_viewport s ra0 dec0 flamsteed SW_PROJECTION_GNOM angular_width
                           (width s) (font_size s) (mag_min s)
                           (maximum_star_label_count s) (dso_names s) aspect).

(** Lines 286-370: from the four bounding bins to the chart.  The log
    messages under [DEBUG] change nothing in [s] and are left out. *)
Definition plan_viewport (fuel : nat) (s : chart_config)
  (ra_bin_min ra_bin_max dec_bin_min dec_bin_max : Z) : outcome chart_config :=
  '(ra_min, ra_max) <- ra_hours fuel ra_bin_min ra_bin_max ;;
  let dec_min := dec_min_of dec_bin_min in
  let dec_max := dec_max_of dec_bin_max in
  if negb (ephemeris_autoscale s =? 0) then
    autoscale_block fuel s ra_min ra_max dec_min dec_max
  else Returns s.

Lemma half (x : double) : (x / 2 == x * (1 # 2))%Q.
Proof. unfold Qdiv. reflexivity. Qed.

Lemma hours_of_bin (b : Z) :
  (double_of_int b * 24 / double_of_int ra_bins == inject_Z b * (1 # 8))%Q.
Proof.
  unfold double_of_int, Qdiv. change (/ inject_Z ra_bins)%Q with (1 # 192)%Q. ring.
Qed.

Lemma inject_Z_bounds (b lo hi : Z) :
  lo <= b <= hi -> (inject_Z lo <= inject_Z b)%Q /\ (inject_Z b <= inject_Z hi)%Q.
Proof. intros [H1 H2]. split; rewrite <- Zle_Qle; assumption. Qed.

(** The loops of lines 295-296 for bins the scans can deliver: at most one
    turn, and the bounds they leave. *)
Lemma ra_hours_returns (ra_bin_min ra_bin_max : Z) (fuel : nat) :
  0 <= ra_bin_min <= ra_bins ->
  0 <= ra_bin_max < ra_bins ->
  (2 <= fuel)%nat ->
  exists ra_min ra_max,
    ra_hours fuel ra_bin_min ra_bin_max = Returns (ra_min, ra_max)
    /\ ra_min = (double_of_int ra_bin_min * 24 / double_of_int ra_bins)%Q
    /\ (0 <= ra_min)%Q /\ (ra_min <= 24)%Q
    /\ (ra_min < ra_max)%Q /\ (ra_max <= ra_min + 24)%Q.
Proof.
  intros Hmin Hmax Hfuel. unfold ra_hours.
  set (ra_min := (double_of_int ra_bin_min * 24 / double_of_int ra_bins)%Q).
  set (ra_max := (double_of_int (ra_bin_max + 1) * 24 / double_of_int ra_bins)%Q).
  assert (0 <= ra_min /\ ra_min <= 24)%Q as [Hm0 Hm1].
  { subst ra_min. rewrite hours_of_bin.
    destruct (inject_Z_bounds ra_bin_min 0 ra_bins Hmin) as [A B].
    change (inject_Z 0) with 0%Q in A. change (inject_Z ra_bins) with 192%Q in B.
    split; lra. }
  assert (0 < ra_max /\ ra_max <= 24)%Q as [HM0 HM1].
  { subst ra_max. rewrite hours_of_bin.
    destruct (inject_Z_bounds (ra_bin_max + 1) 1 ra_bins ltac:(lia)) as [A B].
    change (inject_Z 1) with 1%Q in A. change (inject_Z ra_bins) with 192%Q in B.
    split; lra. }
  destruct fuel as [|[|fuel]]; try lia.
  exists ra_min.
  destruct (dle ra_max ra_min) eqn:E.
  - exists (ra_max + 24)%Q.
    rewrite while_do_turn by exact E.
    rewrite while_do_exit by (apply dle_false; lra).
    cbn [bind]. apply dle_spec in E.
    rewrite while_do_exit by (apply dlt_false; lra).
    cbn [bind]. repeat split; try assumption; lra.
  - exists ra_max.
    rewrite while_do_exit by exact E.
    cbn [bind]. apply dle_false in E.
    rewrite while_do_exit by (apply dlt_false; lra).
    cbn [bind]. repeat split; try assumption; lra.
Qed.

(** C8: for the bins the scans deliver, the conversion to hours ends with
    [ra_max] strictly above [ra_min] and a span of at most 24 hours. *)
Theorem ra_max_exceeds_ra_min (ra_bin_min ra_bin_max : Z) (fuel : nat) :
  0 <= ra_bin_min <= ra_bins ->
  0 <= ra_bin_max < ra_bins ->
  (2 <= fuel)%nat ->
  exists ra_min ra_max,
    ra_hours fuel ra_bin_min ra_bin_max = Returns (ra_min, ra_max)
    /\ (ra_min < ra_max)%Q /\ (ra_max - ra_min <= 24)%Q.
Proof.
  intros Hmin Hmax Hfuel.
  destruct (ra_hours_returns ra_bin_min ra_bin_max fuel Hmin Hmax Hfuel)
    as (ra_min & ra_max & Hr & _ & _ & _ & Hlt & Hle).
  exists ra_min, ra_max. repeat split; [exact Hr | exact Hlt | lra].
Qed.

Lemma centre_ra_returns (ra_min ra_max : double) (fuel : nat) :
  (0 <= ra_min)%Q -> (ra_min <= 24)%Q ->
  (ra_min < ra_max)%Q -> (ra_max <= ra_min + 24)%Q ->
  (2 <= fuel)%nat ->
  exists ra0, centre_ra fuel ra_min ra_max = Returns ra0
              /\ (0 <= ra0)%Q /\ (ra0 < 24)%Q.
Proof.
  intros H0 H1 H2 H3 Hfuel. unfold centre_ra.
  pose proof (half (ra_min + ra_max)%Q) as Hh.
  set (ra0 := ((ra_min + ra_max) / 2)%Q) in *.
  destruct fuel as [|[|fuel]]; try lia.
  rewrite while_do_exit by (apply dlt_false; lra).
  cbn [bind].
  destruct (dle 24%Q ra0) eqn:E.
  - exists (ra0 - 24)%Q.
    rewrite while_do_turn by exact E. apply dle_spec in E.
    rewrite while_do_exit by (apply dle_false; lra).
    repeat split; lra.
  - exists ra0. rewrite while_do_exit by exact E. apply dle_false in E.
    repeat split; lra.
Qed.

Lemma plan_viewport_returns (fuel : nat) (s : chart_config)
  (ra_bin_min ra_bin_max dec_bin_min dec_bin_max : Z) :
  0 <= ra_bin_min <= ra_bins ->
  0 <= ra_bin_max < ra_bins ->
  (2 <= fuel)%nat ->
  exists s', plan_viewport fuel s ra_bin_min ra_bin_max dec_bin_min dec_bin_max
             = Returns s'.
Proof.
  intros Hmin Hmax Hfuel.
  destruct (ra_hours_returns ra_bin_min ra_bin_max fuel Hmin Hmax Hfuel)
    as (ra_min & ra_max & Hr & _ & H0 & H1 & H2 & H3).
  destruct (centre_ra_returns ra_min ra_max fuel H0 H1 H2 H3 Hfuel) as (c & Hc & _).
  unfold plan_viewport. rewrite Hr. cbn [bind].
  destruct (negb (ephemeris_autoscale s =? 0)); [|now exists s].
  unfold autoscale_block. rewrite Hc. cbn [bind].
  destruct (dlt 110%Q _); [destruct (dlt 0.5%Q _)|]; eexists; reflexivity.
Qed.

(** C7 on the code: the two clamps of lines 353-354 keep the centre
    declination of a rectangular chart between -89 + h/2 and 89 - h/2,
    with h = angular_width * aspect, as long as h is at most 178.  The
    block can leave a larger h (an aspect of 1 on a chart of up to 360
    degrees): then no declination lies between the two bounds, the second
    clamp wins, the centre ends at 89 - h/2, below -89 + h/2, and the
    lower edge of the plot, at 89 - h, lies below -89. *)
Theorem rectangular_dec0_leaves_range (fuel : nat) (s s' : chart_config)
  (ra_bin_min ra_bin_max dec_bin_min dec_bin_max : Z) :
  plan_viewport fuel s ra_bin_min ra_bin_max dec_bin_min dec_bin_max = Returns s' ->
  ephemeris_autoscale s <> 0 ->
  projection s' = SW_PROJECTION_FLAT ->
  let h := (angular_width s' * aspect s')%Q in
  ((h <= 178)%Q -> (-89 + h / 2 <= dec0 s')%Q /\ (dec0 s' <= 89 - h / 2)%Q)
  /\ ((178 < h)%Q ->
      (dec0 s' == 89 - h / 2)%Q /\ (dec0 s' < -89 + h / 2)%Q
      /\ (dec0 s' - h / 2 == 89 - h)%Q /\ (dec0 s' - h / 2 < -89)%Q).
Proof.
  intros Hplan Hauto Hflat.
  assert (exists d, dec0 s' = MIN (MAX d (-89 + angular_width s' * aspect s' / 2)%Q)
                                  (89 - angular_width s' * aspect s' / 2)%Q) as [d Hd].
  { unfold plan_viewport in Hplan.
    destruct (ra_hours fuel ra_bin_min ra_bin_max) as [[ra_min ra_max]| |];
      cbn [bind] in Hplan; try discriminate.
    apply Z.eqb_neq in Hauto. rewrite Hauto in Hplan. cbn [negb] in Hplan.
    unfold autoscale_block in Hplan.
    destruct (centre_ra fuel ra_min ra_max) as [ra0| |]; cbn [bind] in Hplan;
      try discriminate.
    destruct (dlt 110%Q _).
    - destruct (dlt 0.5%Q _); inversion Hplan; subst s';
        cbn [dec0 angular_width aspect with_viewport]; eexists; reflexivity.
    - inversion Hplan; subst s'. discriminate Hflat. }
  intro h. subst h. rewrite Hd.
  set (h := (angular_width s' * aspect s')%Q).
  pose proof (half h) as Hh.
  pose proof (MAX_ge_r d (-89 + h / 2)%Q) as Hlow.
  destruct (MIN_cases (MAX d (-89 + h / 2)%Q) (89 - h / 2)%Q) as [[-> Hlt] | [-> Hle]].
  - split; [intros; split; lra | intros; exfalso; lra].
  - split; [intros; split; lra | intros; repeat split; lra].
Qed.

End Planner.

(** ** [ephemerides_fetch] as a whole (lines 42-377) *)

Module Fetch.

Import Loader Coverage Planner.

Section Fetch.

Variable get_float : string -> double.
Variable next_word : string -> string.
Variable inv_julian_day : double -> Z * Z * Z.
Variable get_month_name : Z -> string.

(** Declared in mathsTools/sphericalTrig.h: the right ascension and the
    declination of the mean position of the listed points, in radians. *)
Variable find_mean_position : list double -> list double -> double * double.

(** [ra_heap] and [dec_heap] are the heap as the two [malloc]s of lines
    51-52 find it.  [s] is the chart the caller configured and [traces]
    stands for [s->ephemeris_definitions] with the answers of the
    generator. *)
Definition ephemerides_fetch (fuel : nat) (ra_heap dec_heap : int_array)
  (s : chart_config) (traces : list trace) : outcome chart_config :=
  let ra_usage := zero_fill ra_heap ra_bins in
  let dec_usage := zero_fill dec_heap dec_bins in
  '(data, total_ephemeris_points) <-
     fetch_tracks get_float next_word inv_julian_day get_month_name traces ;;
  let ra_list := flat_map (fun e => map ra (Loader.data e)) data in
  let dec_list := flat_map (fun e => map dec (Loader.data e)) data in
  let '(ra_usage, dec_usage) := mark_usage ra_list dec_list ra_usage dec_usage in
  let '(ra_centroid, dec_centroid) := find_mean_position ra_list dec_list in
  let ra_centre_bin := ra_bin_of ra_centroid in
  let ra_anti_centre := (ra_centroid + M_PI)%Q in
  ra_anti_centre_bin <- wrap_ra_bin fuel (ra_bin_of ra_anti_centre) ;;
  '(ra_bin_min, autoscale) <-
     scan_ra_min fuel ra_usage ra_centre_bin ra_anti_centre_bin (ephemeris_autoscale s) ;;
  '(ra_bin_max, autoscale) <-
     scan_ra_max fuel ra_usage ra_centre_bin ra_anti_centre_bin autoscale ;;
  '(dec_bin_min, autoscale) <- scan_dec_min fuel dec_usage autoscale ;;
  '(dec_bin_max, autoscale) <- scan_dec_max fuel dec_usage autoscale ;;
  plan_viewport fuel (with_ephemeris s data autoscale)
                ra_bin_min ra_bin_max dec_bin_min dec_bin_max.

(** The diagnostic of line 185. *)
Definition no_data_diagnostic : string :=
  "ephemeris-compute-de430 returned no data"%string.

Lemma fetch_track_cases (t : trace) :
  (data_lines (output t) = 0
   /\ fetch_track get_float next_word inv_julian_day get_month_name t
      = Exits no_data_diagnostic)
  \/ (0 < data_lines (output t)
      /\ exists e, fetch_track get_float next_word inv_julian_day get_month_name t
                   = Returns e
                   /\ point_count e = data_lines (output t)
                   /\ Z.of_nat (List.length (Loader.data e)) = data_lines (output t)).
Proof.
  unfold fetch_track.
  pose proof (read_output_indices get_float next_word inv_julian_day get_month_name
                (output t) reader_init) as [_ Hc].
  pose proof (read_output_length get_float next_word inv_julian_day get_month_name
                (output t) reader_init) as Hl.
  destruct (read_output _ _ _ _ reader_init (output t)) as [stores r].
  cbn [fst snd reader_init line_counter] in Hc, Hl. rewrite Z.add_0_l in Hc.
  destruct (line_counter r =? 0) eqn:E.
  - left. apply Z.eqb_eq in E. split; [congruence | reflexivity].
  - right. apply Z.eqb_neq in E. split.
    + unfold data_lines in *. lia.
    + eexists. split; [reflexivity|]. cbn [point_count Loader.data].
      rewrite length_map. split; [exact Hc | exact Hl].
Qed.

Lemma fetch_tracks_exits (traces : list trace) :
  Exists (fun t => data_lines (output t) = 0) traces ->
  fetch_tracks get_float next_word inv_julian_day get_month_name traces
  = Exits no_data_diagnostic.
Proof.
  induction traces as [|t rest IH]; intro H; [inversion H|].
  cbn [fetch_tracks].
  destruct (fetch_track_cases t) as [[_ ->] | [Hpos (e & -> & _)]]; [reflexivity|].
  cbn [bind]. rewrite IH; [reflexivity|].
  inversion H; subst; [lia | assumption].
Qed.

Lemma fetch_tracks_returns (traces : list trace) :
  Forall (fun t => 0 < data_lines (output t)) traces ->
  exists data total,
    fetch_tracks get_float next_word inv_julian_day get_month_name traces
    = Returns (data, total)
    /\ map point_count data = map (fun t => data_lines (output t)) traces.
Proof.
  induction traces as [|t rest IH]; intro H.
  - exists [], 0. split; reflexivity.
  - inversion H as [|? ? Ht Hrest]; subst.
    destruct (IH Hrest) as (data & total & Hr & Hm).
    cbn [fetch_tracks].
    destruct (fetch_track_cases t) as [[Hz _] | [_ (e & -> & Hp & _)]]; [lia|].
    cbn [bind]. rewrite Hr. cbn [bind].
    eexists; eexists; split; [reflexivity|]. cbn [map]. now rewrite Hp, Hm.
Qed.

Lemma while_do_no_exit {S : Type} (cond : S -> bool) (body : S -> S) :
  forall (fuel : nat) (s : S) (d : string), while_do fuel cond body s <> Exits d.
Proof.
  induction fuel as [|fuel IH]; intros s d; cbn [while_do]; [discriminate|].
  destruct (cond s); [apply IH | discriminate].
Qed.

Lemma scan_no_exit (usage : int_array) (sentinel : Z) (next : Z -> Z) (autoscale : Z) :
  forall (fuel : nat) (bin : Z) (d : string),
    scan fuel usage sentinel next bin autoscale <> Exits d.
Proof.
  induction fuel as [|fuel IH]; intros bin d; cbn [scan]; [discriminate|].
  destruct (usage bin =? 0); [|discriminate].
  destruct (bin =? sentinel); [discriminate | apply IH].
Qed.

Lemma bind_no_exit {A B : Type} (m : outcome A) (k : A -> outcome B) :
  (forall d, m <> Exits d) -> (forall a d, k a <> Exits d) ->
  forall d, bind m k <> Exits d.
Proof.
  intros Hm Hk d. destruct m as [a| d' |]; cbn [bind].
  - apply Hk.
  - exfalso. now apply (Hm d').
  - discriminate.
Qed.

Lemma plan_viewport_no_exit (fuel : nat) (s : chart_config) (a b c e : Z) (d : string) :
  plan_viewport fuel s a b c e <> Exits d.
Proof.
  unfold plan_viewport. revert d. apply bind_no_exit.
  - intro d. unfold ra_hours.
    apply bind_no_exit; [intro; apply while_do_no_exit|]. intros x d'.
    apply bind_no_exit; [intro; apply while_do_no_exit|]. intros; discriminate.
  - intros [ra_min ra_max] d.
    destruct (negb (ephemeris_autoscale s =? 0)); [|discriminate].
    unfold autoscale_block. apply bind_no_exit.
    + intro d'. unfold centre_ra.
      apply bind_no_exit; [intro; apply while_do_no_exit | intros; apply while_do_no_exit].
    + intros ra0 d'. destruct (dlt 110%Q _); [|discriminate].
      destruct (dlt 0.5%Q _); discriminate.
Qed.

(** C4: when the generator delivers no data line for one of the objects,
    the run ends in [stch_fatal] and [exit(1)] with a diagnostic that names
    the generator, and no chart is returned; when every object has a data
    line, the loader keeps every track with its count of data lines and
    the run does not exit. *)
Theorem no_data_is_fatal (fuel : nat) (ra_heap dec_heap : int_array)
  (s : chart_config) (traces : list trace) :
  (Exists (fun t => data_lines (output t) = 0) traces ->
   ephemerides_fetch fuel ra_heap dec_heap s traces
   = Exits "ephemeris-compute-de430 returned no data"%string)
  /\ (Forall (fun t => 0 < data_lines (output t)) traces ->
      (forall d, ephemerides_fetch fuel ra_heap dec_heap s traces <> Exits d)
      /\ exists data total,
           fetch_tracks get_float next_word inv_julian_day get_month_name traces
           = Returns (data, total)
           /\ map point_count data = map (fun t => data_lines (output t)) traces).
Proof.
  split.
  - intro H. unfold ephemerides_fetch.
    rewrite (fetch_tracks_exits traces H). reflexivity.
  - intro H. split; [|now apply fetch_tracks_returns].
    destruct (fetch_tracks_returns traces H) as (data & total & Hr & _).
    unfold ephemerides_fetch. rewrite Hr. cbn [bind].
    destruct (mark_usage _ _ _ _) as [ra_usage dec_usage].
    destruct (find_mean_position _ _) as [ra_centroid dec_centroid].
    apply bind_no_exit.
    { intro d. unfold wrap_ra_bin.
      apply bind_no_exit; [intro; apply while_do_no_exit | intros; apply while_do_no_exit]. }
    intros anti d.
    apply bind_no_exit; [intro; apply scan_no_exit|]. intros [b1 a1] d1.
    apply bind_no_exit; [intro; apply scan_no_exit|]. intros [b2 a2] d2.
    apply bind_no_exit; [intro; apply scan_no_exit|]. intros [b3 a3] d3.
    apply bind_no_exit; [intro; apply scan_no_exit|]. intros [b4 a4] d4.
    apply plan_viewport_no_exit.
Qed.

Lemma plan_viewport_frame (fuel : nat) (s s' : chart_config) (a b c e : Z) :
  plan_viewport fuel s a b c e = Returns s' ->
  ephemeris_autoscale s' = ephemeris_autoscale s
  /\ (ephemeris_autoscale s = 0 -> s' = s).
Proof.
  unfold plan_viewport.
  destruct (ra_hours fuel a b) as [[ra_min ra_max]| |]; cbn [bind]; try discriminate.
  destruct (ephemeris_autoscale s =? 0) eqn:E; cbn [negb].
  - intro H. inversion H; subst. split; [reflexivity | reflexivity].
  - apply Z.eqb_neq in E. unfold autoscale_block.
    destruct (centre_ra fuel ra_min ra_max) as [ra0| |]; cbn [bind]; try discriminate.
    destruct (dlt 110%Q _); [destruct (dlt 0.5%Q _)|];
      intro H; inversion H; subst; cbn [ephemeris_autoscale with_viewport];
      (split; [reflexivity | intro C; contradiction]).
Qed.

(** C9: when [ephemerides_fetch] returns with autoscale off, whether the
    caller had it off or a scan cleared it, the fields of the viewport and
    of the style are those of the caller. *)
Theorem disabled_autoscale_keeps_viewport (fuel : nat) (ra_heap dec_heap : int_array)
  (s s' : chart_config) (traces : list trace) :
  ephemerides_fetch fuel ra_heap dec_heap s traces = Returns s' ->
  ephemeris_autoscale s' = 0 ->
  ra0 s' = ra0 s /\ dec0 s' = dec0 s /\ projection s' = projection s
  /\ angular_width s' = angular_width s /\ aspect s' = aspect s
  /\ width s' = width s /\ font_size s' = font_size s /\ mag_min s' = mag_min s
  /\ maximum_star_label_count s' = maximum_star_label_count s
  /\ dso_names s' = dso_names s
  /\ star_flamsteed_labels s' = star_flamsteed_labels s.
Proof.
  unfold ephemerides_fetch.
  destruct (fetch_tracks _ _ _ _ traces) as [[data total]| |]; cbn [bind]; try discriminate.
  destruct (mark_usage _ _ _ _) as [ra_usage dec_usage].
  destruct (find_mean_position _ _) as [ra_centroid dec_centroid].
  destruct (wrap_ra_bin fuel _) as [anti| |]; cbn [bind]; try discriminate.
  destruct (scan_ra_min fuel _ _ _ _) as [[b1 a1]| |]; cbn [bind]; try discriminate.
  destruct (scan_ra_max fuel _ _ _ _) as [[b2 a2]| |]; cbn [bind]; try discriminate.
  destruct (scan_dec_min fuel _ _) as [[b3 a3]| |]; cbn [bind]; try discriminate.
  destruct (scan_dec_max fuel _ _) as [[b4 a4]| |]; cbn [bind]; try discriminate.
  intros Hplan Hoff.
  apply plan_viewport_frame in Hplan. destruct Hplan as [Hsame Hkeep].
  rewrite Hsame in Hoff. rewrite (Hkeep Hoff).
  cbn [with_ephemeris ra0 dec0 projection angular_width aspect width font_size
       mag_min maximum_star_label_count dso_names star_flamsteed_labels].
  repeat split.
Qed.

(** [ephemerides_fetch] returns when every object has data and the mean
    position has its right ascension in [0, 2 pi): 193 turns are enough
    for each of its loops. *)
Lemma ephemerides_fetch_returns (fuel : nat) (ra_heap dec_heap : int_array)
  (s : chart_config) (traces : list trace) :
  Forall (fun t => 0 < data_lines (output t)) traces ->
  (forall ras decs, (0 <= fst (find_mean_position ras decs))%Q
                    /\ (fst (find_mean_position ras decs) < 2 * M_PI)%Q) ->
  (Z.to_nat ra_bins < fuel)%nat ->
  exists s', ephemerides_fetch fuel ra_heap dec_heap s traces = Returns s'.
Proof.
  intros Hdata Hmean Hfuel.
  assert (2 <= fuel)%nat as Hfuel2 by (unfold ra_bins in Hfuel; lia).
  destruct (fetch_tracks_returns traces Hdata) as (data & total & Hr & _).
  unfold ephemerides_fetch. rewrite Hr. cbn [bind].
  destruct (mark_usage _ _ _ _) as [ra_usage dec_usage].
  match goal with
  | |- context [find_mean_position ?ras ?decs] =>
      destruct (Hmean ras decs) as [Hc0 Hc1];
      destruct (find_mean_position ras decs) as [ra_centroid dec_centroid]
  end.
  cbn [fst] in Hc0, Hc1.
  pose proof (ra_bin_of_in_range ra_centroid Hc0 Hc1) as Hcentre.
  destruct (wrap_ra_bin_returns _ fuel (ra_anti_centre_bin_range ra_centroid Hc0 Hc1) Hfuel2)
    as (anti & -> & Hanti).
  cbn [bind].
  destruct (ra_scans_return ra_usage (ra_bin_of ra_centroid) anti
              (ephemeris_autoscale s) 0 fuel Hcentre Hanti Hfuel)
    as [(b1 & a1 & -> & Hb1) _].
  cbn [bind].
  destruct (ra_scans_return ra_usage (ra_bin_of ra_centroid) anti
              0 a1 fuel Hcentre Hanti Hfuel)
    as [_ (b2 & a2 & -> & Hb2)].
  cbn [bind].
  destruct (dec_scans_return dec_usage a2 0 fuel ltac:(unfold dec_bins, ra_bins in *; lia))
    as [([b3 a3] & ->) _].
  cbn [bind].
  destruct (dec_scans_return dec_usage 0 a3 fuel ltac:(unfold dec_bins, ra_bins in *; lia))
    as [_ ([b4 a4] & ->)].
  cbn [bind].
  now apply plan_viewport_returns.
Qed.

End Fetch.

End Fetch.

(** ** TrackRenderer: [plot_ephemeris] (lines 397-552) *)

Module Renderer.

Import Loader.

(** An entry of [page->exclusion_regions]. *)
Record exclusion_region : Type := {
  x_min : double;
  x_max : double;
  y_min : double;
  y_max : double
}.

(** [label_position]: the anchor, the rotation and the two alignments. *)
Record label_position : Type := {
  x : double;
  y : double;
  rotation : double;
  h_align : Z;
  v_align : Z
}.

(** What one call of [chart_label_buffer] hands to the page: the text, the
    possible positions, the font size, the extra margin and the priority. *)
Record buffered_label : Type := {
  label : string;
  possible_positions : list label_position;
  font_size : double;
  extra_margin : double;
  priority : double
}.

(** [cairo_page]: the exclusion regions in the order of their indices
    ([exclusion_region_counter] is the length of the list) and the labels
    buffered so far. *)
Record cairo_page : Type := {
  exclusion_regions : list exclusion_region;
  labels : list buffered_label
}.

(** The calls on the line drawer, in program order.  The calls that set
    the colour and the line width of the cairo context are left out. *)
Inductive draw_call : Type :=
| ld_pen_up
| ld_label
| ld_point (x y : double).

(** The variables both loops share. *)
Record tick_state : Type := {
  last_x : double;
  last_y : double;
  initial_theta : double
}.

(** The test of lines 413 and 464. *)
Definition off_canvas (s : Planner.chart_config) (x y : double) : bool :=
  dlt x (Planner.x_min s) || dlt (Planner.x_max s) x
  || dlt y (Planner.y_min s) || dlt (Planner.y_max s) y.

(** The square of half-side [margin] around the point. *)
Definition region_around (x y margin : double) : exclusion_region :=
  {| x_min := (x - margin)%Q; x_max := (x + margin)%Q;
     y_min := (y - margin)%Q; y_max := (y + margin)%Q |}.

(** Line 432 and line 434. *)
Definition graph_coords_tick_len (s : Planner.chart_config) (pt : ephemeris_point) : double :=
  let physical_tick_len := if negb (sub_month_label pt =? 0) then 0.12%Q else 0.2%Q in
  (physical_tick_len * Planner.wlin s / Planner.width s)%Q.

(** Lines 483-510: the alignments for a direction in degrees. *)
Definition alignment (theta_deg : double) : Z * Z :=
  if dlt theta_deg (-135 - 22.5)%Q then (0, -1)
  else if dlt theta_deg (-90 - 22.5)%Q then (1, -1)
  else if dlt theta_deg (-45 - 22.5)%Q then (1, 0)
  else if dlt theta_deg (-22.5)%Q then (1, 1)
  else if dlt theta_deg 22.5%Q then (0, 1)
  else if dlt theta_deg (45 + 22.5)%Q then (-1, 1)
  else if dlt theta_deg (90 + 22.5)%Q then (-1, 0)
  else if dlt theta_deg (135 + 22.5)%Q then (-1, -1)
  else (0, -1).

Section Renderer.

(** [plane_project] of mathsTools/projection.h, with its last argument 0,
    and the functions of libm and GSL the renderer calls. *)
Variable plane_project : Planner.chart_config -> double -> double -> double * double.
Variable atan2 : double -> double -> double.
Variable sin : double -> double.
Variable cos : double -> double.
Variable gsl_finite : double -> bool.

(** Lines 408-422: the line through the points on the canvas. *)
Fixpoint trace_line (s : Planner.chart_config) (pts : list ephemeris_point) (i : Z)
  (st : tick_state) (ld : list draw_call) : tick_state * list draw_call :=
  match pts with
  | [] => (st, ld)
  | pt :: rest =>
      let '(x, y) := plane_project s (ra pt) (dec pt) in
      if off_canvas s x y then trace_line s rest (i + 1) st ld
      else
        let ld := (ld ++ [ld_point x y])%list in
        let theta :=
          if i =? 2 then atan2 (y - last_y st)%Q (x - last_x st)%Q
          else initial_theta st in
        trace_line s rest (i + 1)
                   {| last_x := x; last_y := y; initial_theta := theta |} ld
  end.

(** Lines 459-550: the tick and the label of a point that has a text. *)
Definition draw_tick (s : Planner.chart_config) (pt : ephemeris_point) (text : string)
  (i : Z) (x y theta : double) (ld : list draw_call) (page : cairo_page)
  : list draw_call * cairo_page :=
  let tick := graph_coords_tick_len s pt in
  let theta_deg := (theta * 180 / Coverage.M_PI)%Q in
  if off_canvas s x y then (ld, page)
  else
    let regions := (exclusion_regions page ++ [region_around x y (tick * 0.4)%Q])%list in
    let ld := (ld ++ [ld_pen_up; ld_label;
                      ld_point (x + tick * sin theta)%Q (y - tick * cos theta)%Q;
                      ld_point (x - tick * sin theta)%Q (y + tick * cos theta)%Q;
                      ld_pen_up])%list in
    let '(h, v) := alignment theta_deg in
    let label_gap_1 := 1.5%Q in
    let xp_a := (x + label_gap_1 * tick * sin theta)%Q in
    let yp_a := (y - label_gap_1 * tick * cos theta)%Q in
    let xp_b := (x - label_gap_1 * tick * sin theta)%Q in
    let yp_b := (y + label_gap_1 * tick * cos theta)%Q in
    let label_gap_2 := 1.85%Q in
    let xp_c := (x + label_gap_2 * tick * sin theta)%Q in
    let yp_c := (y - label_gap_2 * tick * cos theta)%Q in
    let xp_d := (x - label_gap_2 * tick * sin theta)%Q in
    let yp_d := (y + label_gap_2 * tick * cos theta)%Q in
    let priority := Priority.priority i (sub_month_label pt) (day pt) (month pt) in
    let font_size := if negb (sub_month_label pt =? 0) then 1.3%Q else 1.7%Q in
    let extra_margin := if negb (sub_month_label pt =? 0) then 2%Q else 0%Q in
    (ld,
     {| exclusion_regions := regions;
        labels := (labels page ++
          [{| label := text;
              possible_positions :=
                [{| x := xp_a; y := yp_a; rotation := 0%Q; h_align := h; v_align := v |};
                 {| x := xp_b; y := yp_b; rotation := 0%Q; h_align := - h; v_align := - v |};
                 {| x := xp_c; y := yp_c; rotation := 0%Q; h_align := h; v_align := v |};
                 {| x := xp_d; y := yp_d; rotation := 0%Q; h_align := - h; v_align := - v |}];
              font_size := font_size; extra_margin := extra_margin;
              priority := priority |}])%list |}).

(** Lines 428-551: the loop over the points for the tick marks. *)
Fixpoint draw_ticks (s : Planner.chart_config) (pts : list ephemeris_point) (i : Z)
  (st : tick_state) (ld : list draw_call) (page : cairo_page)
  : tick_state * list draw_call * cairo_page :=
  match pts with
  | [] => (st, ld, page)
  | pt :: rest =>
      let tick := graph_coords_tick_len s pt in
      let '(x, y) := plane_project s (ra pt) (dec pt) in
      let theta :=
        if i <? 2 then initial_theta st
        else atan2 (y - last_y st)%Q (x - last_x st)%Q in
      let theta := if negb (gsl_finite theta) then 0%Q else theta in
      let st := {| last_x := x; last_y := y; initial_theta := initial_theta st |} in
      let page :=
        {| exclusion_regions :=
             (exclusion_regions page ++ [region_around x y (tick * 0.1)%Q])%list;
           labels := labels page |} in
      let '(ld, page) :=
        match text_label pt with
        | Some text => draw_tick s pt text i x y theta ld page
        | None => (ld, page)
        end in
      draw_ticks s rest (i + 1) st ld page
  end.

(** [plot_ephemeris] for the track [e = &s->ephemeris_data[trace_num]]. *)
Definition plot_ephemeris (s : Planner.chart_config) (ld : list draw_call)
  (page : cairo_page) (e : ephemeris) : list draw_call * cairo_page :=
  let ld := (ld ++ [ld_pen_up; ld_label])%list in
  let st := {| last_x := 0%Q; last_y := 0%Q; initial_theta := 0%Q |} in
  let '(st, ld) := trace_line s (data e) 0 st ld in
  let ld := (ld ++ [ld_pen_up])%list in
  let '(_, ld, page) := draw_ticks s (data e) 0 st ld page in
  (ld, page).

(** The regions one point adds to the page: the small square around it,
    and the larger one when it has a text and lies on the canvas. *)
Definition regions_of_point (s : Planner.chart_config) (pt : ephemeris_point)
  : list exclusion_region :=
  let tick := graph_coords_tick_len s pt in
  let '(x, y) := plane_project s (ra pt) (dec pt) in
  region_around x y (tick * 0.1)%Q
  :: match text_label pt with
     | Some _ => if off_canvas s x y then [] else [region_around x y (tick * 0.4)%Q]
     | None => []
     end.

Lemma draw_ticks_regions (s : Planner.chart_config) (pts : list ephemeris_point) :
  forall (i : Z) (st : tick_state) (ld : list draw_call) (page : cairo_page),
    exclusion_regions (snd (draw_ticks s pts i st ld page))
    = (exclusion_regions page ++ flat_map (regions_of_point s) pts)%list.
Proof.
  induction pts as [|pt rest IH]; intros i st ld page; cbn [draw_ticks flat_map].
  - cbn [snd]. now rewrite app_nil_r.
  - unfold regions_of_point at 1.
    destruct (plane_project s (ra pt) (dec pt)) as [px py].
    destruct (text_label pt) as [text|].
    + unfold draw_tick. cbn [exclusion_regions labels].
      destruct (off_canvas s px py).
      * rewrite IH. cbn [exclusion_regions]. now rewrite <- app_assoc.
      * destruct (alignment _) as [h v]. rewrite IH. cbn [exclusion_regions].
        now rewrite <- !app_assoc.
    + rewrite IH. cbn [exclusion_regions]. now rewrite <- app_assoc.
Qed.

(** C6, as the code has it: every point of the track adds its small
    square, of half-side a tenth of the tick length around its projection,
    whether the projection lies on the canvas or not; the view only decides
    on the larger square of a point that has a text. *)
Theorem small_region_for_every_point (s : Planner.chart_config)
  (ld : list draw_call) (page : cairo_page) (e : ephemeris) :
  exclusion_regions (snd (plot_ephemeris s ld page e))
  = (exclusion_regions page ++ flat_map (regions_of_point s) (data e))%list
  /\ forall pt, In pt (data e) ->
       In (region_around (fst (plane_project s (ra pt) (dec pt)))
                         (snd (plane_project s (ra pt) (dec pt)))
                         (graph_coords_tick_len s pt * 0.1)%Q)
          (exclusion_regions (snd (plot_ephemeris s ld page e))).
Proof.
  assert (exclusion_regions (snd (plot_ephemeris s ld page e))
          = (exclusion_regions page ++ flat_map (regions_of_point s) (data e))%list) as H.
  { unfold plot_ephemeris.
    destruct (trace_line s (data e) 0 _ _) as [st ld'].
    pose proof (draw_ticks_regions s (data e) 0 st (ld' ++ [ld_pen_up])%list page) as R.
    destruct (draw_ticks s (data e) 0 st _ page) as [[st' ld''] page'].
    exact R. }
  split; [exact H|].
  intros pt Hin. rewrite H. apply in_or_app. right.
  apply in_flat_map. exists pt. split; [exact Hin|].
  unfold regions_of_point.
  destruct (plane_project s (ra pt) (dec pt)) as [px py]. now left.
Qed.

End Renderer.

End Renderer.

(** ** Stand-ins for the collaborators, and sample runs *)

Module Sample.

Import Loader Coverage Planner.

Definition is_digit (c : ascii) : bool := (48 <=? code c) && (code c <=? 57).

Fixpoint read_digits (s : string) (acc : Z) : Z * string :=
  match s with
  | String c t => if is_digit c then read_digits t (10 * acc + (code c - 48)) else (acc, s)
  | EmptyString => (acc, s)
  end.

Fixpoint read_fraction (s : string) (num : Z) (den : positive) : Z * positive :=
  match s with
  | String c t =>
      if is_digit c then read_fraction t (10 * num + (code c - 48)) (10 * den)%positive
      else (num, den)
  | EmptyString => (num, den)
  end.

Definition read_unsigned (s : string) : double :=
  let (whole, rest) := read_digits s 0 in
  match rest with
  | String "."%char t =>
      let (num, den) := read_fraction t 0 1%positive in
      (inject_Z whole + (num # den))%Q
  | _ => inject_Z whole
  end.

(** Modelled from the spec: [get_float] belongs to the tokenizing
    utilities, which section 1 keeps outside; section 6 has the fields of a
    record as decimal numbers.  This one reads an optional minus sign,
    digits, and digits after a point. *)
Definition get_float (s : string) : double :=
  match s with
  | String "-"%char t => (- read_unsigned t)%Q
  | _ => read_unsigned s
  end.

Fixpoint skip_word (s : string) : string :=
  match s with
  | String c t => if code c <=? 32 then s else skip_word t
  | EmptyString => s
  end.

(** Modelled from the spec: [next_word] belongs to the same utilities; the
    fields of a record are separated by white space (section 6). *)
Definition next_word (s : string) : string := skip_blanks (skip_word s).

(** Modelled from the spec: [inv_julian_day] is the conversion of a Julian
    day to a calendar date of section 4.1; here the Gregorian calendar,
    by the integer formula of Fliegel and Van Flandern. *)
Definition inv_julian_day (jd : double) : Z * Z * Z :=
  let l := Qfloor (jd + (1 # 2))%Q + 68569 in
  let n := 4 * l / 146097 in
  let l := l - (146097 * n + 3) / 4 in
  let i := 4000 * (l + 1) / 1461001 in
  let l := l - 1461 * i / 4 + 31 in
  let j := 80 * l / 2447 in
  let d := l - 2447 * j / 80 in
  let l := j / 11 in
  let m := j + 2 - 12 * l in
  let y := 100 * (n - 49) + i + l in
  (y, m, d).

(** Modelled from the spec: [get_month_name] gives the names whose first
    three letters are the abbreviations of section 4.1. *)
Definition get_month_name (m : Z) : string :=
  nth (Z.to_nat (m - 1))
      ["January"; "February"; "March"; "April"; "May"; "June"; "July";
       "August"; "September"; "October"; "November"; "December"]%string
      "???"%string.

Fixpoint sum (l : list double) : double :=
  match l with
  | [] => 0%Q
  | v :: rest => (v + sum rest)%Q
  end.

(** Modelled from the spec: [find_mean_position] is the centroid routine
    of section 4.2, a spherical mean.  For the sample runs, whose points
    lie within a few degrees of each other, the mean of the coordinates
    stands in for it. *)
Definition find_mean_position (ra_list dec_list : list double) : double * double :=
  match ra_list with
  | [] => (0%Q, 0%Q)
  | _ => let n := inject_Z (Z.of_nat (List.length ra_list)) in
         (Qred (sum ra_list / n), Qred (sum dec_list / n))
  end.

(** Modelled from the spec: [plane_project] is the projection function of
    section 4.4; here a chart on which the canvas coordinates are the
    right ascension and the declination themselves. *)
Definition plane_project (s : chart_config) (ra dec : double) : double * double :=
  (ra, dec).

(** Modelled from the spec: the direction of the track (section 4.4) does
    not enter the exclusion regions; the sample runs take it as 0. *)
Definition atan2 (y x : double) : double := 0%Q.
Definition sin (theta : double) : double := 0%Q.
Definition cos (theta : double) : double := 1%Q.
Definition gsl_finite (theta : double) : bool := true.

(** A caller's chart: autoscale on, a gnomonic chart of 25 degrees. *)
Definition chart : chart_config :=
  {| ephemeris_data := []; ephemeris_autoscale := 1;
     ra0 := 5%Q; dec0 := 20%Q; star_flamsteed_labels := 1;
     projection := SW_PROJECTION_GNOM; angular_width := 25%Q;
     width := 16%Q; font_size := 1%Q; mag_min := 6%Q;
     maximum_star_label_count := 30; dso_names := 1; aspect := 0.7%Q;
     x_min := (-1)%Q; x_max := 1%Q; y_min := (-1)%Q; y_max := 1%Q;
     wlin := 1%Q; line_width_base := 1%Q |}.

(** The same chart with autoscale switched off by the caller. *)
Definition chart_fixed : chart_config := with_ephemeris chart [] 0.

(** The answer of the generator for 2022 January 1 to 8, every second
    sample, with a comment and a blank line. *)
Definition january_output : list string :=
  ["# jd ra dec"; "";
   "2459580.5 1.00 0.30"; "2459581.5 1.01 0.30"; "2459582.5 1.02 0.30";
   "2459583.5 1.03 0.31"; "2459584.5 1.04 0.31"; "2459585.5 1.05 0.31";
   "2459586.5 1.06 0.32"; "2459587.5 1.07 0.32"]%string.

Definition january : trace :=
  {| object_id := "mars"; jd_min := 2459580.5%Q; jd_max := 2459587.5%Q;
     output := january_output |}.

(** An answer without any record. *)
Definition silent : trace :=
  {| object_id := "pluto"; jd_min := 2459580.5%Q; jd_max := 2459587.5%Q;
     output := ["# jd ra dec"; "   "; ""]%string |}.

(** The heap as [malloc] may find it. *)
Definition heap : int_array := fun _ => 7.

End Sample.
(** ** Sample runs of the loader *)

Module LoaderRuns.

Import Loader Coverage Planner.

Lemma month_names_nonempty (k : Z) : Sample.get_month_name k <> EmptyString.
Proof.
  unfold Sample.get_month_name. generalize (Z.to_nat (k - 1)). intro n.
  do 12 (destruct n as [|n]; [discriminate|]). destruct n; discriminate.
Qed.

(** The lines up to January 6, the line of January 7, and the rest. *)
Definition first_week : list string := firstn 8 Sample.january_output.
Definition seventh_day : string := "2459586.5 1.06 0.32"%string.
Definition afterwards : list string := skipn 9 Sample.january_output.

(** What the loop stores for the line of January 7. *)
Definition seventh_day_entry : ephemeris_point :=
  {| ra := Sample.get_float "1.06"; dec := Sample.get_float "0.32";
     text_label := Some "7"%string; day := 7; month := 1; year := 2022;
     sub_month_label := 1 |}.

(** C3 on the sample track: the label of January 7 is attached because
    its text differs from the label of January 1 in the first three
    characters. *)
Lemma first_label_january :
  (text_label seventh_day_entry = Some "7"%string <->
   substring 0 3 "7" <> substring 0 3 "Jan 2022")
  /\ (text_label seventh_day_entry = None <->
      substring 0 3 "7" = substring 0 3 "Jan 2022").
Proof.
  pose proof (first_label_day_one_later_on_month_change
                Sample.get_float Sample.next_word Sample.inv_julian_day
                Sample.get_month_name first_week afterwards seventh_day
                seventh_day_entry {| line_counter := 7; previous_label := "7" |}
                2022 1 7 month_names_nonempty
                ltac:(vm_compute; reflexivity) ltac:(vm_compute; reflexivity)) as H.
  vm_compute in H. destruct H as (_ & _ & H).
  destruct H as (_ & Hsome & Hnone).
  - eexists. split; [left; reflexivity | discriminate].
  - split; [exact Hsome | exact Hnone].
Defined.

(** A track of a single instant for which the generator sends 21 records. *)
Definition crowded : trace :=
  {| object_id := "mars"; jd_min := 2459580.5%Q; jd_max := 2459580.5%Q;
     output := repeat "2459580.5 1.00 0.30"%string 21 |}.

(** C10 fails for such an answer: the estimate is 20 entries and the last
    record is stored at index 20. *)
Lemma crowded_store_at_capacity :
  capacity_estimate (jd_min crowded) (jd_max crowded) (1 # 2) = 20
  /\ In 20 (map fst (fst (read_output Sample.get_float Sample.next_word
                                       Sample.inv_julian_day Sample.get_month_name
                                       reader_init (output crowded))))
  /\ data_lines (output crowded) = 21.
Proof.
  split; [vm_compute; reflexivity|]. split; [|vm_compute; reflexivity].
  vm_compute. do 20 right. left. reflexivity.
Qed.

(** C4 on the sample tracks: with the silent object in the list the run
    exits; with the January track alone it does not. *)
Lemma silent_object_is_fatal :
  Fetch.ephemerides_fetch Sample.get_float Sample.next_word Sample.inv_julian_day
    Sample.get_month_name Sample.find_mean_position 200 Sample.heap Sample.heap
    Sample.chart [Sample.january; Sample.silent]
  = Exits "ephemeris-compute-de430 returned no data"%string
  /\ forall d,
       Fetch.ephemerides_fetch Sample.get_float Sample.next_word Sample.inv_julian_day
         Sample.get_month_name Sample.find_mean_position 200 Sample.heap Sample.heap
         Sample.chart [Sample.january]
       <> Exits d.
Proof.
  split.
  - apply (proj1 (Fetch.no_data_is_fatal Sample.get_float Sample.next_word
                    Sample.inv_julian_day Sample.get_month_name
                    Sample.find_mean_position 200 Sample.heap Sample.heap
                    Sample.chart [Sample.january; Sample.silent])).
    right. left. vm_compute. reflexivity.
  - apply (proj2 (Fetch.no_data_is_fatal Sample.get_float Sample.next_word
                    Sample.inv_julian_day Sample.get_month_name
                    Sample.find_mean_position 200 Sample.heap Sample.heap
                    Sample.chart [Sample.january])).
    constructor; [vm_compute; reflexivity | constructor].
Defined.

End LoaderRuns.

(** ** Sample runs of the coverage mapper *)

Module CoverageRuns.

Import Coverage.

(** The grid of the January track: the cells 30 to 32 of [ra_usage] and
    the cells 85 and 86 of [dec_usage] are in use. *)
Definition january_ra_usage : int_array :=
  fun j => if (30 <=? j) && (j <=? 32) then 1 else 0.
Definition january_dec_usage : int_array :=
  fun j => if (85 <=? j) && (j <=? 86) then 1 else 0.

(** The scans on the January grid, with the centroid in cell 31 and the
    opposite point in cell 127. *)
Lemma january_scans_terminate :
  (exists r,
      scan_ra_min 193 january_ra_usage 31 127 1 = Returns r
      /\ scan_stops january_ra_usage 31 (fun b => Z.rem (b + 1) ra_bins) (127 + 1) 1 r)
  /\ (exists r,
      scan_ra_max 193 january_ra_usage 31 127 1 = Returns r
      /\ scan_stops january_ra_usage 31 (fun b => Z.rem (b + ra_bins - 1) ra_bins) 127 1 r)
  /\ (exists r,
      scan_dec_min 193 january_dec_usage 1 = Returns r
      /\ scan_stops january_dec_usage (dec_bins - 1) (fun b => b + 1) 0 1 r)
  /\ (exists r,
      scan_dec_max 193 january_dec_usage 1 = Returns r
      /\ scan_stops january_dec_usage 0 (fun b => b - 1) (dec_bins - 1) 1 r).
Proof.
  apply (bounding_scans_terminate january_ra_usage january_dec_usage 31 127 1 193).
  - left. unfold ra_bins. lia.
  - unfold ra_bins. lia.
  - unfold ra_bins. lia.
Defined.

Example january_bins :
  scan_ra_min 193 january_ra_usage 31 127 1 = Returns (30, 1)
  /\ scan_ra_max 193 january_ra_usage 31 127 1 = Returns (32, 1)
  /\ scan_dec_min 193 january_dec_usage 1 = Returns (85, 1)
  /\ scan_dec_max 193 january_dec_usage 1 = Returns (86, 1).
Proof. repeat split; vm_compute; reflexivity. Qed.

(** An empty sky: every scan runs into its sentinel and clears the flag. *)
Example empty_sky_disables_autoscale :
  scan_ra_min 193 (fun _ => 0) 0 96 1 = Returns (0, 0)
  /\ scan_ra_max 193 (fun _ => 0) 0 96 1 = Returns (0, 0)
  /\ scan_dec_min 193 (fun _ => 0) 1 = Returns (dec_bins - 1, 0)
  /\ scan_dec_max 193 (fun _ => 0) 1 = Returns (0, 0).
Proof. repeat split; vm_compute; reflexivity. Qed.

(** [ra_usage] without any cell in use, in a heap whose next word is not
    zero. *)
Definition unused_before_busy_heap : int_array :=
  fun j => if (0 <=? j) && (j <? ra_bins) then 0 else 7.

(** C2 on the code: a declination of exactly [M_PI / 2] gives the index
    [dec_bins], one past the last cell of [dec_usage]; and when the point
    opposite to the centroid falls into the last cell of [ra_usage], the
    forward scan first reads index [ra_bins], one past the last cell,
    not cell 0: with a word other than zero behind the array it ends
    there, and otherwise it goes on with cell 1. *)
Theorem bins_neither_clamped_nor_wrapped :
  dec_bin_of (M_PI / 2)%Q = dec_bins
  /\ ~ (0 <= dec_bin_of (M_PI / 2)%Q <= dec_bins - 1)
  /\ ra_bin_of (Sample.get_float "3.12" + M_PI)%Q = ra_bins - 1
  /\ scan_ra_min 193 unused_before_busy_heap 95 (ra_bins - 1) 1 = Returns (ra_bins, 1)
  /\ probe (fun b => Z.rem (b + 1) ra_bins) (ra_bins - 1 + 1) 0 = ra_bins
  /\ probe (fun b => Z.rem (b + 1) ra_bins) (ra_bins - 1 + 1) 1 = 1
  /\ (ra_bins - 1 + 1) mod ra_bins = 0.
Proof.
  assert (dec_bin_of (M_PI / 2)%Q = dec_bins) as H by (vm_compute; reflexivity).
  split; [exact H|]. split; [rewrite H; unfold dec_bins; lia|].
  repeat split; vm_compute; reflexivity.
Qed.

(** The grid of a track whose only record has the right ascension 6.29
    rad, just above 2 pi: line 210 gives the index [ra_bins], line 214
    writes one word past the array, and no cell of the array is in use. *)
Definition overshoot_ra_usage : int_array :=
  fst (mark_usage [Sample.get_float "6.29"] [Sample.get_float "0.30"]
                  (zero_fill Sample.heap ra_bins) (zero_fill Sample.heap dec_bins)).

Lemma overshoot_cell : ra_bin_of (Sample.get_float "6.29") = ra_bins.
Proof. vm_compute. reflexivity. Qed.

Lemma overshoot_grid_is_empty (b : Z) : 0 <= b < ra_bins -> overshoot_ra_usage b = 0.
Proof.
  intro Hb. unfold overshoot_ra_usage. cbn [mark_usage fst].
  unfold array_set, zero_fill. rewrite overshoot_cell.
  destruct (b =? ra_bins) eqn:E; [apply Z.eqb_eq in E; lia|].
  replace ((0 <=? b) && (b <? ra_bins)) with true; [reflexivity|].
  symmetry. apply andb_true_iff. split; [apply Z.leb_le | apply Z.ltb_lt]; lia.
Qed.

(** C5 on that grid, with the centroid at 6.29 rad as well, in bin 192,
    and the opposite point in cell 96: a thousand turns do not end either
    scan. *)
Lemma overshoot_scans_never_end :
  overshoot_ra_usage ra_bins = 1
  /\ scan_ra_min 1000 overshoot_ra_usage (ra_bin_of (Sample.get_float "6.29")) 96 1
     = OutOfFuel
  /\ scan_ra_max 1000 overshoot_ra_usage (ra_bin_of (Sample.get_float "6.29")) 96 1
     = OutOfFuel.
Proof.
  split; [vm_compute; reflexivity|].
  apply (ra_scans_never_end_off_grid overshoot_ra_usage
           (ra_bin_of (Sample.get_float "6.29")) 96 1 1000).
  - exact overshoot_grid_is_empty.
  - rewrite overshoot_cell. lia.
  - unfold ra_bins. lia.
Defined.

End CoverageRuns.

(** ** Sample runs of the viewport planner *)

Module PlannerRuns.

Import Coverage Planner.

(** C8 on the bins of the January track. *)
Lemma january_ra_hours :
  exists ra_min ra_max,
    ra_hours 2 30 32 = Returns (ra_min, ra_max)
    /\ (ra_min < ra_max)%Q /\ (ra_max - ra_min <= 24)%Q.
Proof.
  apply (ra_max_exceeds_ra_min 30 32 2).
  - unfold ra_bins. lia.
  - unfold ra_bins. lia.
  - lia.
Defined.

(** A track around 0h: the scans deliver the cells 190 and 1, and the loop
    of line 295 adds 24 hours to [ra_max]. *)
Example ra_hours_across_midnight :
  exists ra_min ra_max,
    ra_hours 2 190 1 = Returns (ra_min, ra_max)
    /\ (ra_min == 23.75)%Q /\ (ra_max == 24.25)%Q.
Proof. eexists. eexists. split; [vm_compute; reflexivity|]. split; reflexivity. Qed.

(** A window from 0h to 12h and from pole to pole: the cells 0 to 95 of
    [ra_usage] and 0 to 143 of [dec_usage]. *)
Definition half_sky (s : chart_config) : outcome chart_config :=
  plan_viewport 2 s 0 95 0 143.

(** The chart the planner leaves for that window. *)
Definition half_sky_chart : chart_config :=
  match half_sky Sample.chart with
  | Returns s' => s'
  | _ => Sample.chart
  end.

(** C7 on that window: the chart is rectangular with h = 198, and the
    centre declination ends on the upper bound, below the lower one. *)
Lemma half_sky_leaves_range :
  (dec0 half_sky_chart == 89 - angular_width half_sky_chart * aspect half_sky_chart / 2)%Q
  /\ (dec0 half_sky_chart
      < -89 + angular_width half_sky_chart * aspect half_sky_chart / 2)%Q
  /\ (dec0 half_sky_chart - angular_width half_sky_chart * aspect half_sky_chart / 2
      == 89 - angular_width half_sky_chart * aspect half_sky_chart)%Q
  /\ (dec0 half_sky_chart - angular_width half_sky_chart * aspect half_sky_chart / 2
      < -89)%Q.
Proof.
  apply (rectangular_dec0_leaves_range 2 Sample.chart half_sky_chart 0 95 0 143).
  - vm_compute. reflexivity.
  - discriminate.
  - vm_compute. reflexivity.
  - vm_compute. reflexivity.
Defined.

(** The plot of that chart reaches from -109 to 89 degrees. *)
Example half_sky_plot_range :
  (dec0 half_sky_chart == -10)%Q
  /\ (angular_width half_sky_chart * aspect half_sky_chart == 198)%Q
  /\ (dec0 half_sky_chart - angular_width half_sky_chart * aspect half_sky_chart / 2
      == -109)%Q
  /\ (dec0 half_sky_chart + angular_width half_sky_chart * aspect half_sky_chart / 2
      == 89)%Q.
Proof. repeat split; vm_compute; reflexivity. Qed.

(** On that window the rectangular branch is taken with a width of 198
    degrees and an aspect of 1, the bounds are 10 below and -10 above, and
    the centre declination ends at -10, below the lower bound. *)
Lemma half_sky_dec0_below_lower_bound :
  exists s',
    half_sky Sample.chart = Returns s'
    /\ projection s' = SW_PROJECTION_FLAT
    /\ (angular_width s' == 198)%Q /\ (aspect s' == 1)%Q
    /\ (-89 + angular_width s' * aspect s' / 2 == 10)%Q
    /\ (89 - angular_width s' * aspect s' / 2 == -10)%Q
    /\ (dec0 s' == -10)%Q
    /\ (dec0 s' < -89 + angular_width s' * aspect s' / 2)%Q.
Proof.
  eexists. split; [vm_compute; reflexivity|].
  repeat split; vm_compute; reflexivity.
Qed.

End PlannerRuns.

(** ** Sample runs of [ephemerides_fetch] and [plot_ephemeris] *)

Module FetchRuns.

Import Loader Coverage Planner.

Definition fetch : chart_config -> list trace -> outcome chart_config :=
  Fetch.ephemerides_fetch Sample.get_float Sample.next_word Sample.inv_julian_day
    Sample.get_month_name Sample.find_mean_position 200 Sample.heap Sample.heap.

(** The chart an outcome carries, [s] when it carries none. *)
Definition chart_of (o : outcome chart_config) (s : chart_config) : chart_config :=
  match o with
  | Returns s' => s'
  | _ => s
  end.

(** The January track fetched for the chart with autoscale off. *)
Definition january_fixed : chart_config :=
  chart_of (fetch Sample.chart_fixed [Sample.january]) Sample.chart_fixed.

(** C9 on the January track with autoscale off. *)
Lemma january_fixed_keeps_viewport :
  ra0 january_fixed = ra0 Sample.chart_fixed
  /\ dec0 january_fixed = dec0 Sample.chart_fixed
  /\ projection january_fixed = projection Sample.chart_fixed
  /\ angular_width january_fixed = angular_width Sample.chart_fixed
  /\ aspect january_fixed = aspect Sample.chart_fixed
  /\ width january_fixed = width Sample.chart_fixed
  /\ font_size january_fixed = font_size Sample.chart_fixed
  /\ mag_min january_fixed = mag_min Sample.chart_fixed
  /\ maximum_star_label_count january_fixed = maximum_star_label_count Sample.chart_fixed
  /\ dso_names january_fixed = dso_names Sample.chart_fixed
  /\ star_flamsteed_labels january_fixed = star_flamsteed_labels Sample.chart_fixed.
Proof.
  apply (Fetch.disabled_autoscale_keeps_viewport
           Sample.get_float Sample.next_word Sample.inv_julian_day
           Sample.get_month_name Sample.find_mean_position 200 Sample.heap Sample.heap
           Sample.chart_fixed january_fixed [Sample.january]).
  - vm_compute. reflexivity.
  - vm_compute. reflexivity.
Defined.

(** With autoscale on, the same track gives a gnomonic chart around it. *)
Example january_autoscaled :
  exists s', fetch Sample.chart [Sample.january] = Returns s'
             /\ projection s' = SW_PROJECTION_GNOM
             /\ (ra0 s' == 3.9375)%Q /\ (dec0 s' == 17.5)%Q
             /\ (angular_width s' == 6.1875)%Q /\ (aspect s' == 0.5)%Q.
Proof.
  eexists. split; [vm_compute; reflexivity|]. repeat split; vm_compute; reflexivity.
Qed.

(** Without any track the scans fail, autoscale is cleared and the chart
    of the caller is kept. *)
Example no_track_keeps_viewport :
  fetch Sample.chart [] = Returns (with_ephemeris Sample.chart [] 0).
Proof. vm_compute. reflexivity. Qed.

(** Two objects, one near each pole and 12 hours apart: the window of
    [PlannerRuns.half_sky], found by the scans. *)
Definition pole_to_pole : list trace :=
  [{| object_id := "a"; jd_min := 2459580.5%Q; jd_max := 2459580.5%Q;
      output := ["2459580.5 0.02 -1.56"%string] |};
   {| object_id := "b"; jd_min := 2459580.5%Q; jd_max := 2459580.5%Q;
      output := ["2459580.5 3.12 1.56"%string] |}].

Example pole_to_pole_dec0 :
  exists s', fetch Sample.chart pole_to_pole = Returns s'
             /\ projection s' = SW_PROJECTION_FLAT
             /\ (dec0 s' == -10)%Q
             /\ (-89 + angular_width s' * aspect s' / 2 == 10)%Q.
Proof.
  eexists. split; [vm_compute; reflexivity|]. repeat split; vm_compute; reflexivity.
Qed.

(** An object at the north pole: its cell of [dec_usage] would be the
    cell 144, the scans over the 144 cells of the array find none in use,
    and autoscale is cleared. *)
Definition polar : trace :=
  {| object_id := "c"; jd_min := 2459580.5%Q; jd_max := 2459580.5%Q;
     output := ["2459580.5 3.12 1.5707963267948966"%string] |}.

Example polar_point_disables_autoscale :
  dec_bin_of (Sample.get_float "1.5707963267948966") = dec_bins
  /\ exists s', fetch Sample.chart [polar] = Returns s'
                /\ ephemeris_autoscale s' = 0
                /\ projection s' = projection Sample.chart
                /\ angular_width s' = angular_width Sample.chart.
Proof.
  split; [vm_compute; reflexivity|].
  eexists. split; [vm_compute; reflexivity|]. repeat split.
Qed.

(** An object whose only record has the right ascension 6.29 rad. *)
Definition overshoot : trace :=
  {| object_id := "d"; jd_min := 2459580.5%Q; jd_max := 2459580.5%Q;
     output := ["2459580.5 6.29 0.30"%string] |}.

(** With the mean of the coordinates for the centroid, the whole function
    does not return on that object, however many turns its loops get: the
    forward scan over [ra_usage] starts in cell 97 and goes round the
    array. *)
Example overshoot_fetch_never_returns (fuel : nat) :
  Fetch.ephemerides_fetch Sample.get_float Sample.next_word Sample.inv_julian_day
    Sample.get_month_name Sample.find_mean_position fuel Sample.heap Sample.heap
    Sample.chart [overshoot]
  = OutOfFuel.
Proof.
  destruct fuel as [|[|fuel]]; [vm_compute; reflexivity | vm_compute; reflexivity|].
  unfold Fetch.ephemerides_fetch.
  set (tracks := fetch_tracks _ _ _ _ _). vm_compute in tracks. subst tracks.
  cbn [bind flat_map map Loader.data ra dec app].
  match goal with
  | |- context [mark_usage ?ras ?decs ?a ?b] =>
      destruct (mark_usage ras decs a b) as [ra_usage dec_usage] eqn:Egrid
  end.
  apply (f_equal fst) in Egrid. cbn [fst] in Egrid.
  change (fst (mark_usage _ _ _ _)) with CoverageRuns.overshoot_ra_usage in Egrid.
  subst ra_usage.
  set (centroid := Sample.find_mean_position _ _). vm_compute in centroid. subst centroid.
  cbv beta iota.
  set (opposite := ra_bin_of (_ + M_PI)%Q). vm_compute in opposite. subst opposite.
  unfold wrap_ra_bin.
  rewrite while_do_exit by reflexivity. cbn [bind].
  rewrite while_do_turn by reflexivity.
  rewrite while_do_exit by reflexivity. cbn [bind].
  unfold scan_ra_min. rewrite scan_never_ends; [reflexivity|].
  intro k.
  pose proof (probe_ra_forward_inside (288 - ra_bins + 1) k ltac:(unfold ra_bins; lia)) as Hin.
  split; [now apply CoverageRuns.overshoot_grid_is_empty|].
  intro Heq. rewrite Heq in Hin. change (ra_bin_of 6.29%Q) with ra_bins in Hin. lia.
Qed.

End FetchRuns.

Module RendererRuns.

Import Loader Renderer.

Definition plot : Planner.chart_config -> list draw_call -> cairo_page -> ephemeris
                  -> list draw_call * cairo_page :=
  plot_ephemeris Sample.plane_project Sample.atan2 Sample.sin Sample.cos
                 Sample.gsl_finite.

Definition blank_page : cairo_page := {| exclusion_regions := []; labels := [] |}.

(** The January track as the loader left it. *)
Definition january_track : ephemeris :=
  hd {| jd_start := 0%Q; jd_end := 0%Q; jd_step := 0%Q; point_count := 0; data := [] |}
     (Planner.ephemeris_data FetchRuns.january_fixed).

(** C6 fails on the January track drawn on the sample chart, whose canvas
    ends at x = 1: the point of January 7 projects to x = 1.06, off the
    canvas, and its small square is on the page all the same.  The page
    holds the eight small squares and the larger square of January 1. *)
Lemma off_canvas_point_has_small_region :
  nth_error (data january_track) 6
  = Some {| ra := Sample.get_float "1.06"; dec := Sample.get_float "0.32";
            text_label := Some "7"%string; day := 7; month := 1; year := 2022;
            sub_month_label := 1 |}
  /\ Sample.plane_project Sample.chart_fixed (Sample.get_float "1.06")
                          (Sample.get_float "0.32")
     = (Sample.get_float "1.06", Sample.get_float "0.32")
  /\ off_canvas Sample.chart_fixed (Sample.get_float "1.06") (Sample.get_float "0.32")
     = true
  /\ In (region_around (Sample.get_float "1.06") (Sample.get_float "0.32")
                       (0.12 * 1 / 16 * 0.1)%Q)
        (exclusion_regions (snd (plot Sample.chart_fixed [] blank_page january_track)))
  /\ List.length (exclusion_regions
                    (snd (plot Sample.chart_fixed [] blank_page january_track)))
     = 9%nat.
Proof.
  split; [vm_compute; reflexivity|].
  split; [reflexivity|].
  split; [vm_compute; reflexivity|].
  split; [|vm_compute; reflexivity].
  vm_compute. do 7 right. left. reflexivity.
Qed.

End RendererRuns.

(** ** Further properties of the loader *)

Module LoaderFacts.

Import Loader.

(** A string of white space only: every character has a code from 1 to 32. *)
Fixpoint is_blank_string (s : string) : bool :=
  match s with
  | EmptyString => true
  | String c t => (0 <? code c) && (code c <=? 32) && is_blank_string t
  end.

(** The texts of the labels the loop attached, in the order of the track. *)
Definition attached_labels (stores : list (Z * ephemeris_point)) : list string :=
  flat_map (fun w => match text_label (snd w) with
                     | Some l => [l]
                     | None => []
                     end) stores.

(** Each label differs from the one before it in the first three
    characters; [previous] is the label before the first of the list. *)
Fixpoint prefixes_alternate (previous : string) (labels : list string) : Prop :=
  match labels with
  | [] => True
  | l :: rest => substring 0 3 l <> substring 0 3 previous /\ prefixes_alternate l rest
  end.

(** [INT_MAX] of limits.h, for the 32-bit [int] of the platforms the
    program is built for. *)
Definition INT_MAX : Z := 2147483647.

(** The conversion [(int) x] of C: the value truncated toward zero when
    that is an [int], and undefined otherwise. *)
Definition int_cast (x : double) : option Z :=
  let n := int_of_double x in
  if (- INT_MAX - 1 <=? n) && (n <=? INT_MAX) then Some n else None.

Section LoaderFacts.

Variable get_float : string -> double.
Variable next_word : string -> string.
Variable inv_julian_day : double -> Z * Z * Z.
Variable get_month_name : Z -> string.

(** What an entry of [data] looks like after the loop: without label all
    calendar fields are 0; with a label the entry is minor, on a day after
    the 6th, with the day rounded down to a multiple of 7 as text, or
    major, on a day up to the 6th, with the month abbreviation, and the
    year or not, as text. *)
Definition entry_shape (pt : ephemeris_point) : Prop :=
  match text_label pt with
  | None => day pt = 0 /\ month pt = 0 /\ year pt = 0 /\ sub_month_label pt = 0
  | Some l =>
      (sub_month_label pt = 1 /\ 6 < day pt /\ l = fmt_d (7 * (day pt / 7)))
      \/ (sub_month_label pt = 0 /\ day pt <= 6
          /\ (l = (fmt_s 3 (get_month_name (month pt)) ++ " " ++ fmt_d (year pt))%string
              \/ (l = fmt_s 3 (get_month_name (month pt)) /\ month pt <> 1)))
  end.

Lemma skip_blanks_app (ws s : string) :
  is_blank_string ws = true -> skip_blanks (ws ++ s) = skip_blanks s.
Proof.
  induction ws as [|c t IH]; cbn [is_blank_string append skip_blanks]; intro H.
  - reflexivity.
  - apply andb_true_iff in H. destruct H as [Hc Ht]. rewrite Hc. now apply IH.
Qed.

Lemma Qfloor_sevenths (d : Z) : Qfloor (double_of_int d / 7)%Q = d / 7.
Proof.
  unfold double_of_int, Qdiv, Qfloor. cbn [Qinv Qmult inject_Z Qnum Qden].
  now rewrite Z.mul_1_r.
Qed.

(** The text of a minor label: [%.0f] of [floor(day / 7.) * 7]. *)
Lemma fmt_0f_week (d : Z) :
  fmt_0f (floor (double_of_int d / 7) * 7)%Q = fmt_d (7 * (d / 7)).
Proof.
  unfold fmt_0f, floor. rewrite Qfloor_sevenths. f_equal.
  unfold round_half_even.
  assert (Qfloor (inject_Z (d / 7) * 7)%Q = 7 * (d / 7)) as Hf.
  { unfold Qfloor. cbn [Qmult inject_Z Qnum Qden]. cbn [Pos.mul].
    rewrite Z.div_1_r. lia. }
  rewrite Hf.
  assert (dlt (inject_Z (d / 7) * 7 - inject_Z (7 * (d / 7)))%Q (1 # 2) = true) as ->.
  { apply dlt_spec. rewrite inject_Z_mult. change (inject_Z 7) with 7%Q. lra. }
  reflexivity.
Qed.

(** One turn of the line loop stores an entry of that shape. *)
Lemma read_line_shape (r r' : reader) (line : string) (pt : ephemeris_point) :
  (Loader.read_line get_float next_word inv_julian_day get_month_name) r line = (Some pt, r') -> entry_shape pt.
Proof.
  unfold Loader.read_line.
  destruct (negb (is_data_line line)); [discriminate|].
  destruct (inv_julian_day _) as [[y m] d].
  unfold Loader.make_label.
  destruct (6 <? d) eqn:Ed.
  - destruct (show_label _ _ d); intro H; inversion H; subst pt; unfold entry_shape;
      cbn [text_label day month year sub_month_label].
    + left. apply Z.ltb_lt in Ed. repeat split; [exact Ed | apply fmt_0f_week].
    + repeat split.
  - apply Z.ltb_ge in Ed.
    destruct ((m =? 1) || is_empty (previous_label r))%bool eqn:Ey.
    + destruct (show_label _ _ d); intro H; inversion H; subst pt; unfold entry_shape;
        cbn [text_label day month year sub_month_label].
      * right. repeat split; [exact Ed | now left].
      * repeat split.
    + apply orb_false_iff in Ey. destruct Ey as [Em _]. apply Z.eqb_neq in Em.
      destruct (show_label _ _ d); intro H; inversion H; subst pt; unfold entry_shape;
        cbn [text_label day month year sub_month_label].
      * right. repeat split; [exact Ed | right; now split].
      * repeat split.
Qed.

(** X1: blank lines and comment lines leave no trace: the loop stores the
    same entries at the same indices, and ends with the same counter and
    the same previous label, as on the data lines alone. *)
Theorem blank_and_comment_lines_ignored (lines : list string) : forall r : reader,
  (Loader.read_output get_float next_word inv_julian_day get_month_name) r lines = (Loader.read_output get_float next_word inv_julian_day get_month_name) r (filter is_data_line lines).
Proof.
  induction lines as [|line rest IH]; intro r; [reflexivity|].
  cbn [filter]. destruct (is_data_line line) eqn:E.
  - cbn [Loader.read_output]. destruct ((Loader.read_line get_float next_word inv_julian_day get_month_name) r line) as [stored r'].
    now rewrite IH.
  - cbn [Loader.read_output].
    rewrite (read_line_skipped get_float next_word inv_julian_day get_month_name r line E).
    specialize (IH r). destruct ((Loader.read_output get_float next_word inv_julian_day get_month_name) r rest) as [stores r''].
    rewrite <- IH. reflexivity.
Qed.

(** X2: white space in front of a record changes nothing: the loop reads
    the line as it reads the record without it. *)
Theorem leading_blanks_ignored (ws line : string) (r : reader) :
  is_blank_string ws = true ->
  is_data_line (ws ++ line) = is_data_line line
  /\ (Loader.read_line get_float next_word inv_julian_day get_month_name) r (ws ++ line) = (Loader.read_line get_float next_word inv_julian_day get_month_name) r line.
Proof.
  intro H. unfold Loader.read_line, is_data_line.
  rewrite (skip_blanks_app ws line H). split; reflexivity.
Qed.

(** X3: every entry the loop stores is of one of three kinds.  Without a
    label its day, month, year and [sub_month_label] are 0.  With a minor
    label its day is after the 6th and the text is the day rounded down to
    a multiple of 7.  With a major label its day is at most the 6th and
    the text is the first three letters of the month name, followed by the
    year or, outside January, alone. *)
Theorem stored_entries_shape (lines : list string) : forall r : reader,
  Forall (fun w => entry_shape (snd w)) (fst ((Loader.read_output get_float next_word inv_julian_day get_month_name) r lines)).
Proof.
  induction lines as [|line rest IH]; intro r; cbn [Loader.read_output].
  - constructor.
  - destruct ((Loader.read_line get_float next_word inv_julian_day get_month_name) r line) as [stored r'] eqn:El.
    specialize (IH r'). destruct ((Loader.read_output get_float next_word inv_julian_day get_month_name) r' rest) as [stores r''].
    cbn [fst] in *. destruct stored as [pt|]; [|exact IH].
    constructor; [|exact IH]. cbn [snd]. exact (read_line_shape r r' line pt El).
Qed.

(** X4: no major label of a loaded track falls on a day 14 (nor on any day
    after the 6th), so the term for day 14 in the priority of
    [plot_ephemeris] only ever counts for minor labels: the priority of a
    major label is the base, the index term, 4e-6 and the month term. *)
Theorem major_labels_miss_day_bonus (lines : list string) (r : reader) :
  Forall (fun w =>
            text_label (snd w) <> None -> sub_month_label (snd w) = 0 ->
            day (snd w) <= 6
            /\ forall i,
                 (Priority.priority i (sub_month_label (snd w)) (day (snd w)) (month (snd w))
                  == (123 # 10000) + (1 # 1000000000000) * inject_Z i - (4 # 1000000)
                     - Priority.month_bonus (month (snd w)))%Q)
         (fst ((Loader.read_output get_float next_word inv_julian_day get_month_name) r lines)).
Proof.
  revert r. induction lines as [|line rest IH]; intro r; cbn [Loader.read_output].
  - constructor.
  - destruct ((Loader.read_line get_float next_word inv_julian_day get_month_name) r line) as [stored r'] eqn:El.
    specialize (IH r'). destruct ((Loader.read_output get_float next_word inv_julian_day get_month_name) r' rest) as [stores r''].
    cbn [fst] in *. destruct stored as [pt|]; [|exact IH].
    constructor; [|exact IH]. cbn [snd]. intros Hlab Hmajor.
    pose proof (read_line_shape r r' line pt El) as Hs. unfold entry_shape in Hs.
    destruct (text_label pt) as [l|]; [|congruence].
    destruct Hs as [(Hminor & _) | (_ & Hday & _)]; [congruence|].
    split; [exact Hday|]. intro i. rewrite Priority.priority_split, Hmajor.
    assert ((day pt =? 14) = false) as -> by (apply Z.eqb_neq; lia).
    cbn [Z.eqb int_of_bool]. change (inject_Z 1) with 1%Q. change (inject_Z 0) with 0%Q.
    lra.
Qed.

(** X5: along a track, each attached label differs from the label attached
    before it in the first three characters; the first one differs from
    the empty text, so it is not empty. *)
Theorem attached_labels_alternate (lines : list string) : forall r : reader,
  prefixes_alternate (previous_label r) (attached_labels (fst ((Loader.read_output get_float next_word inv_julian_day get_month_name) r lines))).
Proof.
  induction lines as [|line rest IH]; intro r; cbn [Loader.read_output].
  - exact I.
  - destruct (is_data_line line) eqn:E.
    + unfold Loader.read_line. rewrite E. cbn [negb].
      destruct (inv_julian_day _) as [[y m] d].
      destruct (Loader.make_label _ _ y m d) as [label sub].
      destruct (show_label label (previous_label r) d) eqn:Es.
      * match goal with
        | |- context [Loader.read_output _ _ _ _ ?r' rest] =>
            specialize (IH r'); destruct ((Loader.read_output get_float next_word inv_julian_day get_month_name) r' rest) as [stores r'']
        end.
        cbn [fst previous_label] in IH |- *. unfold attached_labels. cbn [flat_map snd text_label app].
        split; [|exact IH].
        unfold show_label in Es. apply andb_true_iff in Es. destruct Es as [Es _].
        rewrite <- strncmp_Eq_iff. destruct (strncmp label (previous_label r) 3); [discriminate| |]; discriminate.
      * match goal with
        | |- context [Loader.read_output _ _ _ _ ?r' rest] =>
            specialize (IH r'); destruct ((Loader.read_output get_float next_word inv_julian_day get_month_name) r' rest) as [stores r'']
        end.
        cbn [fst previous_label] in IH |- *. unfold attached_labels. cbn [flat_map snd text_label app].
        exact IH.
    + rewrite (read_line_skipped get_float next_word inv_julian_day get_month_name r line E).
      specialize (IH r). destruct ((Loader.read_output get_float next_word inv_julian_day get_month_name) r rest) as [stores r''].
      exact IH.
Qed.

Lemma int_of_double_lower (x : double) (k : Z) :
  0 <= k -> (inject_Z k <= x)%Q -> k <= int_of_double x.
Proof.
  destruct x as [p q]. unfold int_of_double, Qle. cbn [Qnum Qden inject_Z].
  intros Hk H. rewrite Z.mul_1_r in H.
  rewrite Z.quot_div_nonneg by nia.
  apply Z.div_le_lower_bound; lia.
Qed.

(** X6: what the loop over the objects leaves.  When it returns, there is
    one track for each definition, each with at least one entry, with
    [point_count] equal to the number of its entries and a step of half a
    day, and [total_ephemeris_points] is the number of entries of all
    tracks together, the size of [ra_list] and [dec_list].  Otherwise it
    has exited with the diagnostic, on an object without data line. *)
Theorem loaded_tracks_counts (traces : list trace) :
  match (Loader.fetch_tracks get_float next_word inv_julian_day get_month_name) traces with
  | Returns (data, total) =>
      List.length data = List.length traces
      /\ Forall (fun e => 0 < point_count e
                          /\ point_count e = Z.of_nat (List.length (Loader.data e))
                          /\ jd_step e = 1 # 2) data
      /\ total = Z.of_nat (List.length (flat_map (fun e => map ra (Loader.data e)) data))
      /\ total = Z.of_nat (List.length (flat_map (fun e => map dec (Loader.data e)) data))
  | Exits d =>
      d = "ephemeris-compute-de430 returned no data"%string
      /\ Exists (fun t => data_lines (output t) = 0) traces
  | OutOfFuel => False
  end.
Proof.
  induction traces as [|t rest IH]; cbn [Loader.fetch_tracks].
  - repeat split. constructor.
  - unfold Loader.fetch_track.
    pose proof (read_output_indices get_float next_word inv_julian_day get_month_name
                  (output t) reader_init) as [_ Hc].
    pose proof (read_output_length get_float next_word inv_julian_day get_month_name
                  (output t) reader_init) as Hl.
    destruct ((Loader.read_output get_float next_word inv_julian_day get_month_name) reader_init (output t)) as [stores r].
    cbn [fst snd reader_init line_counter] in Hc, Hl. rewrite Z.add_0_l in Hc.
    destruct (line_counter r =? 0) eqn:E; cbn [bind].
    + split; [reflexivity|]. left. apply Z.eqb_eq in E. congruence.
    + apply Z.eqb_neq in E.
      destruct ((Loader.fetch_tracks get_float next_word inv_julian_day get_month_name) rest) as [[data total]| d |]; cbn [bind].
      * destruct IH as (Hlen & Hall & Hra & Hdec).
        cbn [List.length flat_map point_count Loader.data jd_step].
        rewrite !length_app, !length_map, !Nat2Z.inj_add, <- Hra, <- Hdec.
        repeat split; try lia.
        constructor; [|exact Hall]. cbn [point_count Loader.data jd_step].
        rewrite length_map. unfold data_lines in *. repeat split; lia.
      * destruct IH as [Hd Hex]. split; [exact Hd | now right].
      * exact IH.
Qed.

Lemma int_of_double_upper (x : double) (k : Z) :
  0 <= k -> (x <= inject_Z k)%Q -> int_of_double x <= k.
Proof.
  destruct x as [p q]. unfold int_of_double, Qle. cbn [Qnum Qden inject_Z].
  intros Hk H. rewrite Z.mul_1_r in H.
  destruct (Z.le_gt_cases 0 p) as [Hp | Hp].
  - rewrite Z.quot_div_nonneg by lia.
    apply Z.div_le_upper_bound; lia.
  - pose proof (Z.quot_opp_l p (Zpos q) ltac:(lia)) as Ho.
    pose proof (Z.quot_pos (- p) (Zpos q) ltac:(lia) ltac:(lia)) as Hq.
    lia.
Qed.

(** X7: the estimate of line 82 is generous for a generator that keeps to
    its step, on an interval short enough for the estimate to be an
    [int]: when 20 + (jd_end - jd_start) / jd_step is at most [INT_MAX]
    and the number of data lines is at most
    (jd_end - jd_start) / jd_step + 1, one for each sample of the interval,
    the conversion of line 82 is defined, every store lands inside the
    allocated entries and at least 19 of them stay unused. *)
Theorem estimate_is_generous (t : trace) :
  (inject_Z (data_lines (output t)) <= (jd_max t - jd_min t) / (1 # 2) + 1)%Q ->
  (20 + (jd_max t - jd_min t) / (1 # 2) <= inject_Z INT_MAX)%Q ->
  exists capacity,
    int_cast (20 + (jd_max t - jd_min t) / (1 # 2))%Q = Some capacity
    /\ capacity = capacity_estimate (jd_min t) (jd_max t) (1 # 2)
    /\ data_lines (output t) + 19 <= capacity
    /\ Forall (fun w => 0 <= fst w < capacity)
              (fst (Loader.read_output get_float next_word inv_julian_day get_month_name
                      reader_init (output t))).
Proof.
  intros H Hmax.
  assert (0 <= data_lines (output t)) as Hn by (unfold data_lines; lia).
  assert (data_lines (output t) + 19 <= capacity_estimate (jd_min t) (jd_max t) (1 # 2)) as Hcap.
  { unfold capacity_estimate. apply int_of_double_lower; [lia|].
    rewrite inject_Z_plus. change (inject_Z 19) with 19%Q. lra. }
  assert (capacity_estimate (jd_min t) (jd_max t) (1 # 2) <= INT_MAX) as Hint.
  { unfold capacity_estimate. apply int_of_double_upper; [unfold INT_MAX; lia | exact Hmax]. }
  exists (capacity_estimate (jd_min t) (jd_max t) (1 # 2)).
  split.
  { unfold int_cast. fold (capacity_estimate (jd_min t) (jd_max t) (1 # 2)).
    replace ((- INT_MAX - 1 <=? capacity_estimate (jd_min t) (jd_max t) (1 # 2))
             && (capacity_estimate (jd_min t) (jd_max t) (1 # 2) <=? INT_MAX)) with true;
      [reflexivity|].
    symmetry. apply andb_true_iff. split; apply Z.leb_le; unfold INT_MAX in *; lia. }
  split; [reflexivity|]. split; [exact Hcap|].
  destruct (read_output_indices get_float next_word inv_julian_day get_month_name
              (output t) reader_init) as [Hi _].
  cbn [reader_init line_counter] in Hi.
  rewrite <- (Forall_map fst (fun i => 0 <= i < capacity_estimate (jd_min t) (jd_max t) (1 # 2))).
  rewrite Hi, Forall_map, Forall_forall. intros k Hk. rewrite in_seq in Hk.
  unfold data_lines in *. lia.
Qed.

End LoaderFacts.

End LoaderFacts.

(** ** Further properties of the coverage mapper *)

Module CoverageFacts.

Import Loader Coverage.

Lemma add_loop (n : nat) : forall (bin : Z) (fuel : nat),
  - (Z.of_nat n * ra_bins) <= bin -> (n < fuel)%nat ->
  while_do fuel (fun b => b <? 0) (fun b => b + ra_bins) bin
  = Returns (if bin <? 0 then bin mod ra_bins else bin).
Proof.
  unfold ra_bins. change (24 * 8) with 192.
  induction n as [|n IH]; intros bin fuel Hb Hfuel;
    (destruct fuel as [|fuel]; [lia|]).
  - rewrite while_do_exit by (apply Z.ltb_ge; lia).
    now replace (bin <? 0) with false by (symmetry; apply Z.ltb_ge; lia).
  - destruct (bin <? 0) eqn:E.
    + rewrite while_do_turn by exact E. apply Z.ltb_lt in E.
      rewrite (IH (bin + 192) fuel) by lia. f_equal.
      destruct (bin + 192 <? 0) eqn:E'.
      * rewrite <- (Z.mod_add bin 1 192) by lia. f_equal.
      * apply Z.ltb_ge in E'. rewrite <- (Z.mod_add bin 1 192) by lia.
        symmetry. apply Z.mod_small. lia.
    + now rewrite while_do_exit by exact E.
Qed.

Lemma sub_loop (n : nat) : forall (bin : Z) (fuel : nat),
  0 <= bin < (Z.of_nat n + 1) * ra_bins -> (n < fuel)%nat ->
  while_do fuel (fun b => ra_bins <=? b) (fun b => b - ra_bins) bin
  = Returns (bin mod ra_bins).
Proof.
  unfold ra_bins. change (24 * 8) with 192.
  induction n as [|n IH]; intros bin fuel Hb Hfuel;
    (destruct fuel as [|fuel]; [lia|]).
  - rewrite while_do_exit by (apply Z.leb_gt; lia).
    f_equal. symmetry. apply Z.mod_small. lia.
  - destruct (192 <=? bin) eqn:E.
    + rewrite while_do_turn by exact E. apply Z.leb_le in E.
      rewrite (IH (bin - 192) fuel) by lia. f_equal.
      rewrite <- (Z.mod_add (bin - 192) 1 192) by lia. f_equal. lia.
    + rewrite while_do_exit by exact E. apply Z.leb_gt in E.
      f_equal. symmetry. apply Z.mod_small. lia.
Qed.

(** X8: the two loops of lines 237-238 bring any bin number into the
    array: they end, within |bin| / 192 + 1 tests each, with the remainder
    of [bin] modulo [ra_bins], which lies in [0, ra_bins). *)
Theorem wrap_ra_bin_is_mod (bin : Z) (fuel : nat) :
  Z.abs bin + ra_bins <= Z.of_nat fuel * ra_bins ->
  wrap_ra_bin fuel bin = Returns (bin mod ra_bins)
  /\ 0 <= bin mod ra_bins < ra_bins.
Proof.
  intro H.
  assert (0 < ra_bins) as Hpos by reflexivity.
  pose proof (Z.mod_pos_bound bin ra_bins Hpos) as Hm.
  split; [|exact Hm].
  destruct fuel as [|n]; [unfold ra_bins in H; lia|].
  unfold wrap_ra_bin.
  rewrite (add_loop n bin (S n)) by (unfold ra_bins in *; lia).
  cbn [bind]. destruct (bin <? 0) eqn:E.
  - rewrite (sub_loop 0 (bin mod ra_bins) (S n)) by (unfold ra_bins in *; lia).
    f_equal. apply Z.mod_mod. lia.
  - apply Z.ltb_ge in E. apply (sub_loop n bin (S n)); unfold ra_bins in *; lia.
Qed.

(** A scan that meets a cell in use after [k] unused cells, none of them
    the sentinel, returns that cell and leaves the flag alone. *)
Lemma scan_finds (usage : int_array) (sentinel : Z) (next : Z -> Z) (autoscale : Z) :
  forall (k : nat) (start : Z) (fuel : nat),
    (k < fuel)%nat ->
    (forall j, (j < k)%nat ->
               usage (probe next start j) = 0 /\ probe next start j <> sentinel) ->
    usage (probe next start k) <> 0 ->
    scan fuel usage sentinel next start autoscale = Returns (probe next start k, autoscale).
Proof.
  induction k as [|k IH]; intros start fuel Hfuel Hbefore Hk;
    (destruct fuel as [|fuel]; [lia|]); cbn [scan].
  - cbn in Hk. apply Z.eqb_neq in Hk. now rewrite Hk.
  - destruct (Hbefore 0%nat ltac:(lia)) as [H0 Hs]. cbn in H0, Hs.
    apply Z.eqb_eq in H0. apply Z.eqb_neq in Hs. rewrite H0, Hs.
    rewrite probe_succ_r. apply IH; [lia | | now rewrite <- probe_succ_r].
    intros j Hj. rewrite <- probe_succ_r. apply Hbefore. lia.
Qed.

(** A scan that meets its sentinel, unused, after [k] unused cells returns
    the sentinel and clears the flag. *)
Lemma scan_fails (usage : int_array) (sentinel : Z) (next : Z -> Z) (autoscale : Z) :
  forall (k : nat) (start : Z) (fuel : nat),
    (k < fuel)%nat ->
    (forall j, (j < k)%nat ->
               usage (probe next start j) = 0 /\ probe next start j <> sentinel) ->
    usage (probe next start k) = 0 -> probe next start k = sentinel ->
    scan fuel usage sentinel next start autoscale = Returns (sentinel, 0).
Proof.
  induction k as [|k IH]; intros start fuel Hfuel Hbefore Hk Hs;
    (destruct fuel as [|fuel]; [lia|]); cbn [scan].
  - cbn in Hk, Hs. subst sentinel. apply Z.eqb_eq in Hk. now rewrite Hk, Z.eqb_refl.
  - destruct (Hbefore 0%nat ltac:(lia)) as [H0 Hn]. cbn in H0, Hn.
    apply Z.eqb_eq in H0. apply Z.eqb_neq in Hn. rewrite H0, Hn.
    rewrite probe_succ_r in Hk, Hs. apply (IH (next start)); [lia | | exact Hk | exact Hs].
    intros j Hj. rewrite <- probe_succ_r. apply Hbefore. lia.
Qed.

(** Whatever a scan returns is a stop in the sense of [scan_stops]. *)
Lemma scan_returns_stop (usage : int_array) (sentinel : Z) (next : Z -> Z) (autoscale : Z) :
  forall (fuel : nat) (start : Z) (r : Z * Z),
    scan fuel usage sentinel next start autoscale = Returns r ->
    scan_stops usage sentinel next start autoscale r.
Proof.
  induction fuel as [|fuel IH]; intros start r; cbn [scan]; [discriminate|].
  destruct (usage start =? 0) eqn:Eu.
  - apply Z.eqb_eq in Eu. destruct (start =? sentinel) eqn:Es.
    + apply Z.eqb_eq in Es. intro H. inversion H; subst r.
      exists 0%nat. cbn. repeat split; lia.
    + apply Z.eqb_neq in Es. intro H. apply IH in H.
      now apply scan_stops_shift.
  - apply Z.eqb_neq in Eu. intro H. inversion H; subst r.
    exists 0%nat. cbn. repeat split; lia.
Qed.

(** A scan never sets the flag: it returns it as it was, or 0. *)
Lemma scan_flag (usage : int_array) (sentinel : Z) (next : Z -> Z) (autoscale : Z)
  (fuel : nat) (start : Z) (r : Z * Z) :
  scan fuel usage sentinel next start autoscale = Returns r ->
  snd r = autoscale \/ snd r = 0.
Proof.
  intro H. apply scan_returns_stop in H. destruct H as (k & _ & _ & [[_ H] | (_ & _ & H)]);
    [now left | now right].
Qed.



(** The grids after the loop of lines 203-217, cell by cell. *)
Lemma mark_usage_cells (pts : list ephemeris_point) (b : Z) :
  forall ra_usage dec_usage,
    fst (mark_usage (map ra pts) (map dec pts) ra_usage dec_usage) b
    = (if existsb (fun p => ra_bin_of (ra p) =? b) pts then 1 else ra_usage b)
    /\ snd (mark_usage (map ra pts) (map dec pts) ra_usage dec_usage) b
       = (if existsb (fun p => dec_bin_of (dec p) =? b) pts then 1 else dec_usage b).
Proof.
  induction pts as [|p rest IH]; intros ra_usage dec_usage; cbn [map mark_usage existsb].
  - split; reflexivity.
  - destruct (IH (array_set ra_usage (ra_bin_of (ra p)) 1)
                 (array_set dec_usage (dec_bin_of (dec p)) 1)) as [-> ->].
    unfold array_set.
    rewrite (Z.eqb_sym b (ra_bin_of (ra p))), (Z.eqb_sym b (dec_bin_of (dec p))).
    split.
    + destruct (ra_bin_of (ra p) =? b); cbn [orb]; [|reflexivity];
        match goal with |- (if ?c then _ else _) = _ => destruct c end; reflexivity.
    + destruct (dec_bin_of (dec p) =? b); cbn [orb]; [|reflexivity];
        match goal with |- (if ?c then _ else _) = _ => destruct c end; reflexivity.
Qed.

(** X9: the grids after the loop of lines 203-217: a cell of the zeroed
    arrays is in use exactly when a point of some track falls into it, and
    the words of the heap outside the arrays are written only by points
    whose index leaves the array. *)
Theorem marked_cells (pts : list ephemeris_point) (heap_ra heap_dec : int_array) (b : Z) :
  let grids := mark_usage (map ra pts) (map dec pts)
                          (zero_fill heap_ra ra_bins) (zero_fill heap_dec dec_bins) in
  (0 <= b < ra_bins ->
   (fst grids b <> 0 <-> exists p, In p pts /\ ra_bin_of (ra p) = b))
  /\ (0 <= b < dec_bins ->
      (snd grids b <> 0 <-> exists p, In p pts /\ dec_bin_of (dec p) = b))
  /\ (~ 0 <= b < ra_bins -> (forall p, In p pts -> ra_bin_of (ra p) <> b) ->
      fst grids b = heap_ra b)
  /\ (~ 0 <= b < dec_bins -> (forall p, In p pts -> dec_bin_of (dec p) <> b) ->
      snd grids b = heap_dec b).
Proof.
  intro grids. subst grids.
  destruct (mark_usage_cells pts b (zero_fill heap_ra ra_bins) (zero_fill heap_dec dec_bins))
    as [-> ->].
  assert (forall (f : ephemeris_point -> Z),
             existsb (fun p => f p =? b) pts = true <-> exists p, In p pts /\ f p = b) as Hex.
  { intro f. rewrite existsb_exists. split; intros (p & Hin & Hp); exists p; split;
      try assumption; now apply Z.eqb_eq. }
  assert (forall (f : ephemeris_point -> Z),
             (forall p, In p pts -> f p <> b) -> existsb (fun p => f p =? b) pts = false) as Hno.
  { intros f H. destruct (existsb (fun p => f p =? b) pts) eqn:E; [|reflexivity].
    apply Hex in E. destruct E as (p & Hin & Hp). now destruct (H p Hin). }
  unfold zero_fill. split; [|split; [|split]].
  - intro Hb. split.
    + destruct (existsb (fun p => ra_bin_of (ra p) =? b) pts) eqn:E.
      * intros _. now apply (Hex (fun p => ra_bin_of (ra p))).
      * replace ((0 <=? b) && (b <? ra_bins))%bool with true
          by (symmetry; apply andb_true_iff; split; [apply Z.leb_le | apply Z.ltb_lt]; lia).
        congruence.
    + intro Hp. apply (Hex (fun p => ra_bin_of (ra p))) in Hp. rewrite Hp. discriminate.
  - intro Hb. split.
    + destruct (existsb (fun p => dec_bin_of (dec p) =? b) pts) eqn:E.
      * intros _. now apply (Hex (fun p => dec_bin_of (dec p))).
      * replace ((0 <=? b) && (b <? dec_bins))%bool with true
          by (symmetry; apply andb_true_iff; split; [apply Z.leb_le | apply Z.ltb_lt]; lia).
        congruence.
    + intro Hp. apply (Hex (fun p => dec_bin_of (dec p))) in Hp. rewrite Hp. discriminate.
  - intros Hb Hmiss. rewrite (Hno (fun p => ra_bin_of (ra p))) by assumption.
    replace ((0 <=? b) && (b <? ra_bins))%bool with false; [reflexivity|].
    symmetry. apply andb_false_iff.
    destruct (Z_lt_le_dec b 0); [left; apply Z.leb_gt | right; apply Z.ltb_ge]; lia.
  - intros Hb Hmiss. rewrite (Hno (fun p => dec_bin_of (dec p))) by assumption.
    replace ((0 <=? b) && (b <? dec_bins))%bool with false; [reflexivity|].
    symmetry. apply andb_false_iff.
    destruct (Z_lt_le_dec b 0); [left; apply Z.leb_gt | right; apply Z.ltb_ge]; lia.
Qed.

(** X10: the scans over [dec_usage] find the lowest and the highest cell
    in use and leave autoscale alone; when no cell of the array is in use
    they end on their sentinels, cell 143 and cell 0, with autoscale
    cleared. *)
Theorem dec_scans_find_extremes (dec_usage : int_array) (autoscale : Z) (fuel : nat) :
  (Z.to_nat dec_bins <= fuel)%nat ->
  (forall lo, 0 <= lo < dec_bins -> dec_usage lo <> 0 ->
              (forall j, 0 <= j < lo -> dec_usage j = 0) ->
              scan_dec_min fuel dec_usage autoscale = Returns (lo, autoscale))
  /\ (forall hi, 0 <= hi < dec_bins -> dec_usage hi <> 0 ->
                 (forall j, hi < j < dec_bins -> dec_usage j = 0) ->
                 scan_dec_max fuel dec_usage autoscale = Returns (hi, autoscale))
  /\ ((forall j, 0 <= j < dec_bins -> dec_usage j = 0) ->
      scan_dec_min fuel dec_usage autoscale = Returns (dec_bins - 1, 0)
      /\ scan_dec_max fuel dec_usage autoscale = Returns (0, 0)).
Proof.
  intro Hfuel. unfold scan_dec_min, scan_dec_max. split; [|split].
  - intros lo Hlo Hused Hbelow.
    replace lo with (probe (fun b => b + 1) 0 (Z.to_nat lo)) at 1
      by (rewrite probe_dec_up; lia).
    apply scan_finds.
    + unfold dec_bins in *. lia.
    + intros j Hj. rewrite probe_dec_up. split; [apply Hbelow | unfold dec_bins in *]; lia.
    + rewrite probe_dec_up, Z2Nat.id by lia. exact Hused.
  - intros hi Hhi Hused Habove.
    replace hi with (probe (fun b => b - 1) (dec_bins - 1) (Z.to_nat (dec_bins - 1 - hi))) at 1
      by (rewrite probe_dec_down; lia).
    apply scan_finds.
    + unfold dec_bins in *. lia.
    + intros j Hj. rewrite probe_dec_down. split; [apply Habove | ]; unfold dec_bins in *; lia.
    + rewrite probe_dec_down. replace (dec_bins - 1 - Z.of_nat (Z.to_nat (dec_bins - 1 - hi))) with hi by lia.
      exact Hused.
  - intro Hnone. split.
    + apply (scan_fails _ _ _ _ (Z.to_nat (dec_bins - 1))).
      * unfold dec_bins in *. lia.
      * intros j Hj. rewrite probe_dec_up. split; [apply Hnone | ]; unfold dec_bins in *; lia.
      * rewrite probe_dec_up. apply Hnone. unfold dec_bins. lia.
      * rewrite probe_dec_up. unfold dec_bins. lia.
    + apply (scan_fails _ _ _ _ (Z.to_nat (dec_bins - 1))).
      * unfold dec_bins in *. lia.
      * intros j Hj. rewrite probe_dec_down. split; [apply Hnone | ]; unfold dec_bins in *; lia.
      * rewrite probe_dec_down. apply Hnone. unfold dec_bins. lia.
      * rewrite probe_dec_down. unfold dec_bins. lia.
Qed.

(** A bound on what one operation on [double] loses: binary64 rounds to
    nearest with a relative error of at most 2^-53, and of at most 2^-1075
    in all for a result below the normal range; both are below 1e-15. *)
Definition roundoff : double := 1 # 1000000000000000.

(** [rnd] maps the exact result of an operation to a [double] the
    hardware may deliver for it. *)
Definition rounds (rnd : double -> double) : Prop :=
  forall x, (Qabs (rnd x - x) <= roundoff * Qabs x + roundoff)%Q.

(** Lines 210 and 225 with the division and the product rounded; the
    constant [2 * M_PI] and the conversion of [ra_bins] are exact. *)
Definition ra_bin_rounded (rnd : double -> double) (ra : double) : Z :=
  int_of_double (rnd (rnd (ra / (2 * M_PI)) * double_of_int ra_bins))%Q.

(** Line 211 with the sum, the division and the product rounded; the
    constant [M_PI / 2] is exact. *)
Definition dec_bin_rounded (rnd : double -> double) (dec : double) : Z :=
  int_of_double (rnd (rnd (rnd (dec + M_PI / 2) / M_PI) * double_of_int dec_bins))%Q.

(** Lines 229 and 233 with the sum rounded. *)
Definition opposite_bin_rounded (rnd : double -> double) (ra_centroid : double) : Z :=
  ra_bin_rounded rnd (rnd (ra_centroid + M_PI)%Q).

Lemma exact_rounds : rounds (fun x => x).
Proof.
  intro x. setoid_replace (x - x)%Q with 0%Q by ring.
  pose proof (Qabs_nonneg x) as H. change (Qabs 0) with 0%Q.
  assert (0 <= roundoff * Qabs x)%Q by (apply Qmult_le_0_compat; [discriminate | exact H]).
  assert (0 <= roundoff)%Q by discriminate. lra.
Qed.

Lemma rounded_exactly (ra dec : double) :
  ra_bin_rounded (fun x => x) ra = ra_bin_of ra
  /\ dec_bin_rounded (fun x => x) dec = dec_bin_of dec
  /\ opposite_bin_rounded (fun x => x) ra = ra_bin_of (ra + M_PI)%Q.
Proof. repeat split. Qed.

Lemma rounds_within (rnd : double -> double) (x bound : double) :
  rounds rnd -> (- bound <= x)%Q -> (x <= bound)%Q ->
  (x - roundoff * bound - roundoff <= rnd x)%Q
  /\ (rnd x <= x + roundoff * bound + roundoff)%Q.
Proof.
  intros Hrnd Hlo Hhi.
  pose proof (Hrnd x) as H. apply Qabs_Qle_condition in H. destruct H as [H1 H2].
  assert (Qabs x <= bound)%Q as Hb by (apply Qabs_Qle_condition; split; assumption).
  assert (roundoff * Qabs x <= roundoff * bound)%Q as Hm
    by (apply Qmult_le_l; [reflexivity | exact Hb]).
  split; lra.
Qed.

Lemma int_of_double_truncates (x : double) (n : Z) :
  (-1 < x)%Q -> (x < inject_Z n)%Q -> 0 < n -> 0 <= int_of_double x < n.
Proof.
  destruct x as [p q]. unfold int_of_double, Qlt. cbn [Qnum Qden inject_Z].
  intros Hlo Hhi Hn. rewrite Z.mul_1_r in Hhi.
  destruct (Z.le_gt_cases 0 p) as [Hp | Hp].
  - rewrite Z.quot_div_nonneg by lia. split.
    + apply Z.div_pos; lia.
    + apply Z.div_lt_upper_bound; lia.
  - replace (Z.quot p (Zpos q)) with 0; [lia|].
    symmetry. rewrite <- (Z.opp_involutive p), Z.quot_opp_l by lia.
    rewrite Z.quot_small by lia. reflexivity.
Qed.

(** The distance the angles keep from the upper ends of their ranges. *)
Definition margin : double := 1 # 1000000000.

(** X11: with every operation of lines 210, 211, 225, 229 and 233 rounded
    as binary64 may round it, a right ascension in [0, 2 pi - 1e-9] and a
    declination in [-pi/2, pi/2 - 1e-9] give indices that are cells of the
    arrays, and a centroid at such a right ascension gives an opposite
    bin, before it is wrapped, that is not negative and below twice
    [ra_bins]: no turn of the loop of line 237 and one turn of the loop of
    line 238 at most.  Closer to the upper ends the rounding decides:
    [Binary64.boundary_binary64] has a declination below pi/2 with the
    index 144. *)
Theorem indices_in_range_with_rounding (rnd : double -> double) (ra dec : double) :
  rounds rnd ->
  (0 <= ra)%Q -> (ra <= 2 * M_PI - margin)%Q ->
  (- (M_PI / 2) <= dec)%Q -> (dec <= M_PI / 2 - margin)%Q ->
  0 <= ra_bin_rounded rnd ra < ra_bins
  /\ 0 <= dec_bin_rounded rnd dec < dec_bins
  /\ 0 <= opposite_bin_rounded rnd ra < 2 * ra_bins.
Proof.
  intros Hrnd Hr0 Hr1 Hd0 Hd1.
  assert (0 < M_PI)%Q as Hpos by reflexivity.
  assert (M_PI / 2 == M_PI * (1 # 2))%Q as Hhalf by reflexivity.
  unfold opposite_bin_rounded, ra_bin_rounded, dec_bin_rounded, margin, M_PI in *.
  split; [|split].
  - change (double_of_int ra_bins) with 192%Q.
    set (q0 := (ra / _)%Q).
    assert (0 <= q0)%Q as A0 by (apply Qle_shift_div_l; lra).
    assert (q0 <= 1 - (15 # 100000000000))%Q as A1.
    { apply Qle_shift_div_r; lra. }
    destruct (rounds_within rnd q0 1%Q Hrnd ltac:(lra) ltac:(lra)) as [B0 B1].
    destruct (rounds_within rnd (rnd q0 * 192)%Q 200%Q Hrnd) as [C0 C1];
      unfold roundoff in *; try lra.
    apply int_of_double_truncates; [| change (inject_Z ra_bins) with 192%Q | reflexivity];
      lra.
  - change (double_of_int dec_bins) with 144%Q.
    set (a0 := (dec + _)%Q).
    assert (0 <= a0)%Q as A0 by (subst a0; lra).
    assert (a0 <= (884279719003555 # 281474976710656) - (1 # 1000000000))%Q as A1
      by (subst a0; lra).
    destruct (rounds_within rnd a0 4%Q Hrnd ltac:(lra) ltac:(lra)) as [B0 B1].
    set (b0 := (rnd a0 / _)%Q).
    unfold roundoff in *.
    assert (- (1 # 100000000000000) <= b0)%Q as C0 by (apply Qle_shift_div_l; lra).
    assert (b0 <= 1 - (3 # 10000000000))%Q as C1 by (apply Qle_shift_div_r; lra).
    destruct (rounds_within rnd b0 1%Q Hrnd ltac:(lra) ltac:(lra)) as [D0 D1].
    destruct (rounds_within rnd (rnd b0 * 144)%Q 200%Q Hrnd) as [E0 E1];
      unfold roundoff in *; try lra.
    apply int_of_double_truncates; [| change (inject_Z dec_bins) with 144%Q | reflexivity];
      lra.
  - change (double_of_int ra_bins) with 192%Q.
    destruct (rounds_within rnd (ra + (884279719003555 # 281474976710656))%Q 10%Q Hrnd
                ltac:(lra) ltac:(lra)) as [A0 A1].
    set (r1 := rnd _) in *.
    set (q0 := (r1 / _)%Q).
    unfold roundoff in *.
    assert (0 <= q0)%Q as B0 by (apply Qle_shift_div_l; lra).
    assert (q0 <= (3 # 2))%Q as B1 by (apply Qle_shift_div_r; lra).
    destruct (rounds_within rnd q0 2%Q Hrnd ltac:(lra) ltac:(lra)) as [C0 C1].
    destruct (rounds_within rnd (rnd q0 * 192)%Q 300%Q Hrnd) as [D0 D1];
      unfold roundoff in *; try lra.
    apply int_of_double_truncates;
      [| change (inject_Z (2 * ra_bins)) with 384%Q | reflexivity]; lra.
Qed.

(** X12: what the scans hand on.  The cells for [ra_bin_max],
    [dec_bin_min] and [dec_bin_max] are always cells of their arrays.  The
    one for [ra_bin_min] is a cell of [ra_usage] or the index [ra_bins],
    and the latter only when the scan stopped at its first probe, one past
    an opposite bin in the last cell. *)
Theorem scan_results_in_range (ra_usage dec_usage : int_array)
  (ra_centre_bin ra_anti_centre_bin autoscale : Z) (fuel : nat) (r : Z * Z) :
  0 <= ra_anti_centre_bin < ra_bins ->
  (scan_ra_min fuel ra_usage ra_centre_bin ra_anti_centre_bin autoscale = Returns r ->
   0 <= fst r < ra_bins
   \/ (fst r = ra_bins /\ ra_anti_centre_bin = ra_bins - 1
       /\ (ra_usage ra_bins <> 0 \/ ra_centre_bin = ra_bins)))
  /\ (scan_ra_max fuel ra_usage ra_centre_bin ra_anti_centre_bin autoscale = Returns r ->
      0 <= fst r < ra_bins)
  /\ (scan_dec_min fuel dec_usage autoscale = Returns r -> 0 <= fst r < dec_bins)
  /\ (scan_dec_max fuel dec_usage autoscale = Returns r -> 0 <= fst r < dec_bins).
Proof.
  intro Ha. split; [|split; [|split]]; intro H; apply scan_returns_stop in H;
    destruct H as (k & Hk & Hbefore & Hend); rewrite Hk.
  - destruct k as [|k].
    + unfold probe in *. cbn [Nat.iter nat_rect] in *.
      destruct (Z.eq_dec (ra_anti_centre_bin + 1) ra_bins) as [E|E]; [right | left; lia].
      split; [exact E|]. split; [lia|].
      rewrite E in Hend. destruct Hend as [[Hu _] | (_ & Hs & _)]; [now left | right; congruence].
    + left. rewrite probe_ra_forward by lia.
      apply Z.mod_pos_bound. reflexivity.
  - now apply probe_ra_backward_range.
  - rewrite probe_dec_up.
    destruct (Z_lt_le_dec (Z.of_nat k) dec_bins) as [L|G]; [lia|]. exfalso.
    destruct (Hbefore (Z.to_nat (dec_bins - 1))) as [_ Hn]; [unfold dec_bins in *; lia|].
    rewrite probe_dec_up in Hn. unfold dec_bins in *. lia.
  - rewrite probe_dec_down.
    destruct (Z_lt_le_dec (Z.of_nat k) dec_bins) as [L|G]; [unfold dec_bins in *; lia|]. exfalso.
    destruct (Hbefore (Z.to_nat (dec_bins - 1))) as [_ Hn]; [unfold dec_bins in *; lia|].
    rewrite probe_dec_down in Hn. unfold dec_bins in *. lia.
Qed.

End CoverageFacts.

(** ** Further properties of the viewport planner *)

Module PlannerFacts.

Import Coverage Planner.

Lemma degrees_of_hours (x : Q) : (x * 180 / 12 == x * 15)%Q.
Proof. unfold Qdiv. change (/ 12)%Q with (1 # 12)%Q. ring. Qed.

Lemma degrees_of_dec_bin (b : Z) :
  (double_of_int b * 180 / double_of_int dec_bins - 90 == inject_Z b * (5 # 4) - 90)%Q.
Proof.
  unfold double_of_int, Qdiv. change (/ inject_Z dec_bins)%Q with (1 # 144)%Q. ring.
Qed.

(** The bounds in declination for two cells of [dec_usage], the lower one
    first. *)
Lemma dec_bounds (dec_bin_min dec_bin_max : Z) :
  0 <= dec_bin_min <= dec_bin_max -> dec_bin_max < dec_bins ->
  (-90 <= dec_min_of dec_bin_min)%Q /\ (dec_max_of dec_bin_max <= 90)%Q
  /\ (dec_min_of dec_bin_min + (5 # 4) <= dec_max_of dec_bin_max)%Q.
Proof.
  intros H1 H2. unfold dec_min_of, dec_max_of. rewrite !degrees_of_dec_bin.
  assert (inject_Z 0 <= inject_Z dec_bin_min)%Q as A by (rewrite <- Zle_Qle; lia).
  assert (inject_Z (dec_bin_max + 1) <= inject_Z dec_bins)%Q as B by (rewrite <- Zle_Qle; lia).
  assert (inject_Z (dec_bin_min + 1) <= inject_Z (dec_bin_max + 1))%Q as C
    by (rewrite <- Zle_Qle; lia).
  rewrite inject_Z_plus in C. change (inject_Z 0) with 0%Q in A.
  change (inject_Z 1) with 1%Q in C. change (inject_Z dec_bins) with 144%Q in B.
  repeat split; lra.
Qed.

(** The width of lines 300-303 is positive and at most 360. *)
Lemma angular_width_base_bounds (ra_min ra_max dec_min dec_max : double) :
  (ra_min < ra_max)%Q ->
  (0 < angular_width_base ra_min ra_max dec_min dec_max)%Q
  /\ (angular_width_base ra_min ra_max dec_min dec_max <= 360)%Q.
Proof.
  intro H. unfold angular_width_base.
  pose proof (MAX_ge_l ((ra_max - ra_min) * 180 / 12)%Q (dec_max - dec_min)%Q) as Hm.
  pose proof (degrees_of_hours (ra_max - ra_min)) as Hdeg.
  set (w := (MAX ((ra_max - ra_min) * 180 / 12) (dec_max - dec_min) * 1.1)%Q) in *.
  assert (w == MAX ((ra_max - ra_min) * 180 / 12) (dec_max - dec_min) * 1.1)%Q as Hw
    by reflexivity.
  destruct (dlt 350%Q w) eqn:E.
  - split; lra.
  - apply dlt_false in E. split; lra.
Qed.

(** The quotient of the spans has a positive denominator, and is positive
    when the declinations differ. *)
Lemma span_ratio_positive (ra_min ra_max dec_min dec_max : double) :
  (ra_min < ra_max)%Q -> (dec_min < dec_max)%Q ->
  (0 < fabs (ra_max - ra_min) * 180 / 12)%Q
  /\ (0 < span_ratio ra_min ra_max dec_min dec_max)%Q.
Proof.
  intros Hr Hd. unfold span_ratio, fabs.
  assert (Qabs (ra_max - ra_min) == ra_max - ra_min)%Q as Ea by (apply Qabs_pos; lra).
  assert (Qabs (dec_max - dec_min) == dec_max - dec_min)%Q as Eb by (apply Qabs_pos; lra).
  pose proof (degrees_of_hours (Qabs (ra_max - ra_min))) as Hdeg.
  assert (0 < Qabs (ra_max - ra_min) * 180 / 12)%Q as Hden by lra.
  split; [exact Hden|].
  apply Qlt_shift_div_l; [exact Hden | lra].
Qed.

(** The aspect of lines 361-363 lies between 0.5 and 1.5. *)
Lemma gnomonic_aspect_bounds (ratio : double) :
  let aspect := (ceil (ratio * 10) / 10)%Q in
  let aspect := if dlt aspect 0.5%Q then 0.5%Q else aspect in
  let aspect := if dlt 1.5%Q aspect then 1.5%Q else aspect in
  (0.5 <= aspect)%Q /\ (aspect <= 1.5)%Q.
Proof.
  cbv zeta. set (a := (ceil (ratio * 10) / 10)%Q).
  destruct (dlt a 0.5%Q) eqn:E1.
  - replace (dlt 1.5%Q 0.5%Q) with false by reflexivity. split; lra.
  - apply dlt_false in E1. destruct (dlt 1.5%Q a) eqn:E2.
    + split; lra.
    + apply dlt_false in E2. split; lra.
Qed.

(** X13: the viewport the autoscale block leaves, for bins the scans
    deliver with a cell in use in both arrays: the centre lies in
    [0h, 24h), the angular width in (0, 360], the aspect in (0, 1.5]; a
    gnomonic chart has an aspect of at least 0.5 and its centre
    declination is the middle of the window, within [-90, 90]; a
    rectangular chart has an aspect of at most 0.5, or of 1.  No division
    of the block is by zero. *)
Theorem autoscaled_viewport_bounds (fuel : nat) (s : chart_config)
  (ra_bin_min ra_bin_max dec_bin_min dec_bin_max : Z) :
  0 <= ra_bin_min <= ra_bins ->
  0 <= ra_bin_max < ra_bins ->
  0 <= dec_bin_min <= dec_bin_max ->
  dec_bin_max < dec_bins ->
  (2 <= fuel)%nat ->
  ephemeris_autoscale s <> 0 ->
  exists ra_min ra_max s',
    ra_hours fuel ra_bin_min ra_bin_max = Returns (ra_min, ra_max)
    /\ plan_viewport fuel s ra_bin_min ra_bin_max dec_bin_min dec_bin_max = Returns s'
    /\ (0 < fabs (ra_max - ra_min) * 180 / 12)%Q
    /\ (0 <= ra0 s')%Q /\ (ra0 s' < 24)%Q
    /\ (0 < angular_width s')%Q /\ (angular_width s' <= 360)%Q
    /\ (0 < aspect s')%Q /\ (aspect s' <= 1.5)%Q
    /\ (projection s' = SW_PROJECTION_GNOM \/ projection s' = SW_PROJECTION_FLAT)
    /\ (projection s' = SW_PROJECTION_GNOM ->
        (0.5 <= aspect s')%Q
        /\ dec0 s' = ((dec_min_of dec_bin_min + dec_max_of dec_bin_max) / 2)%Q
        /\ (-90 <= dec0 s')%Q /\ (dec0 s' <= 90)%Q)
    /\ (projection s' = SW_PROJECTION_FLAT ->
        (aspect s' <= 0.5)%Q \/ aspect s' = 1%Q).
Proof.
  intros Hmin Hmax Hdec Hdmax Hfuel Hauto.
  destruct (ra_hours_returns ra_bin_min ra_bin_max fuel Hmin Hmax Hfuel)
    as (ra_min & ra_max & Hr & _ & H0 & H1 & H2 & H3).
  destruct (centre_ra_returns ra_min ra_max fuel H0 H1 H2 H3 Hfuel) as (c & Hc & Hc0 & Hc1).
  destruct (dec_bounds dec_bin_min dec_bin_max Hdec Hdmax) as (Hd0 & Hd1 & Hd2).
  set (dec_min := dec_min_of dec_bin_min) in *.
  set (dec_max := dec_max_of dec_bin_max) in *.
  destruct (span_ratio_positive ra_min ra_max dec_min dec_max H2 ltac:(lra)) as [Hden Hratio].
  destruct (angular_width_base_bounds ra_min ra_max dec_min dec_max H2) as [Hw0 Hw1].
  exists ra_min, ra_max.
  unfold plan_viewport. rewrite Hr. cbn [bind].
  apply Z.eqb_neq in Hauto. rewrite Hauto. cbn [negb].
  unfold autoscale_block. rewrite Hc. cbn [bind]. fold dec_min dec_max.
  set (awb := angular_width_base ra_min ra_max dec_min dec_max) in *.
  set (ratio := span_ratio ra_min ra_max dec_min dec_max) in *.
  destruct (dlt 110%Q awb) eqn:Ewide.
  - destruct (dlt 0.5%Q ratio) eqn:Etall; eexists; (split; [reflexivity|]);
      (split; [reflexivity|]);
      cbn [projection angular_width aspect dec0 ra0 with_viewport];
      (split; [exact Hden|]); (split; [exact Hc0|]); (split; [exact Hc1|]);
      (split; [exact Hw0|]); (split; [exact Hw1|]).
    + split; [lra|]. split; [lra|]. split; [now right|].
      split; [discriminate|]. intros _. now right.
    + destruct (MIN_cases 0.5%Q (ratio * 1.8)%Q) as [[-> Hlt] | [-> Hle]].
      * split; [lra|]. split; [lra|]. split; [now right|].
        split; [discriminate|]. intros _. left. lra.
      * split; [lra|]. split; [lra|]. split; [now right|].
        split; [discriminate|]. intros _. left. lra.
  - pose proof (gnomonic_aspect_bounds ratio) as Ha. cbv zeta in Ha.
    set (aspect := if dlt 1.5%Q _ then 1.5%Q else _) in *.
    destruct Ha as [Ha0 Ha1].
    pose proof (MAX_ge_l ((ra_max - ra_min) * 180 / 12)%Q ((dec_max - dec_min) / aspect)%Q) as Hm.
    pose proof (degrees_of_hours (ra_max - ra_min)) as Hdeg.
    eexists. split; [reflexivity|]. split; [reflexivity|].
    cbn [projection angular_width Planner.aspect dec0 ra0 with_viewport].
    split; [exact Hden|]. split; [exact Hc0|]. split; [exact Hc1|].
    fold aspect.
    set (w := (MAX ((ra_max - ra_min) * 180 / 12) ((dec_max - dec_min) / aspect) * 1.1)%Q) in *.
    assert (w == MAX ((ra_max - ra_min) * 180 / 12) ((dec_max - dec_min) / aspect) * 1.1)%Q
      as Hw by reflexivity.
    assert (0 < (if dlt 350%Q w then 360%Q else w)
            /\ (if dlt 350%Q w then 360%Q else w) <= 360)%Q as [Hg0 Hg1].
    { destruct (dlt 350%Q w) eqn:E; [split; lra|]. apply dlt_false in E. split; lra. }
    split; [exact Hg0|]. split; [exact Hg1|].
    split; [lra|]. split; [lra|]. split; [now left|].
    split; [|discriminate]. intros _. split; [exact Ha0|]. split; [reflexivity|].
    pose proof (half (dec_min + dec_max)%Q) as Hh. split; lra.
Qed.

(** X14: the style the autoscale block leaves.  A rectangular chart has
    the Flamsteed labels and the names of deep-sky objects off, at most 25
    star labels, a magnitude limit of at most 5 and not above the
    caller's, a font of 0.95 times the caller's, and a width of 1.6 times
    the caller's, or of 1.6 times 0.7 with the aspect 1.  A gnomonic chart
    keeps the caller's width, font, magnitude limit, number of star labels
    and names of deep-sky objects, and has the Flamsteed labels as the
    caller or off.  The tracks, the autoscale flag and the canvas are not
    touched. *)
Theorem autoscaled_style (fuel : nat) (s s' : chart_config)
  (ra_bin_min ra_bin_max dec_bin_min dec_bin_max : Z) :
  plan_viewport fuel s ra_bin_min ra_bin_max dec_bin_min dec_bin_max = Returns s' ->
  ephemeris_autoscale s <> 0 ->
  (projection s' = SW_PROJECTION_FLAT \/ projection s' = SW_PROJECTION_GNOM)
  /\ (projection s' = SW_PROJECTION_FLAT ->
      star_flamsteed_labels s' = 0 /\ maximum_star_label_count s' = 25
      /\ dso_names s' = 0
      /\ (mag_min s' <= 5)%Q /\ (mag_min s' <= mag_min s)%Q
      /\ font_size s' = (font_size s * 0.95)%Q
      /\ ((aspect s' = 1%Q /\ width s' = (width s * 1.6 * 0.7)%Q)
          \/ ((aspect s' <= 0.5)%Q /\ width s' = (width s * 1.6)%Q)))
  /\ (projection s' = SW_PROJECTION_GNOM ->
      width s' = width s /\ font_size s' = font_size s /\ mag_min s' = mag_min s
      /\ maximum_star_label_count s' = maximum_star_label_count s
      /\ dso_names s' = dso_names s
      /\ (star_flamsteed_labels s' = star_flamsteed_labels s
          \/ star_flamsteed_labels s' = 0))
  /\ ephemeris_data s' = ephemeris_data s
  /\ ephemeris_autoscale s' = ephemeris_autoscale s
  /\ x_min s' = x_min s /\ x_max s' = x_max s
  /\ y_min s' = y_min s /\ y_max s' = y_max s
  /\ wlin s' = wlin s /\ line_width_base s' = line_width_base s.
Proof.
  unfold plan_viewport.
  destruct (ra_hours fuel ra_bin_min ra_bin_max) as [[ra_min ra_max]| |];
    cbn [bind]; try discriminate.
  intros H Hauto. apply Z.eqb_neq in Hauto. rewrite Hauto in H. cbn [negb] in H.
  unfold autoscale_block in H.
  destruct (centre_ra fuel ra_min ra_max) as [c| |]; cbn [bind] in H; try discriminate.
  set (awb := angular_width_base ra_min ra_max _ _) in *.
  set (ratio := span_ratio ra_min ra_max _ _) in *.
  destruct (dlt 110%Q awb) eqn:Ewide.
  - apply dlt_spec in Ewide.
    assert (dlt 22%Q awb = true) as E22 by (apply dlt_spec; lra).
    rewrite E22 in H.
    pose proof (MIN_le_l (mag_min s) 5%Q) as Hm1.
    pose proof (MIN_le_r (mag_min s) 5%Q) as Hm2.
    destruct (dlt 0.5%Q ratio) eqn:Etall; inversion H; subst s';
      cbn [projection star_flamsteed_labels maximum_star_label_count dso_names
           mag_min font_size aspect width ephemeris_data ephemeris_autoscale
           x_min x_max y_min y_max wlin line_width_base with_viewport];
      (split; [now left|]); (split; [|split; [discriminate | repeat split]]);
      intros _; repeat split; try assumption.
    + now left.
    + right. split; [apply MIN_le_l | reflexivity].
  - inversion H; subst s'.
    cbn [projection star_flamsteed_labels maximum_star_label_count dso_names
         mag_min font_size aspect width ephemeris_data ephemeris_autoscale
         x_min x_max y_min y_max wlin line_width_base with_viewport].
    split; [now right|]. split; [discriminate|]. split; [|repeat split].
    intros _. repeat split. destruct (dlt 22%Q awb); [now right | now left].
Qed.

End PlannerFacts.

(** ** Further properties of [ephemerides_fetch] as a whole *)

Module FetchFacts.

Import Loader Coverage Planner.



Section FetchFacts.

Variable get_float : string -> double.
Variable next_word : string -> string.
Variable inv_julian_day : double -> Z * Z * Z.
Variable get_month_name : Z -> string.
Variable find_mean_position : list double -> list double -> double * double.


(** X15: with autoscale off at the call, [ephemerides_fetch] only loads
    the tracks: the chart it returns is the chart of the caller with
    [ephemeris_data] assigned, whatever the tracks and the scans. *)
Theorem fetch_with_autoscale_off (fuel : nat) (ra_heap dec_heap : int_array)
  (s s' : chart_config) (traces : list trace) :
  ephemeris_autoscale s = 0 ->
  (Fetch.ephemerides_fetch get_float next_word inv_julian_day get_month_name find_mean_position) fuel ra_heap dec_heap s traces = Returns s' ->
  exists data total,
    (Loader.fetch_tracks get_float next_word inv_julian_day get_month_name) traces = Returns (data, total)
    /\ s' = with_ephemeris s data 0.
Proof.
  intro Hoff. unfold Fetch.ephemerides_fetch.
  destruct ((Loader.fetch_tracks get_float next_word inv_julian_day get_month_name) traces) as [[data total]| |]; cbn [bind]; try discriminate.
  destruct (mark_usage _ _ _ _) as [ra_usage dec_usage].
  destruct (find_mean_position _ _) as [ra_centroid dec_centroid].
  destruct (wrap_ra_bin fuel _) as [anti| |]; cbn [bind]; try discriminate.
  rewrite Hoff.
  destruct (scan_ra_min fuel _ _ _ _) as [[b1 a1]| |] eqn:E1; cbn [bind]; try discriminate.
  apply CoverageFacts.scan_flag in E1. cbn [snd] in E1.
  assert (a1 = 0) as -> by (destruct E1; assumption).
  destruct (scan_ra_max fuel _ _ _ _) as [[b2 a2]| |] eqn:E2; cbn [bind]; try discriminate.
  apply CoverageFacts.scan_flag in E2. cbn [snd] in E2.
  assert (a2 = 0) as -> by (destruct E2; assumption).
  destruct (scan_dec_min fuel _ _) as [[b3 a3]| |] eqn:E3; cbn [bind]; try discriminate.
  apply CoverageFacts.scan_flag in E3. cbn [snd] in E3.
  assert (a3 = 0) as -> by (destruct E3; assumption).
  destruct (scan_dec_max fuel _ _) as [[b4 a4]| |] eqn:E4; cbn [bind]; try discriminate.
  apply CoverageFacts.scan_flag in E4. cbn [snd] in E4.
  assert (a4 = 0) as -> by (destruct E4; assumption).
  intro Hplan. apply Fetch.plan_viewport_frame in Hplan. destruct Hplan as [_ Hkeep].
  exists data, total. split; [reflexivity|]. now apply Hkeep.
Qed.




End FetchFacts.

End FetchFacts.

(** ** Further properties of the label score *)

Module PriorityFacts.

Import Priority.

(** The score lies in a band of width 4.4e-6 below the base and the index
    term; a major label lies in the lower part of it, a minor label in the
    upper part. *)
Lemma priority_band (i sub day month : Z) :
  let base := ((123 # 10000) + (1 # 1000000000000) * inject_Z i)%Q in
  (sub = 0 -> (base - (44 # 10000000) <= priority i sub day month)%Q
              /\ (priority i sub day month <= base - (4 # 1000000))%Q)
  /\ (sub <> 0 -> (base - (4 # 10000000) <= priority i sub day month)%Q
                  /\ (priority i sub day month <= base)%Q).
Proof.
  intro base. subst base. unfold priority. split.
  - intros ->.
    destruct (day =? 14); destruct (month =? 1) eqn:E1; destruct (month =? 7) eqn:E7;
      destruct ((month =? 4) || (month =? 11))%bool eqn:E4;
      try (apply Z.eqb_eq in E1; subst month; discriminate);
      try (apply Z.eqb_eq in E7; subst month; discriminate);
      flags_to_Q; split; lra.
  - intro Hsub. apply Z.eqb_neq in Hsub. rewrite Hsub.
    destruct (day =? 14); destruct (month =? 1) eqn:E1; destruct (month =? 7) eqn:E7;
      destruct ((month =? 4) || (month =? 11))%bool eqn:E4;
      try (apply Z.eqb_eq in E1; subst month; discriminate);
      try (apply Z.eqb_eq in E7; subst month; discriminate);
      flags_to_Q; split; lra.
Qed.

Lemma priority_major_lt_minor (i j sub day month day' month' : Z) :
  sub <> 0 -> i < j + 3600000 ->
  (priority i 0 day month < priority j sub day' month')%Q.
Proof.
  intros Hsub Hij.
  destruct (priority_band i 0 day month) as [Hmajor _].
  destruct (priority_band j sub day' month') as [_ Hminor].
  specialize (Hmajor eq_refl). specialize (Hminor Hsub). cbv zeta in Hmajor, Hminor.
  assert (inject_Z i < inject_Z j + 3600000)%Q as H.
  { change 3600000%Q with (inject_Z 3600000). rewrite <- inject_Z_plus.
    rewrite <- Zlt_Qlt. exact Hij. }
  lra.
Qed.

(** X18: what the score orders.  With the same fields an earlier point
    scores lower than a later one.  A major label scores lower than a minor
    label whatever their days and months, as long as it comes less than
    3,600,000 points after it; more than 3,600,000 points after it, a
    major label of February 1 scores higher than a minor label of January
    14.  Each of these differences is 1e-12 at least. *)
Theorem priority_order (i j sub day month day' month' : Z) :
  sub <> 0 -> i < j + 3600000 ->
  (priority i 0 day month < priority j sub day' month')%Q
  /\ (priority j sub 14 1 < priority (j + 3600001) 0 1 2)%Q
  /\ (forall k s d m, i < k -> (priority i s d m < priority k s d m)%Q).
Proof.
  intros Hsub Hij. split; [now apply priority_major_lt_minor|]. split.
  - unfold priority. apply Z.eqb_neq in Hsub. rewrite Hsub. flags_to_Q.
    unfold double_of_int. rewrite inject_Z_plus.
    change (inject_Z 3600001) with 3600001%Q. lra.
  - intros k s d m Hik. rewrite !priority_split.
    assert (inject_Z i < inject_Z k)%Q as H by (now rewrite <- Zlt_Qlt).
    lra.
Qed.

End PriorityFacts.

(** ** Further properties of [plot_ephemeris] *)

Module RendererFacts.

Import Loader Renderer.

(** A page with nothing on it. *)
Definition no_page : cairo_page := {| exclusion_regions := []; labels := [] |}.

(** What lines 483-549 require of a buffered label: four positions without
    rotation, the first and the third with one pair of alignments, the
    second and the fourth with the opposite pair, the pair not (0, 0); the
    two pairs of anchors with the same midpoint, the second pair 1.85 / 1.5
    times as far apart as the first; the font size and the margin of a
    major or of a minor label. *)
Definition well_placed (l : buffered_label) : Prop :=
  exists a b c d,
    possible_positions l = [a; b; c; d]
    /\ (rotation a = 0%Q /\ rotation b = 0%Q /\ rotation c = 0%Q /\ rotation d = 0%Q)
    /\ (h_align c = h_align a /\ v_align c = v_align a)
    /\ (h_align b = - h_align a /\ v_align b = - v_align a)
    /\ (h_align d = - h_align a /\ v_align d = - v_align a)
    /\ (-1 <= h_align a <= 1 /\ -1 <= v_align a <= 1)
    /\ (h_align a <> 0 \/ v_align a <> 0)
    /\ (x a + x b == x c + x d)%Q /\ (y a + y b == y c + y d)%Q
    /\ ((x c - x d) * 1.5 == (x a - x b) * 1.85)%Q
    /\ ((y c - y d) * 1.5 == (y a - y b) * 1.85)%Q
    /\ ((font_size l = 1.7%Q /\ extra_margin l = 0%Q)
        \/ (font_size l = 1.3%Q /\ extra_margin l = 2%Q)).

Lemma alignment_cases (theta_deg : double) :
  In (alignment theta_deg)
     [(0, -1); (1, -1); (1, 0); (1, 1); (0, 1); (-1, 1); (-1, 0); (-1, -1)].
Proof.
  unfold alignment.
  repeat match goal with
         | |- context [if ?c then _ else _] => destruct c
         end; cbn; tauto.
Qed.

Section RendererFacts.

Variable plane_project : Planner.chart_config -> double -> double -> double * double.
Variable atan2 : double -> double -> double.
Variable sin : double -> double.
Variable cos : double -> double.
Variable gsl_finite : double -> bool.

Variable s : Planner.chart_config.

(** The canvas coordinates of a point (lines 412 and 439). *)
Definition project (pt : ephemeris_point) : double * double :=
  plane_project s (ra pt) (dec pt).

(** The negation of the test of lines 413 and 464, for a point. *)
Definition on_canvas (pt : ephemeris_point) : bool :=
  negb (off_canvas s (fst (project pt)) (snd (project pt))).

(** Line 446. *)
Definition finite_or_zero (theta : double) : double :=
  if negb (gsl_finite theta) then 0%Q else theta.

(** The text of a point the second loop buffers a label for. *)
Definition text_on_canvas (pt : ephemeris_point) : list string :=
  match text_label pt with
  | Some text => if on_canvas pt then [text] else []
  | None => []
  end.

(** The direction of each tick (lines 442-449): the index, the point and
    [theta] after line 446, from the [initial_theta] the first loop left
    and the coordinates [last_x], [last_y] held on entry. *)
Fixpoint tick_directions (pts : list ephemeris_point) (i : Z) (theta0 : double)
  (prev : double * double) : list (Z * ephemeris_point * double) :=
  match pts with
  | [] => []
  | pt :: rest =>
      let theta :=
        finite_or_zero
          (if i <? 2 then theta0
           else atan2 (snd (project pt) - snd prev)%Q (fst (project pt) - fst prev)%Q) in
      (i, pt, theta) :: tick_directions rest (i + 1) theta0 (project pt)
  end.

(** The calls and the label one tick adds. *)
Definition tick_of (d : Z * ephemeris_point * double) : list draw_call * list buffered_label :=
  let '(i, pt, theta) := d in
  match text_label pt with
  | Some text =>
      let r := (Renderer.draw_tick sin cos) s pt text i (fst (project pt)) (snd (project pt)) theta [] no_page in
      (fst r, labels (snd r))
  | None => ([], [])
  end.

(** The label of lines 515-549 for a point with a text, at index [i] and
    with direction [theta]. *)
Definition label_at (pt : ephemeris_point) (text : string) (i : Z) (theta : double)
  : buffered_label :=
  let tick := graph_coords_tick_len s pt in
  let px := fst (project pt) in
  let py := snd (project pt) in
  let h := fst (alignment (theta * 180 / Coverage.M_PI)%Q) in
  let v := snd (alignment (theta * 180 / Coverage.M_PI)%Q) in
  {| label := text;
     possible_positions :=
       [{| x := (px + 1.5 * tick * sin theta)%Q; y := (py - 1.5 * tick * cos theta)%Q;
           rotation := 0%Q; h_align := h; v_align := v |};
        {| x := (px - 1.5 * tick * sin theta)%Q; y := (py + 1.5 * tick * cos theta)%Q;
           rotation := 0%Q; h_align := - h; v_align := - v |};
        {| x := (px + 1.85 * tick * sin theta)%Q; y := (py - 1.85 * tick * cos theta)%Q;
           rotation := 0%Q; h_align := h; v_align := v |};
        {| x := (px - 1.85 * tick * sin theta)%Q; y := (py + 1.85 * tick * cos theta)%Q;
           rotation := 0%Q; h_align := - h; v_align := - v |}];
     font_size := if negb (sub_month_label pt =? 0) then 1.3%Q else 1.7%Q;
     extra_margin := if negb (sub_month_label pt =? 0) then 2%Q else 0%Q;
     priority := Priority.priority i (sub_month_label pt) (day pt) (month pt) |}.

(** The direction the first loop leaves in [initial_theta] (line 419): set
    once, at index 2, when the third point lies on the canvas, from the
    last of the first two points that lay on the canvas, and from (0, 0)
    when neither did. *)
Definition initial_direction (pts : list ephemeris_point) : double :=
  match pts with
  | p0 :: p1 :: p2 :: _ =>
      if on_canvas p2 then
        let from := if on_canvas p1 then project p1
                    else if on_canvas p0 then project p0
                    else (0%Q, 0%Q) in
        atan2 (snd (project p2) - snd from)%Q (fst (project p2) - fst from)%Q
      else 0%Q
  | _ => 0%Q
  end.

Lemma draw_tick_appends (pt : ephemeris_point) (text : string) (i : Z) (theta : double)
  (ld : list draw_call) (page : cairo_page) :
  text_label pt = Some text ->
  let r := (Renderer.draw_tick sin cos) s pt text i (fst (project pt)) (snd (project pt)) theta ld page in
  fst r = (ld ++ fst (tick_of (i, pt, theta)))%list
  /\ labels (snd r) = (labels page ++ snd (tick_of (i, pt, theta)))%list.
Proof.
  intro Htext. cbv zeta. unfold tick_of. rewrite Htext. unfold draw_tick.
  destruct (off_canvas s _ _).
  - cbn. now rewrite !app_nil_r.
  - destruct (alignment _) as [h v]. cbn. split; reflexivity.
Qed.

Lemma tick_of_cases (i : Z) (pt : ephemeris_point) (theta : double) :
  let tick := graph_coords_tick_len s pt in
  match text_label pt with
  | Some text =>
      if on_canvas pt then
        tick_of (i, pt, theta)
        = ([ld_pen_up; ld_label;
            ld_point (fst (project pt) + tick * sin theta)%Q
                     (snd (project pt) - tick * cos theta)%Q;
            ld_point (fst (project pt) - tick * sin theta)%Q
                     (snd (project pt) + tick * cos theta)%Q;
            ld_pen_up],
           [label_at pt text i theta])
      else tick_of (i, pt, theta) = ([], [])
  | None => tick_of (i, pt, theta) = ([], [])
  end.
Proof.
  unfold tick_of, on_canvas, label_at.
  destruct (text_label pt) as [text|]; [|reflexivity].
  unfold draw_tick.
  destruct (off_canvas s _ _); cbn [negb]; [reflexivity|].
  destruct (alignment _) as [h v]. reflexivity.
Qed.

Lemma draw_ticks_out (pts : list ephemeris_point) :
  forall (i : Z) (st : tick_state) (ld : list draw_call) (page : cairo_page),
    let r := (Renderer.draw_ticks plane_project atan2 sin cos gsl_finite) s pts i st ld page in
    let dirs := tick_directions pts i (initial_theta st) (last_x st, last_y st) in
    snd (fst r) = (ld ++ flat_map (fun d => fst (tick_of d)) dirs)%list
    /\ labels (snd r) = (labels page ++ flat_map (fun d => snd (tick_of d)) dirs)%list.
Proof.
  induction pts as [|pt rest IH]; intros i st ld page; cbn [draw_ticks tick_directions flat_map].
  - cbn. now rewrite !app_nil_r.
  - cbv zeta. unfold project at 1 2 3. fold (project pt).
    destruct (plane_project s (ra pt) (dec pt)) as [px py] eqn:Ep.
    assert (project pt = (px, py)) as Hp by exact Ep.
    rewrite Hp. cbn [fst snd].
    set (theta := if negb (gsl_finite _) then _ else _).
    assert (finite_or_zero
              (if i <? 2 then initial_theta st
               else atan2 (py - last_y st)%Q (px - last_x st)%Q) = theta) as -> by reflexivity.
    destruct (text_label pt) as [text|] eqn:Et.
    + pose proof (fun page => draw_tick_appends pt text i theta ld page Et) as Hd0.
      pose proof (Hd0
                    {| exclusion_regions :=
                         (exclusion_regions page
                          ++ [region_around px py (graph_coords_tick_len s pt * 0.1)%Q])%list;
                       labels := labels page |}) as Hd.
      cbv zeta in Hd. rewrite Hp in Hd. cbn [fst snd labels] in Hd.
      destruct ((Renderer.draw_tick sin cos) s pt text i px py theta ld _) as [ld' page'].
      cbn [fst snd] in Hd. destruct Hd as [Hld Hlab].
      specialize (IH (i + 1) {| last_x := px; last_y := py; initial_theta := initial_theta st |}
                     ld' page').
      cbv zeta in IH. cbn [last_x last_y initial_theta] in IH.
      destruct IH as [IH1 IH2]. rewrite IH1, IH2, Hld, Hlab.
      rewrite <- !app_assoc. split; reflexivity.
    + specialize (IH (i + 1) {| last_x := px; last_y := py; initial_theta := initial_theta st |}
                     ld {| exclusion_regions :=
                             (exclusion_regions page
                              ++ [region_around px py (graph_coords_tick_len s pt * 0.1)%Q])%list;
                           labels := labels page |}).
      cbv zeta in IH. cbn [last_x last_y initial_theta labels] in IH.
      destruct IH as [IH1 IH2]. rewrite IH1, IH2.
      unfold tick_of at 2 5. rewrite Et. cbn [fst snd app]. split; reflexivity.
Qed.

Lemma tick_directions_index (pts : list ephemeris_point) :
  forall (i : Z) (theta0 : double) (prev : double * double) d,
    In d (tick_directions pts i theta0 prev) ->
    i <= fst (fst d) < i + Z.of_nat (List.length pts) /\ In (snd (fst d)) pts.
Proof.
  induction pts as [|pt rest IH]; intros i theta0 prev d; cbn [tick_directions].
  - intros [].
  - intros [<- | Hin].
    + cbn [fst snd List.length In]. split; [lia | now left].
    + apply IH in Hin. cbn [List.length In]. split; [lia | now right].
Qed.

Lemma tick_directions_nth (pts : list ephemeris_point) :
  forall (k : nat) (i : Z) (theta0 : double) (prev : double * double) (q : ephemeris_point),
    nth_error pts k = Some q ->
    nth_error (tick_directions pts i theta0 prev) k
    = Some (i + Z.of_nat k, q,
            finite_or_zero
              (if i + Z.of_nat k <? 2 then theta0
               else
                 let from := match k with
                             | O => prev
                             | S k' => match nth_error pts k' with
                                       | Some p => project p
                                       | None => prev
                                       end
                             end in
                 atan2 (snd (project q) - snd from)%Q (fst (project q) - fst from)%Q)).
Proof.
  induction pts as [|pt rest IH]; intros k i theta0 prev q Hq.
  - destruct k; discriminate.
  - destruct k as [|k]; cbn [nth_error tick_directions] in *.
    + inversion Hq; subst. now rewrite Z.add_0_r.
    + rewrite (IH k (i + 1) theta0 (project pt) q Hq).
      replace (i + 1 + Z.of_nat k) with (i + Z.of_nat (S k)) by lia.
      destruct k as [|k]; [reflexivity|].
      cbn [nth_error].
      destruct (nth_error rest k) as [p|] eqn:Ek; [reflexivity|].
      apply nth_error_None in Ek.
      assert (nth_error rest (S k) = None) as Hnone by (apply nth_error_None; lia).
      congruence.
Qed.

Lemma flat_map_in_nth {A B : Type} (f : A -> list B) (l : list A) (k : nat) (a : A) (b : B) :
  nth_error l k = Some a -> In b (f a) -> In b (flat_map f l).
Proof.
  intros Hn Hb. apply in_flat_map. exists a. split; [|exact Hb].
  now apply nth_error_In with k.
Qed.

Lemma trace_line_out (pts : list ephemeris_point) :
  forall (i : Z) (st : tick_state) (ld : list draw_call),
    snd ((Renderer.trace_line plane_project atan2) s pts i st ld)
    = (ld ++ map (fun pt => ld_point (fst (project pt)) (snd (project pt)))
                 (filter on_canvas pts))%list.
Proof.
  induction pts as [|pt rest IH]; intros i st ld; cbn [trace_line filter map].
  - cbn. now rewrite app_nil_r.
  - assert (project pt = plane_project s (ra pt) (dec pt)) as Hp by reflexivity.
    unfold on_canvas at 1. rewrite Hp.
    destruct (plane_project s (ra pt) (dec pt)) as [px py]. cbn [fst snd].
    destruct (off_canvas s px py); cbn [negb].
    + apply IH.
    + rewrite IH. cbn [map]. rewrite Hp. cbn [fst snd]. now rewrite <- app_assoc.
Qed.

Lemma trace_line_late (pts : list ephemeris_point) :
  forall (i : Z) (st : tick_state) (ld : list draw_call),
    2 < i -> initial_theta (fst ((Renderer.trace_line plane_project atan2) s pts i st ld)) = initial_theta st.
Proof.
  induction pts as [|pt rest IH]; intros i st ld Hi; cbn [trace_line]; [reflexivity|].
  destruct (plane_project s (ra pt) (dec pt)) as [px py].
  destruct (off_canvas s px py).
  - apply IH. lia.
  - rewrite IH by lia. cbn [initial_theta].
    destruct (i =? 2) eqn:E; [apply Z.eqb_eq in E; lia | reflexivity].
Qed.

Lemma trace_line_initial (pts : list ephemeris_point) (ld : list draw_call) :
  initial_theta (fst ((Renderer.trace_line plane_project atan2) s pts 0
                        {| last_x := 0%Q; last_y := 0%Q; initial_theta := 0%Q |} ld))
  = initial_direction pts.
Proof.
  unfold initial_direction.
  destruct pts as [|p0 [|p1 [|p2 rest]]]; cbn [trace_line]; try reflexivity.
  - destruct (plane_project s (ra p0) (dec p0)) as [x0 y0].
    destruct (off_canvas s x0 y0); reflexivity.
  - destruct (plane_project s (ra p0) (dec p0)) as [x0 y0].
    destruct (plane_project s (ra p1) (dec p1)) as [x1 y1].
    destruct (off_canvas s x0 y0), (off_canvas s x1 y1); reflexivity.
  - unfold on_canvas, project.
    destruct (plane_project s (ra p0) (dec p0)) as [x0 y0].
    destruct (plane_project s (ra p1) (dec p1)) as [x1 y1].
    destruct (plane_project s (ra p2) (dec p2)) as [x2 y2].
    cbn [fst snd].
    destruct (off_canvas s x0 y0), (off_canvas s x1 y1), (off_canvas s x2 y2);
      cbn [negb Z.add Z.eqb Pos.add Pos.succ Pos.eqb last_x last_y initial_theta fst snd];
      rewrite trace_line_late by lia; reflexivity.
Qed.

(** What [plot_ephemeris] returns, in terms of the ticks. *)
Lemma plot_ephemeris_out (ld : list draw_call) (page : cairo_page) (e : ephemeris) :
  exists prev,
    let dirs := tick_directions (data e) 0 (initial_direction (data e)) prev in
    fst ((Renderer.plot_ephemeris plane_project atan2 sin cos gsl_finite) s ld page e)
    = (ld ++ [ld_pen_up; ld_label]
          ++ map (fun pt => ld_point (fst (project pt)) (snd (project pt)))
                 (filter on_canvas (data e))
          ++ [ld_pen_up] ++ flat_map (fun d => fst (tick_of d)) dirs)%list
    /\ labels (snd ((Renderer.plot_ephemeris plane_project atan2 sin cos gsl_finite) s ld page e))
       = (labels page ++ flat_map (fun d => snd (tick_of d)) dirs)%list.
Proof.
  unfold plot_ephemeris.
  pose proof (trace_line_out (data e) 0
                {| last_x := 0%Q; last_y := 0%Q; initial_theta := 0%Q |}
                (ld ++ [ld_pen_up; ld_label])%list) as Hline.
  pose proof (trace_line_initial (data e) (ld ++ [ld_pen_up; ld_label])%list) as Htheta.
  destruct ((Renderer.trace_line plane_project atan2) s (data e) 0 _ _) as [st ld'].
  cbn [fst snd] in Hline, Htheta.
  pose proof (draw_ticks_out (data e) 0 st (ld' ++ [ld_pen_up])%list page) as Hticks.
  cbv zeta in Hticks.
  destruct ((Renderer.draw_ticks plane_project atan2 sin cos gsl_finite) s (data e) 0 st _ page) as [[st' ld''] page'].
  cbn [fst snd] in Hticks |- *. destruct Hticks as [H1 H2].
  exists (last_x st, last_y st). cbv zeta. rewrite <- Htheta.
  split; [|exact H2].
  rewrite H1, Hline. now rewrite <- !app_assoc.
Qed.

Lemma label_at_well_placed (pt : ephemeris_point) (text : string) (i : Z) (theta : double) :
  well_placed (label_at pt text i theta).
Proof.
  unfold well_placed, label_at. cbn [possible_positions font_size extra_margin].
  do 4 eexists. split; [reflexivity|].
  cbn [rotation h_align v_align x y].
  pose proof (alignment_cases (theta * 180 / Coverage.M_PI)%Q) as Ha.
  destruct (alignment _) as [h v]. cbn [fst snd].
  assert ((-1 <= h <= 1 /\ -1 <= v <= 1) /\ (h <> 0 \/ v <> 0)) as [Hrange Hnonzero].
  { cbn [In] in Ha.
    repeat (destruct Ha as [Ha | Ha];
            [inversion Ha; subst; split; [lia | (left; lia) || (right; lia)]|]).
    destruct Ha. }
  split; [repeat split|]. split; [split; reflexivity|].
  split; [split; reflexivity|]. split; [split; reflexivity|].
  split; [exact Hrange|]. split; [exact Hnonzero|].
  split; [ring|]. split; [ring|]. split; [ring|]. split; [ring|].
  destruct (negb (sub_month_label pt =? 0)); [right | left]; split; reflexivity.
Qed.

Lemma tick_labels_cases (d : Z * ephemeris_point * double) (l : buffered_label) :
  In l (snd (tick_of d)) ->
  exists text, text_label (snd (fst d)) = Some text
               /\ on_canvas (snd (fst d)) = true
               /\ l = label_at (snd (fst d)) text (fst (fst d)) (snd d).
Proof.
  destruct d as [[i pt] theta]. cbn [fst snd].
  pose proof (tick_of_cases i pt theta) as H. cbv zeta in H.
  destruct (text_label pt) as [text|]; [destruct (on_canvas pt)|]; rewrite H; cbn [snd In];
    try tauto.
  intros [<- | []]. exists text. repeat split.
Qed.

(** X19: the calls [plot_ephemeris] makes on the line drawer.  After the
    calls made before, it lifts the pen and starts a label, sends one
    [ld_point] for each point of the track on the canvas, in the order of
    the track and at its canvas coordinates, lifts the pen, and then makes
    five calls for each point that has a text and lies on the canvas.  The
    last call lifts the pen. *)
Theorem line_drawer_calls (ld : list draw_call) (page : cairo_page) (e : ephemeris) :
  exists ticks front,
    fst ((Renderer.plot_ephemeris plane_project atan2 sin cos gsl_finite) s ld page e)
    = (ld ++ [ld_pen_up; ld_label]
          ++ map (fun pt => ld_point (fst (project pt)) (snd (project pt)))
                 (filter on_canvas (data e))
          ++ [ld_pen_up] ++ ticks)%list
    /\ List.length ticks
       = (5 * List.length (flat_map text_on_canvas (data e)))%nat
    /\ fst ((Renderer.plot_ephemeris plane_project atan2 sin cos gsl_finite) s ld page e) = (front ++ [ld_pen_up])%list.
Proof.
  destruct (plot_ephemeris_out ld page e) as (prev & Hld & _). cbv zeta in Hld.
  set (theta0 := initial_direction (data e)) in Hld. clearbody theta0.
  rewrite Hld. clear Hld.
  exists (flat_map (fun d => fst (tick_of d)) (tick_directions (data e) 0 theta0 prev)).
  assert (forall pts i prev,
            let ticks := flat_map (fun d => fst (tick_of d)) (tick_directions pts i theta0 prev) in
            List.length ticks = (5 * List.length (flat_map text_on_canvas pts))%nat
            /\ (ticks = [] \/ exists f, ticks = (f ++ [ld_pen_up])%list)) as Hticks.
  { induction pts as [|pt rest IH]; intros i p; cbn [tick_directions flat_map].
    - split; [reflexivity | now left].
    - set (theta := finite_or_zero _).
      specialize (IH (i + 1) (project pt)). cbv zeta in IH. destruct IH as [IHn IHl].
      pose proof (tick_of_cases i pt theta) as Hc. cbv zeta in Hc.
      unfold text_on_canvas at 1.
      destruct (text_label pt) as [text|]; [destruct (on_canvas pt)|]; rewrite Hc;
        cbn [fst]; rewrite ?app_nil_l; try (split; assumption).
      rewrite !length_app, IHn. cbn [List.length]. split; [lia|]. right.
      destruct IHl as [-> | [f ->]].
      + eexists [_; _; _; _]. reflexivity.
      + eexists (_ :: _ :: _ :: _ :: _ :: f). reflexivity. }
  destruct (Hticks (data e) 0 prev) as [Hn Hl]. cbv zeta in Hn, Hl.
  destruct Hl as [Hl | [f Hl]].
  - rewrite Hl in *.
    exists (ld ++ [ld_pen_up; ld_label]
            ++ map (fun pt => ld_point (fst (project pt)) (snd (project pt)))
                   (filter on_canvas (data e)))%list.
    split; [reflexivity|]. split; [exact Hn|].
    rewrite app_nil_r. now rewrite <- !app_assoc.
  - exists (ld ++ [ld_pen_up; ld_label]
            ++ map (fun pt => ld_point (fst (project pt)) (snd (project pt)))
                   (filter on_canvas (data e)) ++ [ld_pen_up] ++ f)%list.
    split; [reflexivity|]. split; [exact Hn|].
    rewrite Hl. now rewrite <- !app_assoc.
Qed.

(** X20: the labels [plot_ephemeris] buffers.  The labels the page held
    stay, in their order; one label is added for each point that has a
    text and lies on the canvas, in the order of the track and with that
    text; a point off the canvas gets none. *)
Theorem buffered_texts (ld : list draw_call) (page : cairo_page) (e : ephemeris) :
  exists added,
    labels (snd ((Renderer.plot_ephemeris plane_project atan2 sin cos gsl_finite) s ld page e)) = (labels page ++ added)%list
    /\ map label added = flat_map text_on_canvas (data e).
Proof.
  destruct (plot_ephemeris_out ld page e) as (prev & _ & Hlab). cbv zeta in Hlab.
  eexists. split; [exact Hlab|]. clear Hlab.
  generalize (initial_direction (data e)) as theta0. generalize 0 as i. revert prev.
  induction (data e) as [|pt rest IH]; intros prev i theta0; cbn [tick_directions flat_map map].
  - reflexivity.
  - rewrite map_app, IH. f_equal.
    set (theta := finite_or_zero _).
    pose proof (tick_of_cases i pt theta) as Hc. cbv zeta in Hc.
    unfold text_on_canvas.
    destruct (text_label pt) as [text|]; [destruct (on_canvas pt)|]; rewrite Hc; reflexivity.
Qed.

(** X21: every label [plot_ephemeris] adds offers four positions without
    rotation, two on either side of the point: the first and the third
    with one pair of alignments out of -1, 0, 1 and not both 0, the second
    and the fourth with the opposite pair; the two pairs of anchors have
    the same midpoint, and the outer pair is 1.85 / 1.5 times as far apart
    as the inner one.  Its font size and margin are 1.7 and 0, or 1.3 and
    2. *)
Theorem added_labels_well_placed (ld : list draw_call) (page : cairo_page) (e : ephemeris) :
  exists added,
    labels (snd ((Renderer.plot_ephemeris plane_project atan2 sin cos gsl_finite) s ld page e)) = (labels page ++ added)%list
    /\ Forall well_placed added.
Proof.
  destruct (plot_ephemeris_out ld page e) as (prev & _ & Hlab). cbv zeta in Hlab.
  eexists. split; [exact Hlab|].
  apply Forall_forall. intros l Hl.
  apply in_flat_map in Hl. destruct Hl as (d & _ & Hl).
  apply tick_labels_cases in Hl. destruct Hl as (text & _ & _ & ->).
  apply label_at_well_placed.
Qed.

(** X22: among the labels [plot_ephemeris] adds for a track of at most
    3,600,000 points, every major label (font size 1.7) has a lower score
    than every minor label (font size 1.3), wherever the two lie on the
    track and whatever their days and months. *)
Theorem major_labels_outrank_minor (ld : list draw_call) (page : cairo_page) (e : ephemeris) :
  Z.of_nat (List.length (data e)) <= 3600000 ->
  exists added,
    labels (snd ((Renderer.plot_ephemeris plane_project atan2 sin cos gsl_finite) s ld page e)) = (labels page ++ added)%list
    /\ forall l1 l2, In l1 added -> In l2 added ->
         (font_size l1 == 1.7)%Q -> (font_size l2 == 1.3)%Q ->
         (priority l1 < priority l2)%Q.
Proof.
  intro Hlen.
  destruct (plot_ephemeris_out ld page e) as (prev & _ & Hlab). cbv zeta in Hlab.
  eexists. split; [exact Hlab|].
  intros l1 l2 H1 H2 Hf1 Hf2.
  apply in_flat_map in H1, H2.
  destruct H1 as (d1 & Hd1 & H1). destruct H2 as (d2 & Hd2 & H2).
  apply tick_directions_index in Hd1, Hd2.
  destruct Hd1 as [Hi1 _]. destruct Hd2 as [Hi2 _].
  apply tick_labels_cases in H1, H2.
  destruct H1 as (t1 & _ & _ & ->). destruct H2 as (t2 & _ & _ & ->).
  unfold label_at in *. cbn [font_size priority] in *.
  destruct (sub_month_label (snd (fst d1)) =? 0) eqn:E1; cbn [negb] in Hf1;
    [|vm_compute in Hf1; discriminate].
  destruct (sub_month_label (snd (fst d2)) =? 0) eqn:E2; cbn [negb] in Hf2;
    [vm_compute in Hf2; discriminate|].
  apply Z.eqb_eq in E1. apply Z.eqb_neq in E2. rewrite E1.
  apply PriorityFacts.priority_major_lt_minor; [exact E2 | lia].
Qed.

(** X23: from the third point on, a tick points along the step from the
    point before: the label of a point at index [k + 1 >= 2] that has a
    text and lies on the canvas is the label of lines 515-549 for the
    direction [atan2 (y - last_y) (x - last_x)] from the canvas coordinates
    of point [k], whether that point lies on the canvas or not, and 0 when
    that direction is not finite. *)
Theorem tick_follows_previous_point (ld : list draw_call) (page : cairo_page)
  (e : ephemeris) (k : nat) (p q : ephemeris_point) (text : string) :
  (1 <= k)%nat ->
  nth_error (data e) k = Some p -> nth_error (data e) (S k) = Some q ->
  text_label q = Some text -> on_canvas q = true ->
  let theta := finite_or_zero (atan2 (snd (project q) - snd (project p))%Q
                                     (fst (project q) - fst (project p))%Q) in
  In (label_at q text (Z.of_nat (S k)) theta) (labels (snd ((Renderer.plot_ephemeris plane_project atan2 sin cos gsl_finite) s ld page e))).
Proof.
  intros Hk Hp Hq Htext Hon theta.
  destruct (plot_ephemeris_out ld page e) as (prev & _ & Hlab). cbv zeta in Hlab.
  rewrite Hlab. apply in_or_app. right.
  pose proof (tick_directions_nth (data e) (S k) 0 (initial_direction (data e)) prev q Hq) as Hn.
  cbv beta iota zeta in Hn. rewrite Hp in Hn.
  replace (0 + Z.of_nat (S k) <? 2) with false in Hn by (symmetry; apply Z.ltb_ge; lia).
  fold theta in Hn.
  apply (flat_map_in_nth _ _ _ _ _ Hn).
  pose proof (tick_of_cases (0 + Z.of_nat (S k)) q theta) as Hc. cbv zeta in Hc.
  rewrite Htext, Hon in Hc. rewrite Hc. cbn [snd]. left.
  now rewrite Z.add_0_l.
Qed.

(** X24: the first two ticks share one direction, the one the first loop
    stored at the third point.  The label of a point at index 0 or 1 that
    has a text and lies on the canvas is the label of lines 515-549 for
    [initial_direction]: the step to the third point from the last of the
    first two points on the canvas, measured from (0, 0) when neither lies
    on it, and 0 when the track has fewer than three points or the third
    lies off the canvas.  In that last case the text is centred
    horizontally. *)
Theorem first_ticks_share_direction (ld : list draw_call) (page : cairo_page)
  (e : ephemeris) (k : nat) (q : ephemeris_point) (text : string) :
  (k < 2)%nat ->
  nth_error (data e) k = Some q ->
  text_label q = Some text -> on_canvas q = true ->
  let theta := finite_or_zero (initial_direction (data e)) in
  In (label_at q text (Z.of_nat k) theta) (labels (snd ((Renderer.plot_ephemeris plane_project atan2 sin cos gsl_finite) s ld page e)))
  /\ (match nth_error (data e) 2 with
      | Some p2 => on_canvas p2 = false
      | None => True
      end ->
      theta = 0%Q
      /\ map (fun a => (h_align a, v_align a))
             (possible_positions (label_at q text (Z.of_nat k) theta))
         = [(0, 1); (0, -1); (0, 1); (0, -1)]).
Proof.
  intros Hk Hq Htext Hon theta. split.
  - destruct (plot_ephemeris_out ld page e) as (prev & _ & Hlab). cbv zeta in Hlab.
    rewrite Hlab. apply in_or_app. right.
    pose proof (tick_directions_nth (data e) k 0 (initial_direction (data e)) prev q Hq) as Hn.
    replace (0 + Z.of_nat k <? 2) with true in Hn by (symmetry; apply Z.ltb_lt; lia).
    fold theta in Hn.
    apply (flat_map_in_nth _ _ _ _ _ Hn).
    pose proof (tick_of_cases (0 + Z.of_nat k) q theta) as Hc. cbv zeta in Hc.
    rewrite Htext, Hon in Hc. rewrite Hc. cbn [snd]. left.
    now rewrite Z.add_0_l.
  - intro Hthird.
    assert (theta = 0%Q) as Hzero.
    { subst theta. unfold initial_direction, finite_or_zero.
      destruct (data e) as [|p0 [|p1 [|p2 rest]]];
        try (destruct (negb (gsl_finite 0%Q)); reflexivity).
      cbn [nth_error] in Hthird. rewrite Hthird.
      destruct (negb (gsl_finite 0%Q)); reflexivity. }
    split; [exact Hzero|]. rewrite Hzero. reflexivity.
Qed.

End RendererFacts.

End RendererFacts.

(** ** Sample runs for the further properties *)

Module FactsRuns.

Import Loader Coverage Planner.

Ltac compare_numbers := vm_compute; first [reflexivity | discriminate].

(** X2 on a record of the January track with two blanks in front. *)
Lemma indented_record_is_read :
  is_data_line ("  " ++ LoaderRuns.seventh_day) = is_data_line LoaderRuns.seventh_day
  /\ read_line Sample.get_float Sample.next_word Sample.inv_julian_day
               Sample.get_month_name reader_init ("  " ++ LoaderRuns.seventh_day)
     = read_line Sample.get_float Sample.next_word Sample.inv_julian_day
                 Sample.get_month_name reader_init LoaderRuns.seventh_day.
Proof.
  apply (LoaderFacts.leading_blanks_ignored
           Sample.get_float Sample.next_word Sample.inv_julian_day Sample.get_month_name
           "  " LoaderRuns.seventh_day reader_init).
  vm_compute. reflexivity.
Defined.

(** X7 on the January track: 8 data lines for an interval of 15 samples. *)
Lemma january_estimate :
  exists capacity,
    LoaderFacts.int_cast (20 + (jd_max Sample.january - jd_min Sample.january) / (1 # 2))%Q
    = Some capacity
    /\ capacity
       = capacity_estimate (jd_min Sample.january) (jd_max Sample.january) (1 # 2)
    /\ data_lines (output Sample.january) + 19 <= capacity
    /\ Forall (fun w => 0 <= fst w < capacity)
              (fst (read_output Sample.get_float Sample.next_word Sample.inv_julian_day
                                Sample.get_month_name reader_init (output Sample.january))).
Proof.
  apply (LoaderFacts.estimate_is_generous
           Sample.get_float Sample.next_word Sample.inv_julian_day Sample.get_month_name
           Sample.january).
  - compare_numbers.
  - compare_numbers.
Defined.

(** For an interval of 3,000,000,000 days the value of line 82 is no
    [int], and the conversion is undefined. *)
Example long_range_has_no_estimate :
  LoaderFacts.int_cast (20 + (3000000000 - 0) / (1 # 2))%Q = None
  /\ capacity_estimate 0%Q 3000000000%Q (1 # 2) = 6000000020.
Proof. split; vm_compute; reflexivity. Qed.

(** X8 on the bin opposite to a centroid in cell 150, and on a bin below
    the array. *)
Lemma opposite_bin_wraps :
  (wrap_ra_bin 3 (150 + ra_bins / 2) = Returns ((150 + ra_bins / 2) mod ra_bins)
   /\ 0 <= (150 + ra_bins / 2) mod ra_bins < ra_bins)
  /\ (wrap_ra_bin 3 (-200) = Returns ((-200) mod ra_bins)
      /\ 0 <= (-200) mod ra_bins < ra_bins).
Proof.
  split.
  - apply (CoverageFacts.wrap_ra_bin_is_mod (150 + ra_bins / 2) 3). vm_compute. discriminate.
  - apply (CoverageFacts.wrap_ra_bin_is_mod (-200) 3). vm_compute. discriminate.
Defined.

(** X10 on the grid of the January track. *)
Lemma january_dec_extremes :
  scan_dec_min 144 CoverageRuns.january_dec_usage 1 = Returns (85, 1)
  /\ scan_dec_max 144 CoverageRuns.january_dec_usage 1 = Returns (86, 1).
Proof.
  destruct (CoverageFacts.dec_scans_find_extremes CoverageRuns.january_dec_usage 1 144
              ltac:(unfold dec_bins; lia)) as (Hmin & Hmax & _).
  split.
  - apply (Hmin 85); [unfold dec_bins; lia | vm_compute; discriminate|].
    intros j Hj. unfold CoverageRuns.january_dec_usage.
    destruct (85 <=? j) eqn:E; [apply Z.leb_le in E; lia | reflexivity].
  - apply (Hmax 86); [unfold dec_bins; lia | vm_compute; discriminate|].
    intros j Hj. unfold CoverageRuns.january_dec_usage.
    destruct (j <=? 86) eqn:E; [apply Z.leb_le in E; lia | now rewrite andb_false_r].
Defined.

(** X11 on the first point of the January track, without rounding. *)
Lemma january_first_indices :
  0 <= ra_bin_of 1%Q < ra_bins
  /\ 0 <= dec_bin_of 0.3%Q < dec_bins
  /\ 0 <= ra_bin_of (1 + M_PI)%Q < 2 * ra_bins.
Proof.
  apply (CoverageFacts.indices_in_range_with_rounding (fun x => x) 1%Q 0.3%Q
           CoverageFacts.exact_rounds); compare_numbers.
Defined.

(** X12 on the grid of the January track, for the result (30, 1). *)
Lemma january_scan_results :
  (scan_ra_min 193 CoverageRuns.january_ra_usage 31 127 1 = Returns (30, 1) ->
   0 <= 30 < ra_bins
   \/ (30 = ra_bins /\ 127 = ra_bins - 1
       /\ (CoverageRuns.january_ra_usage ra_bins <> 0 \/ 31 = ra_bins)))
  /\ (scan_ra_max 193 CoverageRuns.january_ra_usage 31 127 1 = Returns (30, 1) ->
      0 <= 30 < ra_bins)
  /\ (scan_dec_min 193 CoverageRuns.january_dec_usage 1 = Returns (30, 1) ->
      0 <= 30 < dec_bins)
  /\ (scan_dec_max 193 CoverageRuns.january_dec_usage 1 = Returns (30, 1) ->
      0 <= 30 < dec_bins).
Proof.
  apply (CoverageFacts.scan_results_in_range
           CoverageRuns.january_ra_usage CoverageRuns.january_dec_usage
           31 127 1 193 (30, 1)).
  unfold ra_bins. lia.
Defined.

(** The chart the planner makes of the bins of the January track. *)
Definition january_plan : chart_config :=
  FetchRuns.chart_of (plan_viewport 2 Sample.chart 30 32 85 86) Sample.chart.

(** X13 on the bins of the January track. *)
Lemma january_viewport_bounds :
  exists ra_min ra_max s',
    ra_hours 2 30 32 = Returns (ra_min, ra_max)
    /\ plan_viewport 2 Sample.chart 30 32 85 86 = Returns s'
    /\ (0 < fabs (ra_max - ra_min) * 180 / 12)%Q
    /\ (0 <= ra0 s')%Q /\ (ra0 s' < 24)%Q
    /\ (0 < angular_width s')%Q /\ (angular_width s' <= 360)%Q
    /\ (0 < aspect s')%Q /\ (aspect s' <= 1.5)%Q
    /\ (projection s' = SW_PROJECTION_GNOM \/ projection s' = SW_PROJECTION_FLAT)
    /\ (projection s' = SW_PROJECTION_GNOM ->
        (0.5 <= aspect s')%Q
        /\ dec0 s' = ((dec_min_of 85 + dec_max_of 86) / 2)%Q
        /\ (-90 <= dec0 s')%Q /\ (dec0 s' <= 90)%Q)
    /\ (projection s' = SW_PROJECTION_FLAT ->
        (aspect s' <= 0.5)%Q \/ aspect s' = 1%Q).
Proof.
  apply (PlannerFacts.autoscaled_viewport_bounds 2 Sample.chart 30 32 85 86).
  - unfold ra_bins. lia.
  - unfold ra_bins. lia.
  - lia.
  - unfold dec_bins. lia.
  - lia.
  - discriminate.
Defined.

(** X14 on the bins of the January track: the chart stays gnomonic and
    keeps the style of the caller. *)
Lemma january_plan_keeps_style :
  width january_plan = width Sample.chart
  /\ font_size january_plan = font_size Sample.chart
  /\ mag_min january_plan = mag_min Sample.chart
  /\ maximum_star_label_count january_plan = maximum_star_label_count Sample.chart
  /\ dso_names january_plan = dso_names Sample.chart
  /\ (star_flamsteed_labels january_plan = star_flamsteed_labels Sample.chart
      \/ star_flamsteed_labels january_plan = 0).
Proof.
  destruct (PlannerFacts.autoscaled_style 2 Sample.chart january_plan 30 32 85 86
              ltac:(vm_compute; reflexivity) ltac:(discriminate)) as (_ & _ & Hgnom & _).
  apply Hgnom. vm_compute. reflexivity.
Defined.

(** X15 on the January track fetched with autoscale off. *)
Lemma january_fixed_only_loads :
  exists data total,
    fetch_tracks Sample.get_float Sample.next_word Sample.inv_julian_day
                 Sample.get_month_name [Sample.january] = Returns (data, total)
    /\ FetchRuns.january_fixed = with_ephemeris Sample.chart_fixed data 0.
Proof.
  apply (FetchFacts.fetch_with_autoscale_off
           Sample.get_float Sample.next_word Sample.inv_julian_day Sample.get_month_name
           Sample.find_mean_position 200 Sample.heap Sample.heap
           Sample.chart_fixed FetchRuns.january_fixed [Sample.january]).
  - reflexivity.
  - vm_compute. reflexivity.
Defined.



(** X18 on a major label of October 14 at index 100 and a minor label of
    January 14 at index 0. *)
Lemma major_october_before_minor_january :
  (Priority.priority 100 0 14 10 < Priority.priority 0 1 14 1)%Q
  /\ (Priority.priority 0 1 14 1 < Priority.priority (0 + 3600001) 0 1 2)%Q
  /\ (forall k s d m, 100 < k -> (Priority.priority 100 s d m < Priority.priority k s d m)%Q).
Proof.
  apply (PriorityFacts.priority_order 100 0 1 14 10 14 1).
  - discriminate.
  - lia.
Defined.

(** The sample chart with a canvas that holds the January track. *)
Definition wide_chart : chart_config :=
  {| ephemeris_data := []; ephemeris_autoscale := 0;
     ra0 := 5%Q; dec0 := 20%Q; star_flamsteed_labels := 1;
     projection := SW_PROJECTION_GNOM; angular_width := 25%Q;
     width := 16%Q; font_size := 1%Q; mag_min := 6%Q;
     maximum_star_label_count := 30; dso_names := 1; aspect := 0.7%Q;
     x_min := (-2)%Q; x_max := 2%Q; y_min := (-2)%Q; y_max := 2%Q;
     wlin := 1%Q; line_width_base := 1%Q |}.

(** The points of the January 6 and January 7, and the point of January 1. *)
Definition sixth_day_entry : ephemeris_point :=
  {| ra := Sample.get_float "1.05"; dec := Sample.get_float "0.31";
     text_label := None; day := 0; month := 0; year := 0; sub_month_label := 0 |}.

Definition first_day_entry : ephemeris_point :=
  {| ra := Sample.get_float "1.00"; dec := Sample.get_float "0.30";
     text_label := Some "Jan 2022"%string; day := 1; month := 1; year := 2022;
     sub_month_label := 0 |}.

(** X22 on the January track. *)
Lemma january_major_outranks_minor :
  exists added,
    Renderer.labels (snd (RendererRuns.plot wide_chart [] RendererRuns.blank_page
                                            RendererRuns.january_track))
    = (Renderer.labels RendererRuns.blank_page ++ added)%list
    /\ forall l1 l2, In l1 added -> In l2 added ->
         (Renderer.font_size l1 == 1.7)%Q -> (Renderer.font_size l2 == 1.3)%Q ->
         (Renderer.priority l1 < Renderer.priority l2)%Q.
Proof.
  apply (RendererFacts.major_labels_outrank_minor
           Sample.plane_project Sample.atan2 Sample.sin Sample.cos Sample.gsl_finite
           wide_chart [] RendererRuns.blank_page RendererRuns.january_track).
  vm_compute. discriminate.
Defined.

(** X23 on the label of January 7, the seventh point of the track. *)
Lemma seventh_day_tick_direction :
  In (RendererFacts.label_at Sample.plane_project Sample.sin Sample.cos wide_chart
        LoaderRuns.seventh_day_entry "7" 6
        (RendererFacts.finite_or_zero Sample.gsl_finite
           (Sample.atan2
              (snd (RendererFacts.project Sample.plane_project wide_chart
                      LoaderRuns.seventh_day_entry)
               - snd (RendererFacts.project Sample.plane_project wide_chart
                        sixth_day_entry))%Q
              (fst (RendererFacts.project Sample.plane_project wide_chart
                      LoaderRuns.seventh_day_entry)
               - fst (RendererFacts.project Sample.plane_project wide_chart
                        sixth_day_entry))%Q)))
     (Renderer.labels (snd (RendererRuns.plot wide_chart [] RendererRuns.blank_page
                                              RendererRuns.january_track))).
Proof.
  apply (RendererFacts.tick_follows_previous_point
           Sample.plane_project Sample.atan2 Sample.sin Sample.cos Sample.gsl_finite
           wide_chart [] RendererRuns.blank_page RendererRuns.january_track
           5 sixth_day_entry LoaderRuns.seventh_day_entry "7").
  - lia.
  - vm_compute. reflexivity.
  - vm_compute. reflexivity.
  - reflexivity.
  - vm_compute. reflexivity.
Defined.

(** X24 on the label of January 1, drawn on the sample chart, whose canvas
    ends before the third point: the text is centred. *)
Lemma first_day_label_is_centred :
  map (fun a => (Renderer.h_align a, Renderer.v_align a))
      (Renderer.possible_positions
         (RendererFacts.label_at Sample.plane_project Sample.sin Sample.cos
            Sample.chart_fixed first_day_entry "Jan 2022" 0
            (RendererFacts.finite_or_zero Sample.gsl_finite
               (RendererFacts.initial_direction Sample.plane_project Sample.atan2
                  Sample.chart_fixed (data RendererRuns.january_track)))))
  = [(0, 1); (0, -1); (0, 1); (0, -1)].
Proof.
  destruct (RendererFacts.first_ticks_share_direction
              Sample.plane_project Sample.atan2 Sample.sin Sample.cos Sample.gsl_finite
              Sample.chart_fixed [] RendererRuns.blank_page RendererRuns.january_track
              0 first_day_entry "Jan 2022"
              ltac:(lia) ltac:(vm_compute; reflexivity) ltac:(reflexivity)
              ltac:(vm_compute; reflexivity)) as [_ Hcentred].
  apply Hcentred. vm_compute. reflexivity.
Defined.

End FactsRuns.

(** ** The same formulas in IEEE binary64 *)

Module Binary64.

Import PrimFloat.

Local Set Warnings "-inexact-float".

(** An [int] as a [double], for the small non-negative values used here. *)
Definition of_int (n : Z) : float := of_uint63 (Uint63.of_Z n).

Definition of_flag (b : bool) : float := if b then 1%float else 0%float.

Definition MAX (a b : float) : float := if ltb b a then a else b.
Definition MIN (a b : float) : float := if ltb a b then a else b.

Definition M_PI : float := 0x1.921fb54442d18p+1%float.

(** [(int) x = n], for [x] that is not negative. *)
Definition casts_to (x : float) (n : Z) : bool :=
  leb (of_int n) x && ltb x (of_int (n + 1)).

(** Lines 529-536 in binary64. *)
Definition priority (i sub_month_label day month : Z) : float :=
  (0.0123 + 1e-12 * of_int i
   - 4e-6 * of_flag (sub_month_label =? 0)%Z
   - 1e-7 * of_flag (day =? 14)%Z
   - 3e-7 * of_flag (month =? 1)%Z
   - 2e-7 * of_flag (month =? 7)%Z
   - 1e-7 * of_flag ((month =? 4)%Z || (month =? 11)%Z))%float.

(** Lines 210-211 before the cast. *)
Definition ra_bin_of (ra : float) : float := (ra / (2 * M_PI) * of_int Coverage.ra_bins)%float.
Definition dec_bin_of (dec : float) : float :=
  ((dec + M_PI / 2) / M_PI * of_int Coverage.dec_bins)%float.

(** Lines 300-303, 320 and 343-354 for a window given in hours and
    degrees: the two bounds of the clamps and the centre declination they
    leave. *)
Definition rectangular_dec0 (ra_min ra_max dec_min dec_max : float) : float * float * float :=
  let awb := (MAX ((ra_max - ra_min) * 180 / 12) (dec_max - dec_min) * 1.1)%float in
  let awb := if ltb 350 awb then 360%float else awb in
  let dec0 := ((dec_min + dec_max) / 2)%float in
  let ratio := (abs (dec_max - dec_min) / (abs (ra_max - ra_min) * 180 / 12))%float in
  let aspect := MIN 0.5 (ratio * 1.8)%float in
  let aspect := if ltb 0.5 ratio then 1%float else aspect in
  let ang_height := (awb * aspect)%float in
  let lower := (-89 + ang_height / 2)%float in
  let upper := (89 - ang_height / 2)%float in
  (lower, upper, MIN (MAX dec0 lower) upper).

(** The priority in binary64: October scores as February and November
    below it; a major April 1 below a minor label; day 14 below day 1. *)
Example priority_binary64 :
  eqb (priority 0 0 1 10) (priority 0 0 1 2) = true
  /\ ltb (priority 0 0 1 11) (priority 0 0 1 10) = true
  /\ ltb (priority 5 0 1 4) (priority 5 1 14 1) = true
  /\ ltb (priority 26 0 14 1) (priority 0 0 1 1) = true.
Proof. repeat split; vm_compute; reflexivity. Qed.

(** The bins in binary64: the index of the declination [M_PI / 2] is 144,
    and the bin opposite to a centroid at 3.12 rad is 191. *)
Example bins_binary64 :
  eqb (dec_bin_of (M_PI / 2)) 144 = true
  /\ casts_to (ra_bin_of (3.12 + M_PI)) 191 = true.
Proof. repeat split; vm_compute; reflexivity. Qed.

(** The clamps in binary64, for the window from 0h to 12h and from pole
    to pole: the lower bound lies above the upper bound and the centre
    ends on the upper one. *)
Example half_sky_binary64 :
  let '(lower, upper, dec0) := rectangular_dec0 0 12 (-90) 90 in
  ltb 9.99 lower = true /\ ltb upper (-9.99) = true
  /\ eqb dec0 upper = true /\ ltb dec0 lower = true.
Proof. vm_compute. repeat split. Qed.

(** Where the exact model and binary64 part.  A declination one unit in
    the last place below [M_PI / 2] gets the index 144 in binary64 and 143
    in exact arithmetic. *)
Example boundary_binary64 :
  ltb 1.5707963267948963 (M_PI / 2) = true
  /\ eqb (dec_bin_of 1.5707963267948963) 144 = true
  /\ Coverage.dec_bin_of (7074237752028439 # 4503599627370496)%Q = 143%Z.
Proof. repeat split; vm_compute; reflexivity. Qed.

(** At an index distance of exactly 3,600,000 a major label of February 1
    and a minor label of January 14 tie in exact arithmetic; in binary64
    the major label is lower.  One point nearer or further the order is
    that of the exact scores. *)
Example tie_binary64 :
  ltb (priority 3600000 0 1 2) (priority 0 1 14 1) = true
  /\ ltb (priority 0 1 14 1) (priority 3600001 0 1 2) = true
  /\ ltb (priority 3599999 0 1 2) (priority 0 1 14 1) = true.
Proof. repeat split; vm_compute; reflexivity. Qed.

(** A window of 100 degrees gives an [angular_width_base] of exactly 110
    in exact arithmetic and of more than 110 in binary64, where line 330
    then takes the rectangular branch. *)
Example threshold_binary64 :
  ltb 110 (100 * 1.1) = true /\ (100 * 1.1 == 110)%Q.
Proof. split; [vm_compute; reflexivity | reflexivity]. Qed.

End Binary64.
